(** * Schema and key validation of the ElectroShop dataset

    A shallow embedding of [src/validate_schema.py] (class
    [SchemaValidator]) and the properties of its checks.

    The validator reads a pandas [DataFrame] and a contract loaded from
    YAML, runs the primary-key, null, finite-number and per-column checks
    and appends one dictionary per failed check to [self.violations].
    Here a run is a computation in a small state-and-exception monad: the
    state is [self.violations], an exception is a Python [KeyError] or
    [TypeError]. *)

From Stdlib Require Import List String Ascii Bool Arith ZArith QArith Lia Lqa.
Import ListNotations.
Open Scope string_scope.
Open Scope list_scope.
Open Scope nat_scope.

(** ** Python values *)

Module Py.

(** Numbers.  An [int] or a finite [float] is the rational it denotes,
    so that [1 == 1.0] as in Python; the three special floats are kept
    apart.  Rounding of float arithmetic is not modelled. *)
Inductive num : Type :=
| Fin (q : Q)
| PInf
| NInf
| NaN.

Definition Qlt_bool (x y : Q) : bool := negb (Qle_bool y x).

(** [a == b] on numbers: [nan] is equal to nothing. *)
Definition num_eqb (a b : num) : bool :=
  match a, b with
  | Fin x, Fin y => Qeq_bool x y
  | PInf, PInf => true
  | NInf, NInf => true
  | _, _ => false
  end.

(** [a < b] on numbers: every comparison with [nan] is false. *)
Definition num_ltb (a b : num) : bool :=
  match a, b with
  | NaN, _ => false
  | _, NaN => false
  | Fin x, Fin y => Qlt_bool x y
  | Fin _, PInf => true
  | Fin _, NInf => false
  | NInf, NInf => false
  | NInf, _ => true
  | PInf, _ => false
  end.

Definition num_gtb (a b : num) : bool := num_ltb b a.

(** [a <= b]. *)
Definition num_leb (a b : num) : bool :=
  match a, b with
  | NaN, _ => false
  | _, NaN => false
  | Fin x, Fin y => Qle_bool x y
  | Fin _, PInf => true
  | Fin _, NInf => false
  | NInf, _ => true
  | PInf, PInf => true
  | PInf, _ => false
  end.

(** The scalars a cell or a YAML list holds: numbers ([bool] being the
    numbers 0 and 1, as [True == 1] in Python) and strings. *)
Inductive value : Type :=
| VNum (x : num)
| VStr (s : string).

Definition value_eqb (a b : value) : bool :=
  match a, b with
  | VNum x, VNum y => num_eqb x y
  | VStr s, VStr t => String.eqb s t
  | _, _ => false
  end.

(** The order [sorted] uses on a list of one kind.  Across kinds Python
    raises [TypeError]; the lists sorted below are of one kind by
    construction, and numbers are put before strings to keep the
    function total. *)
Definition value_leb (a b : value) : bool :=
  match a, b with
  | VNum x, VNum y => num_leb x y
  | VStr s, VStr t => String.leb s t
  | VNum _, VStr _ => true
  | VStr _, VNum _ => false
  end.

(** [x in xs]. *)
Definition mem (x : value) (xs : list value) : bool :=
  existsb (value_eqb x) xs.

(** [set(xs)]: a set is carried as the duplicate-free list of its
    elements, in order of first insertion.  (The iteration order of a
    Python set depends on hashing; nothing below depends on it.) *)
Fixpoint set_of (xs : list value) : list value :=
  match xs with
  | [] => []
  | x :: rest => x :: filter (fun y => negb (value_eqb y x)) (set_of rest)
  end.

(** [a - b] on sets. *)
Definition set_diff (a b : list value) : list value :=
  filter (fun x => negb (mem x b)) a.

Fixpoint insert_sorted (x : value) (xs : list value) : list value :=
  match xs with
  | [] => [x]
  | y :: rest =>
      if value_leb x y then x :: y :: rest else y :: insert_sorted x rest
  end.

(** [sorted(xs)]. *)
Definition sorted (xs : list value) : list value :=
  fold_right insert_sorted [] xs.

(** Exceptions raised by the code under study. *)
Inductive exn : Type :=
| KeyError (key : string)
| TypeError.

End Py.

Export Py.

(** ** The part of pandas and numpy the validator calls *)

Module Pandas.

(** [str(series.dtype)]. *)
Inductive dtype : Type :=
| int64 | int32 | int16 | int8
| uint64 | uint32 | uint16 | uint8
| Int64 | Int32 | Int16 | Int8
| float64 | float32 | float16
| Float64 | Float32
| object | string_ | category
| bool_ | boolean.

Definition dtype_str (d : dtype) : string :=
  match d with
  | int64 => "int64" | int32 => "int32" | int16 => "int16" | int8 => "int8"
  | uint64 => "uint64" | uint32 => "uint32" | uint16 => "uint16"
  | uint8 => "uint8"
  | Int64 => "Int64" | Int32 => "Int32" | Int16 => "Int16" | Int8 => "Int8"
  | float64 => "float64" | float32 => "float32" | float16 => "float16"
  | Float64 => "Float64" | Float32 => "Float32"
  | object => "object" | string_ => "string" | category => "category"
  | bool_ => "bool" | boolean => "boolean"
  end.

(** The dtypes [select_dtypes(include=[np.number])] keeps: the integer
    and floating dtypes, numpy's and the nullable ones; not [bool]. *)
Definition is_number (d : dtype) : bool :=
  match d with
  | int64 | int32 | int16 | int8
  | uint64 | uint32 | uint16 | uint8
  | Int64 | Int32 | Int16 | Int8
  | float64 | float32 | float16
  | Float64 | Float32 => true
  | _ => false
  end.

(** What a column stores: numbers or strings, with [None] for a missing
    entry ([None], [pd.NA]).  A float column also marks a missing entry
    by [nan], which is the cell [Some NaN]. *)
Inductive storage : Type :=
| Nums (xs : list (option num))
| Strs (xs : list (option string)).

Record Series : Type := mkSeries { dtype_of : dtype; data : storage }.

Definition cell : Type := option value.

Definition cells (s : Series) : list cell :=
  match data s with
  | Nums xs => map (option_map VNum) xs
  | Strs xs => map (option_map VStr) xs
  end.

(** [pd.isna] on one cell. *)
Definition isna (c : cell) : bool :=
  match c with
  | None => true
  | Some (VNum NaN) => true
  | Some _ => false
  end.

(** [series.isna().sum()]. *)
Definition isna_sum (s : Series) : nat :=
  List.length (filter isna (cells s)).

(** [series.dropna()], as the list of the values left. *)
Fixpoint dropna_cells (cs : list cell) : list value :=
  match cs with
  | [] => []
  | c :: rest =>
      if isna c then dropna_cells rest
      else match c with
           | Some v => v :: dropna_cells rest
           | None => dropna_cells rest
           end
  end.

Definition dropna (s : Series) : list value := dropna_cells (cells s).

(** [series.unique()] on a series without missing entries. *)
Definition unique (vs : list value) : list value := set_of vs.

(** [series.isin(values).sum()] for a set of values that holds no
    missing entry. *)
Definition isin_sum (s : Series) (vals : list value) : nat :=
  List.length (filter (fun c => match c with
                           | Some v => mem v vals
                           | None => false
                           end) (cells s)).

(** [np.isinf] on one cell. *)
Definition isinf (c : cell) : bool :=
  match c with
  | Some (VNum PInf) => true
  | Some (VNum NInf) => true
  | _ => false
  end.

(** [np.isinf(series).sum()]; only called on columns of a numeric
    dtype. *)
Definition isinf_sum (s : Series) : nat :=
  List.length (filter isinf (cells s)).

(** Two cells are the same key for [duplicated] and [groupby]: equal
    values, or both the same kind of missing entry. *)
Definition cell_same (a b : cell) : bool :=
  match a, b with
  | None, None => true
  | Some (VNum NaN), Some (VNum NaN) => true
  | Some x, Some y => value_eqb x y
  | _, _ => false
  end.

(** [series.duplicated().sum()]: the entries equal to an earlier one. *)
Fixpoint duplicated_from (seen : list cell) (cs : list cell) : nat :=
  match cs with
  | [] => 0
  | c :: rest =>
      if existsb (cell_same c) seen
      then S (duplicated_from seen rest)
      else duplicated_from (c :: seen) rest
  end.

Definition duplicated_sum (cs : list cell) : nat := duplicated_from [] cs.

(** A frame: [len(df)] and the columns in order.  pandas keeps every
    column as long as the index. *)
Record DataFrame : Type := mkDataFrame {
  index_len : nat;
  columns : list (string * Series)
}.

Fixpoint assoc {A : Type} (k : string) (kvs : list (string * A)) : option A :=
  match kvs with
  | [] => None
  | (k', v) :: rest => if String.eqb k k' then Some v else assoc k rest
  end.

(** [df[column]], [None] standing for the [KeyError]. *)
Definition df_get (df : DataFrame) (column : string) : option Series :=
  assoc column (columns df).

(** [column in df.columns]. *)
Definition has_column (df : DataFrame) (column : string) : bool :=
  match df_get df column with Some _ => true | None => false end.

(** [df.select_dtypes(include=[np.number]).columns]. *)
Definition numeric_columns (df : DataFrame) : list string :=
  map fst (filter (fun kv => is_number (dtype_of (snd kv))) (columns df)).

(** [df.groupby(by)[col].apply(lambda x: x.duplicated().sum())]: rows
    whose key is missing are dropped, the groups come in sorted key
    order.  The result is the series as (key, count) pairs. *)
Definition group_keys (by_cells : list cell) : list value :=
  sorted (unique (dropna_cells by_cells)).

Definition group_rows (key : value) (by_cells col_cells : list cell)
  : list cell :=
  map snd
      (filter (fun row => match fst row with
                          | Some k => negb (isna (fst row)) && value_eqb k key
                          | None => false
                          end)
              (combine by_cells col_cells)).

Definition groupby_duplicated_sum (by_cells col_cells : list cell)
  : list (value * nat) :=
  map (fun key => (key, duplicated_sum (group_rows key by_cells col_cells)))
      (group_keys by_cells).

(** [series.min()] and [series.max()] on the values left by [dropna]. *)
Definition num_min (a b : num) : num := if num_ltb b a then b else a.
Definition num_max (a b : num) : num := if num_ltb a b then b else a.

Definition nums_of (vs : list value) : list num :=
  flat_map (fun v => match v with VNum x => [x] | VStr _ => [] end) vs.

Definition series_min (xs : list num) : num :=
  match xs with
  | [] => NaN
  | x :: rest => fold_left num_min rest x
  end.

Definition series_max (xs : list num) : num :=
  match xs with
  | [] => NaN
  | x :: rest => fold_left num_max rest x
  end.

(** [(mask).sum()] for a mask computed element by element. *)
Definition count_if {A : Type} (p : A -> bool) (xs : list A) : nat :=
  List.length (filter p xs).

(** [a / b] on numpy integers: dividing by zero gives [nan] or [inf]
    (and a warning), not an exception. *)
Definition true_divide (a b : nat) : num :=
  match b with
  | O => if a =? 0 then NaN else PInf
  | S _ => Fin (Z.of_nat a # Pos.of_nat b)
  end.

(** [x * k] for a positive constant [k]. *)
Definition scale (x : num) (k : Q) : num :=
  match x with
  | Fin q => Fin (q * k)
  | other => other
  end.

End Pandas.

Export Pandas.

(** ** The validator *)

Module SchemaValidator.

(** *** The contract

    [self.contract['columns']] after [yaml.safe_load]: a dictionary, in
    document order, from column name to the column's specification.  A
    key a specification lacks is [None]. *)

(** A YAML list of scalars of one kind.  (On a list mixing numbers and
    strings Python's [sorted] raises [TypeError]; such an allow-list is
    not represented.) *)
Inductive scalars : Type :=
| NumList (xs : list num)
| StrList (xs : list string).

Definition values_of (l : scalars) : list value :=
  match l with
  | NumList xs => map VNum xs
  | StrList xs => map VStr xs
  end.

Record ColSpec : Type := mkColSpec {
  dtype : option string;
  allow_null : option bool;
  range : option (num * num);
  ge : option num;
  gt : option num;
  allowed : option scalars
}.

Definition Contract : Type := list (string * ColSpec).

(** [col_spec.get('allow_null', False)]. *)
Definition get_allow_null (col_spec : ColSpec) : bool :=
  match allow_null col_spec with Some b => b | None => false end.

(** *** Violations and results *)

(** The keys a violation dictionary has besides [check], [column] and
    [violations]. *)
Inductive extra : Type :=
| NoExtra
| ProblematicDays (problematic_days : list (value * nat))
| RangeExtra (expected actual_range : num * num)
| BoundExtra (expected min_found : num)
| AllowedExtra (expected unexpected_values : list value)
| PercentageExtra (percentage : num).

Record violation : Type := mkViolation {
  check : string;
  column : string;
  violations : nat;
  extra_keys : extra
}.

(** The messages.  Each constructor is one f-string of the source and
    carries the values the f-string interpolates. *)
Inductive issue : Type :=
| SessionDuplicates (n : nat)
    (* FAIL: {n} duplicate Session_IDs found globally *)
| SessionUnique
| SessionDuplicatesWithinDays (days : list (value * nat))
| SessionUniqueWithinDay
| IdDuplicates (n : nat)
| IdUnique
| NotFound (col : string)
    (* FAIL: Column '{column}' not found in dataset *)
| AllNull (col : string)
| OutsideRange (col : string) (n : nat) (lo hi : num)
| RangeFound (lo hi : num)
| WithinRange (col : string) (lo hi : num)
| BelowGe (col : string) (n : nat) (bound : num)
| SatisfiesGe (col : string) (bound : num)
| NotAboveGt (col : string) (n : nat) (bound : num)
| SatisfiesGt (col : string) (bound : num)
| UnexpectedValues (col : string) (n : nat) (unexpected : list value)
| RowsAffected (count : nat)
| OnlyAllowed (col : string) (allowed_values : list value)
| AllowedNotPresent (col : string) (missing : list value)
| DtypeMismatch (col : string) (expected actual : string)
    (* warning sign, {column}: expected {expected_dtype}, got {actual_dtype} *)
| NullsNotAllowed (col : string) (n : nat) (pct : num)
| InfValues (col : string) (n : nat)
| AllFinite
| Missing (col : string).
    (* Column '{col_name}' missing from dataset *)

(** The dictionary [{'passed': ..., 'issues': [...]}] every check
    returns. *)
Record Result : Type := mkResult {
  passed : bool;
  issues : list issue
}.

Definition new_result : Result := {| passed := true; issues := [] |}.

(** [results['passed'] = False]. *)
Definition set_failed (r : Result) : Result :=
  {| passed := false; issues := issues r |}.

(** [results['issues'].append(i)]. *)
Definition append_issue (r : Result) (i : issue) : Result :=
  {| passed := passed r; issues := issues r ++ [i] |}.

Record NullStat : Type := mkNullStat {
  count : nat;
  percentage : num;
  stat_allow_null : bool
}.

Record NullsResult : Type := mkNullsResult {
  nulls_passed : bool;
  nulls_issues : list issue;
  null_stats : list (string * NullStat)
}.

(** What [validate_all] returns. *)
Record AllResults : Type := mkAllResults {
  primary_keys : Result;
  columns_results : list (string * Result);
  nulls : NullsResult;
  finite_numbers : Result
}.

(** [d[k] = v] on a dictionary kept in insertion order. *)
Fixpoint dict_set {A : Type} (d : list (string * A)) (k : string) (v : A)
  : list (string * A) :=
  match d with
  | [] => [(k, v)]
  | (k', v') :: rest =>
      if String.eqb k k' then (k, v) :: rest
      else (k', v') :: dict_set rest k v
  end.

(** *** The monad of a method call

    A method runs on [self.violations] and either returns or raises;
    what it appended before raising stays in the list. *)
Definition M (A : Type) : Type :=
  list violation -> (exn + A) * list violation.

Definition ret {A : Type} (a : A) : M A := fun vs => (inr a, vs).

Definition bind {A B : Type} (m : M A) (k : A -> M B) : M B :=
  fun vs =>
    match m vs with
    | (inr a, vs') => k a vs'
    | (inl e, vs') => (inl e, vs')
    end.

Definition raise {A : Type} (e : exn) : M A := fun vs => (inl e, vs).

(** [self.violations.append(v)]. *)
Definition append_violation (v : violation) : M unit :=
  fun vs => (inr tt, vs ++ [v]).

Declare Scope py_scope.
Delimit Scope py_scope with py.
Notation "x <- m ;; k" := (bind m (fun x => k))
  (at level 61, m at next level, right associativity) : py_scope.
Notation "m ;; k" := (bind m (fun _ => k))
  (at level 61, right associativity) : py_scope.
Open Scope py_scope.

(** [df[column]] inside a method. *)
Definition getitem (df : DataFrame) (col : string) : M Series :=
  match df_get df col with
  | Some s => ret s
  | None => raise (KeyError col)
  end.

(** *** validate_primary_keys *)

Definition sum_counts (kvs : list (value * nat)) : nat :=
  fold_right (fun kv acc => snd kv + acc) 0 kvs.

Definition validate_primary_keys (df : DataFrame) : M Result :=
  let results := new_result in
  (* Session_ID uniqueness globally *)
  session <- getitem df "Session_ID" ;;
  let session_dupes := duplicated_sum (cells session) in
  results <-
    (if 0 <? session_dupes then
       append_violation {| check := "primary_key_global";
                           column := "Session_ID";
                           violations := session_dupes;
                           extra_keys := NoExtra |} ;;
       ret (append_issue (set_failed results)
                         (SessionDuplicates session_dupes))
     else ret (append_issue results SessionUnique)) ;;
  (* Session_ID uniqueness within each day *)
  day <- getitem df "Day" ;;
  session <- getitem df "Session_ID" ;;
  let day_dupes := groupby_duplicated_sum (cells day) (cells session) in
  results <-
    (if 0 <? sum_counts day_dupes then
       let problematic_days :=
         filter (fun kv => 0 <? snd kv) day_dupes in
       append_violation {| check := "primary_key_within_day";
                           column := "Session_ID";
                           violations := sum_counts day_dupes;
                           extra_keys := ProblematicDays problematic_days |} ;;
       ret (append_issue (set_failed results)
                         (SessionDuplicatesWithinDays problematic_days))
     else ret (append_issue results SessionUniqueWithinDay)) ;;
  (* the 'id' column, if there is one *)
  if has_column df "id" then
    id <- getitem df "id" ;;
    let id_dupes := duplicated_sum (cells id) in
    if 0 <? id_dupes then
      append_violation {| check := "id_uniqueness";
                          column := "id";
                          violations := id_dupes;
                          extra_keys := NoExtra |} ;;
      ret (append_issue (set_failed results) (IdDuplicates id_dupes))
    else ret (append_issue results IdUnique)
  else ret results.

(** *** validate_numeric_range *)

(** The operand of [values < bound]: the values as numbers.  Comparing
    a column of strings with a number raises [TypeError], and so does
    comparing a categorical column that is not ordered, which is what
    [astype('category')] gives.  A categorical column is taken to be of
    that kind: an ordered categorical, which pandas compares by the
    position of the categories, is not represented, and the properties
    below that depend on the comparison are stated of columns that are
    not categorical or that store strings. *)
Definition ordered_values (s : Series) : M (list num) :=
  match data s with
  | Nums _ =>
      match dtype_of s with
      | category => raise TypeError
      | _ => ret (nums_of (dropna s))
      end
  | Strs _ => raise TypeError
  end.

(** The three masks of the check, element by element.  The comparison
    is the exact one on the numbers the operands denote.  numpy compares
    an integer column with a float bound in floating point and rounds an
    integer beyond 2^53 on the way; rounding keeps the order ([<=]) and
    leaves a number equal to the bound as it is, and the properties
    stated of the counts are those that hold with it as well. *)
Definition outside_range (min_val max_val v : num) : bool :=
  num_ltb v min_val || num_gtb v max_val.
Definition below (min_val v : num) : bool := num_ltb v min_val.
Definition not_above (min_val v : num) : bool := num_leb v min_val.

Definition check_range (column : string) (s : Series)
           (bounds : option (num * num)) (results : Result) : M Result :=
  match bounds with
  | Some (min_val, max_val) =>
      values <- ordered_values s ;;
      let out_of_range := count_if (outside_range min_val max_val) values in
      if 0 <? out_of_range then
        append_violation
          {| check := "range";
             column := column;
             violations := out_of_range;
             extra_keys := RangeExtra (min_val, max_val)
                                      (series_min values, series_max values) |} ;;
        ret (append_issue
               (append_issue (set_failed results)
                  (OutsideRange column out_of_range min_val max_val))
               (RangeFound (series_min values) (series_max values)))
      else ret (append_issue results (WithinRange column min_val max_val))
  | None => ret results
  end.

Definition check_ge (column : string) (s : Series)
           (bound : option num) (results : Result) : M Result :=
  match bound with
  | Some min_val =>
      values <- ordered_values s ;;
      let n := count_if (below min_val) values in
      if 0 <? n then
        append_violation
          {| check := "ge";
             column := column;
             violations := n;
             extra_keys := BoundExtra min_val (series_min values) |} ;;
        ret (append_issue (set_failed results) (BelowGe column n min_val))
      else ret (append_issue results (SatisfiesGe column min_val))
  | None => ret results
  end.

Definition check_gt (column : string) (s : Series)
           (bound : option num) (results : Result) : M Result :=
  match bound with
  | Some min_val =>
      values <- ordered_values s ;;
      let n := count_if (not_above min_val) values in
      if 0 <? n then
        append_violation
          {| check := "gt";
             column := column;
             violations := n;
             extra_keys := BoundExtra min_val (series_min values) |} ;;
        ret (append_issue (set_failed results) (NotAboveGt column n min_val))
      else ret (append_issue results (SatisfiesGt column min_val))
  | None => ret results
  end.

Definition validate_numeric_range (df : DataFrame) (column : string)
           (spec : ColSpec) : M Result :=
  match df_get df column with
  | None => ret {| passed := false; issues := [NotFound column] |}
  | Some s =>
      let results := new_result in
      match dropna s with
      | [] => ret (append_issue results (AllNull column))
      | _ :: _ =>
          results <- check_range column s (range spec) results ;;
          results <- check_ge column s (ge spec) results ;;
          check_gt column s (gt spec) results
      end
  end.

(** *** validate_categorical *)

Definition validate_categorical (df : DataFrame) (column : string)
           (spec : ColSpec) : M Result :=
  match df_get df column with
  | None => ret {| passed := false; issues := [NotFound column] |}
  | Some s =>
      let results := new_result in
      match allowed spec with
      | None => ret results
      | Some l =>
          let allowed_set := set_of (values_of l) in
          let values := dropna s in
          let unique_values := set_of (unique values) in
          let unexpected := set_diff unique_values allowed_set in
          results <-
            (match unexpected with
             | _ :: _ =>
                 let n := isin_sum s unexpected in
                 append_violation
                   {| check := "categorical_allowed";
                      column := column;
                      violations := n;
                      extra_keys := AllowedExtra (sorted allowed_set)
                                                 (sorted unexpected) |} ;;
                 ret (append_issue
                        (append_issue (set_failed results)
                           (UnexpectedValues column
                              (List.length unexpected) unexpected))
                        (RowsAffected n))
             | [] => ret (append_issue results
                                       (OnlyAllowed column allowed_set))
             end) ;;
          let missing := set_diff allowed_set unique_values in
          match missing with
          | _ :: _ => ret (append_issue results
                                        (AllowedNotPresent column missing))
          | [] => ret results
          end
      end
  end.

(** *** validate_dtype *)

Definition dtype_mapping : list (string * list string) :=
  [ ("int", ["int64"; "int32"; "int16"; "int8"; "Int64"; "Int32"]);
    ("float", ["float64"; "float32"; "Float64"]);
    ("string", ["object"; "string"]);
    ("category", ["object"; "string"; "category"]);
    ("bool", ["bool"; "boolean"]) ].

(** [x in xs] on strings. *)
Definition str_in (x : string) (xs : list string) : bool :=
  existsb (String.eqb x) xs.

Definition validate_dtype (df : DataFrame) (column : string)
           (expected_dtype : string) : Result :=
  match df_get df column with
  | None => {| passed := false; issues := [NotFound column] |}
  | Some s =>
      let results := new_result in
      let actual_dtype := dtype_of s in
      match assoc expected_dtype dtype_mapping with
      | Some allowed_dtypes =>
          if negb (str_in (dtype_str actual_dtype) allowed_dtypes) then
            append_issue (set_failed results)
              (DtypeMismatch column expected_dtype (dtype_str actual_dtype))
          else results
      | None => results
      end
  end.

(** *** validate_nulls *)

Definition set_null_stat (r : NullsResult) (col_name : string)
           (st : NullStat) : NullsResult :=
  {| nulls_passed := nulls_passed r;
     nulls_issues := nulls_issues r;
     null_stats := dict_set (null_stats r) col_name st |}.

Definition fail_nulls (r : NullsResult) (i : issue) : NullsResult :=
  {| nulls_passed := false;
     nulls_issues := nulls_issues r ++ [i];
     null_stats := null_stats r |}.

Fixpoint validate_nulls_loop (df : DataFrame) (items : Contract)
         (results : NullsResult) : M NullsResult :=
  match items with
  | [] => ret results
  | (col_name, col_spec) :: rest =>
      match df_get df col_name with
      | None => validate_nulls_loop df rest results
      | Some s =>
          let null_count := isna_sum s in
          let null_pct := scale (true_divide null_count (index_len df)) 100 in
          let results :=
            set_null_stat results col_name
              {| count := null_count;
                 percentage := null_pct;
                 stat_allow_null := get_allow_null col_spec |} in
          results <-
            (if negb (get_allow_null col_spec) && (0 <? null_count) then
               append_violation
                 {| check := "null_constraint";
                    column := col_name;
                    violations := null_count;
                    extra_keys := PercentageExtra null_pct |} ;;
               ret (fail_nulls results
                      (NullsNotAllowed col_name null_count null_pct))
             else ret results) ;;
          validate_nulls_loop df rest results
      end
  end.

Definition validate_nulls (contract : Contract) (df : DataFrame)
  : M NullsResult :=
  validate_nulls_loop df contract
    {| nulls_passed := true; nulls_issues := []; null_stats := [] |}.

(** *** validate_finite_numbers *)

Fixpoint validate_finite_loop (df : DataFrame) (numeric_cols : list string)
         (results : Result) : M Result :=
  match numeric_cols with
  | [] => ret results
  | col :: rest =>
      s <- getitem df col ;;
      let inf_count := isinf_sum s in
      results <-
        (if 0 <? inf_count then
           append_violation
             {| check := "finite_numbers";
                column := col;
                violations := inf_count;
                extra_keys := NoExtra |} ;;
           ret (append_issue (set_failed results) (InfValues col inf_count))
         else ret results) ;;
      validate_finite_loop df rest results
  end.

Definition validate_finite_numbers (df : DataFrame) : M Result :=
  let numeric_cols := numeric_columns df in
  results <- validate_finite_loop df numeric_cols new_result ;;
  if passed results then ret (append_issue results AllFinite)
  else ret results.

(** *** validate_all *)

(** [col_spec['dtype']]. *)
Definition getitem_dtype (col_spec : ColSpec) : M string :=
  match dtype col_spec with
  | Some d => ret d
  | None => raise (KeyError "dtype")
  end.

(** [col_results['issues'].extend(r['issues'])] followed by
    [if not r['passed']: col_results['passed'] = False]. *)
Definition merge (col_results r : Result) : Result :=
  let col_results :=
    {| passed := passed col_results;
       issues := issues col_results ++ issues r |} in
  if negb (passed r) then set_failed col_results else col_results.

(** The body of the loop for a column the dataset has. *)
Definition validate_column (df : DataFrame) (col_name : string)
           (col_spec : ColSpec) : M Result :=
  let col_results := new_result in
  expected <- getitem_dtype col_spec ;;
  let dtype_result := validate_dtype df col_name expected in
  let col_results := merge col_results dtype_result in
  expected <- getitem_dtype col_spec ;;
  col_results <-
    (if str_in expected ["int"; "float"] then
       range_result <- validate_numeric_range df col_name col_spec ;;
       ret (merge col_results range_result)
     else ret col_results) ;;
  match allowed col_spec with
  | Some _ =>
      cat_result <- validate_categorical df col_name col_spec ;;
      ret (merge col_results cat_result)
  | None => ret col_results
  end.

Fixpoint validate_columns (df : DataFrame) (items : Contract)
         (cols : list (string * Result)) : M (list (string * Result)) :=
  match items with
  | [] => ret cols
  | (col_name, col_spec) :: rest =>
      if negb (has_column df col_name) then
        validate_columns df rest
          (dict_set cols col_name
             {| passed := false; issues := [Missing col_name] |})
      else
        col_results <- validate_column df col_name col_spec ;;
        validate_columns df rest (dict_set cols col_name col_results)
  end.

Definition validate_all (contract : Contract) (df : DataFrame)
  : M AllResults :=
  pk <- validate_primary_keys df ;;
  nl <- validate_nulls contract df ;;
  fin <- validate_finite_numbers df ;;
  cols <- validate_columns df contract [] ;;
  ret {| primary_keys := pk;
         columns_results := cols;
         nulls := nl;
         finite_numbers := fin |}.

(** *** The validator object

    [self]: the contract read by [__init__] and the list
    [self.violations], which [__init__] sets to [[]] and no method
    clears. *)
Record Validator : Type := mkValidator {
  contract : Contract;
  self_violations : list violation
}.

(** [SchemaValidator(contract_path)], the contract already parsed. *)
Definition init (c : Contract) : Validator :=
  {| contract := c; self_violations := [] |}.

(** [self.validate_all(df)]: what the call returns or raises, and the
    validator after the call. *)
Definition run (self : Validator) (df : DataFrame)
  : (exn + AllResults) * Validator :=
  let (r, vs) := validate_all (contract self) df (self_violations self) in
  (r, {| contract := contract self; self_violations := vs |}).

(** The report of a run: the results returned together with the
    violation records the validator holds after the call (what
    [print_summary] counts and [save_violations_report] writes). *)
Definition report (out : (exn + AllResults) * Validator)
  : (exn + AllResults) * list violation :=
  (fst out, self_violations (snd out)).

End SchemaValidator.

Import SchemaValidator.

(** ** Concrete datasets and contracts *)

Module Examples.

Definition int_ (z : Z) : option num := Some (Fin (inject_Z z)).

Definition ints (zs : list Z) : Series :=
  mkSeries int64 (Nums (map int_ zs)).

Definition floats (xs : list (option num)) : Series :=
  mkSeries float64 (Nums xs).

Definition strings (xs : list (option string)) : Series :=
  mkSeries object (Strs xs).

Definition empty_spec : ColSpec :=
  {| dtype := None; allow_null := None; range := None;
     ge := None; gt := None; allowed := None |}.

Definition of_dtype (d : string) : ColSpec :=
  {| dtype := Some d; allow_null := None; range := None;
     ge := None; gt := None; allowed := None |}.

(** Three sessions on three days, and an integer column [Age]. *)
Definition clean_df : DataFrame :=
  {| index_len := 3;
     columns := [ ("Session_ID", ints [1; 2; 3]%Z);
                  ("Day", ints [1; 1; 2]%Z);
                  ("Age", ints [20; 30; 40]%Z) ] |}.

(** The session 1 occurs twice, both times on day 1. *)
Definition duplicate_df : DataFrame :=
  {| index_len := 3;
     columns := [ ("Session_ID", ints [1; 1; 2]%Z);
                  ("Day", ints [1; 1; 2]%Z) ] |}.

(** A float column holding [nan] only. *)
Definition nan_df : DataFrame :=
  {| index_len := 2;
     columns := [ ("Price", floats [Some NaN; Some NaN]) ] |}.

(** The column [Day] with a missing entry in the second row. *)
Definition null_df : DataFrame :=
  {| index_len := 3;
     columns := [ ("Session_ID", ints [1; 2; 3]%Z);
                  ("Day", mkSeries Int64 (Nums [int_ 1; None; int_ 3])) ] |}.

(** A float column with an infinite entry, a [nan] and a missing
    entry. *)
Definition inf_df : DataFrame :=
  {| index_len := 4;
     columns := [ ("Price", floats [Some PInf; Some NaN; None;
                                    Some (Fin 10)]) ] |}.

(** A device column with a value the allow-list does not have. *)
Definition device_df : DataFrame :=
  {| index_len := 2;
     columns := [ ("device", strings [Some "Mobile"; Some "Phone"]) ] |}.

Definition device_spec : ColSpec :=
  {| dtype := Some "category"; allow_null := None; range := None;
     ge := None; gt := None;
     allowed := Some (StrList ["Mobile"; "Desktop"; "Tablet"]) |}.

(** What [validate_all] returns on [clean_df] under the contract that
    declares [Age] a string. *)
Definition age_as_string_results : AllResults :=
  {| primary_keys :=
       {| passed := true;
          issues := [SessionUnique; SessionUniqueWithinDay] |};
     columns_results :=
       [("Age", {| passed := false;
                   issues := [DtypeMismatch "Age" "string" "int64"] |})];
     nulls :=
       {| nulls_passed := true;
          nulls_issues := [];
          null_stats :=
            [("Age", {| count := 0;
                        percentage := Fin (0 # 3);
                        stat_allow_null := false |})] |};
     finite_numbers := {| passed := true; issues := [AllFinite] |} |}.

End Examples.

(** ** Facts about values and dictionaries *)

Section ValueFacts.

Lemma Qeq_bool_sym (x y : Q) : Qeq_bool x y = Qeq_bool y x.
Proof.
  destruct (Qeq_bool x y) eqn:E, (Qeq_bool y x) eqn:F; trivial.
  - apply Qeq_bool_iff in E. symmetry in E. apply Qeq_bool_iff in E.
    congruence.
  - apply Qeq_bool_iff in F. symmetry in F. apply Qeq_bool_iff in F.
    congruence.
Qed.

Lemma num_eqb_sym (a b : num) : num_eqb a b = num_eqb b a.
Proof. destruct a, b; simpl; auto using Qeq_bool_sym. Qed.

Lemma num_eqb_trans (a b c : num) :
  num_eqb a b = true -> num_eqb b c = true -> num_eqb a c = true.
Proof.
  destruct a, b, c; simpl; try discriminate; auto.
  intros H1 H2. apply Qeq_bool_iff in H1, H2. apply Qeq_bool_iff.
  now rewrite H1.
Qed.

Lemma num_eqb_refl (a : num) : a <> NaN -> num_eqb a a = true.
Proof.
  destruct a; simpl; auto; try congruence.
  intros _. apply Qeq_bool_iff. reflexivity.
Qed.

Lemma value_eqb_sym (a b : value) : value_eqb a b = value_eqb b a.
Proof.
  destruct a, b; simpl; auto using num_eqb_sym, String.eqb_sym.
Qed.

Lemma value_eqb_trans (a b c : value) :
  value_eqb a b = true -> value_eqb b c = true -> value_eqb a c = true.
Proof.
  destruct a, b, c; simpl; try discriminate; eauto using num_eqb_trans.
  intros H1 H2. apply String.eqb_eq in H1, H2. subst. apply String.eqb_refl.
Qed.

Lemma value_eqb_refl (a : value) : a <> VNum NaN -> value_eqb a a = true.
Proof.
  destruct a; simpl; intros H.
  - apply num_eqb_refl. congruence.
  - apply String.eqb_refl.
Qed.

(** Equal values are in the same lists. *)
Lemma mem_eqb (a b : value) (xs : list value) :
  value_eqb a b = true -> mem a xs = mem b xs.
Proof.
  intros E. unfold mem. induction xs as [|x xs IH]; simpl; trivial.
  rewrite IH. f_equal.
  destruct (value_eqb a x) eqn:A, (value_eqb b x) eqn:B; trivial.
  - rewrite value_eqb_sym in E.
    rewrite (value_eqb_trans _ _ _ E A) in B. discriminate.
  - rewrite (value_eqb_trans _ _ _ E B) in A. discriminate.
Qed.

Lemma mem_filter (p : value -> bool) (a : value) (xs : list value) :
  (forall x, value_eqb a x = true -> p x = p a) ->
  mem a (filter p xs) = mem a xs && p a.
Proof.
  intros Hp. unfold mem. induction xs as [|x xs IH]; simpl; trivial.
  destruct (p x) eqn:Px; simpl; rewrite IH.
  - destruct (value_eqb a x) eqn:A; simpl; trivial.
    rewrite <- (Hp _ A), Px. trivial.
  - destruct (value_eqb a x) eqn:A; simpl; trivial.
    rewrite <- (Hp _ A), Px. now rewrite andb_false_r.
Qed.

Lemma mem_set_of (a : value) (xs : list value) :
  mem a (set_of xs) = mem a xs.
Proof.
  induction xs as [|x xs IH]; simpl; trivial.
  change (value_eqb a x || mem a (filter (fun y => negb (value_eqb y x))
                                        (set_of xs))
          = value_eqb a x || mem a xs).
  destruct (value_eqb a x) eqn:A; simpl; trivial.
  rewrite mem_filter.
  - rewrite IH, A. apply andb_true_r.
  - intros y E. f_equal.
    destruct (value_eqb y x) eqn:Y.
    + rewrite (value_eqb_trans _ _ _ E Y) in A. discriminate.
    + now rewrite A.
Qed.

Lemma mem_set_diff (a : value) (xs ys : list value) :
  mem a (set_diff xs ys) = mem a xs && negb (mem a ys).
Proof.
  unfold set_diff. apply mem_filter.
  intros x E. f_equal. symmetry. now apply mem_eqb.
Qed.

Lemma mem_insert_sorted (a x : value) (xs : list value) :
  mem a (insert_sorted x xs) = value_eqb a x || mem a xs.
Proof.
  unfold mem. induction xs as [|y ys IH]; simpl; trivial.
  destruct (value_leb x y); simpl; trivial.
  rewrite IH. now rewrite !orb_assoc, (orb_comm (value_eqb a y)).
Qed.

Lemma mem_sorted (a : value) (xs : list value) :
  mem a (sorted xs) = mem a xs.
Proof.
  unfold sorted. induction xs as [|x xs IH]; simpl; trivial.
  rewrite mem_insert_sorted, IH. reflexivity.
Qed.

End ValueFacts.

Section DictFacts.

Context {A : Type}.

Lemma assoc_dict_set_same (d : list (string * A)) (k : string) (v : A) :
  assoc k (dict_set d k v) = Some v.
Proof.
  induction d as [|[k' v'] d IH]; simpl.
  - now rewrite String.eqb_refl.
  - destruct (String.eqb k k') eqn:E; simpl.
    + now rewrite String.eqb_refl.
    + now rewrite E.
Qed.

Lemma assoc_dict_set_other (d : list (string * A)) (k k0 : string) (v : A) :
  k0 <> k -> assoc k0 (dict_set d k v) = assoc k0 d.
Proof.
  intros N. induction d as [|[k' v'] d IH]; simpl.
  - apply String.eqb_neq in N. now rewrite N.
  - destruct (String.eqb k k') eqn:E; simpl.
    + apply String.eqb_eq in E. subst k'.
      apply String.eqb_neq in N. now rewrite N.
    + now rewrite IH.
Qed.

Lemma assoc_none_not_in (d : list (string * A)) (k : string) :
  assoc k d = None <-> ~ In k (map fst d).
Proof.
  induction d as [|[k' v'] d IH]; simpl.
  - tauto.
  - destruct (String.eqb_spec k k') as [->|N].
    + split; [discriminate | tauto].
    + rewrite IH. split; intros H; [intros [E|I]|]; try tauto.
      congruence.
Qed.

Lemma assoc_in (d : list (string * A)) (k : string) (v : A) :
  NoDup (map fst d) -> In (k, v) d -> assoc k d = Some v.
Proof.
  induction d as [|[k' v'] d IH]; simpl; intros ND I; [tauto|].
  inversion ND as [|? ? Hnotin ND']; subst.
  destruct I as [E|I].
  - inversion E; subst. now rewrite String.eqb_refl.
  - destruct (String.eqb_spec k k') as [->|N]; [|auto].
    exfalso. apply Hnotin. change k' with (fst (k', v)). now apply in_map.
Qed.

End DictFacts.

(** ** Facts about the order on numbers *)

Section NumFacts.

Lemma Qlt_bool_false (x y : Q) : Qlt_bool x y = false <-> (y <= x)%Q.
Proof.
  unfold Qlt_bool. rewrite negb_false_iff. apply Qle_bool_iff.
Qed.

(** A value equal to the bound is not below it. *)
Lemma num_eqb_not_ltb (v b : num) :
  num_eqb v b = true -> num_ltb v b = false.
Proof.
  destruct v, b; simpl; try discriminate; trivial.
  intros E. apply Qeq_bool_iff in E. apply Qlt_bool_false. lra.
Qed.

Lemma num_eqb_not_gtb (v b : num) :
  num_eqb v b = true -> num_gtb v b = false.
Proof.
  intros E. unfold num_gtb. apply num_eqb_not_ltb.
  now rewrite num_eqb_sym.
Qed.

Lemma num_eqb_leb (v b : num) :
  num_eqb v b = true -> num_leb v b = true.
Proof.
  destruct v, b; simpl; try discriminate; trivial.
  intros E. apply Qeq_bool_iff in E. apply Qle_bool_iff. lra.
Qed.

(** With [lo <= hi], the lower bound is not above the upper one. *)
Lemma lower_bound_not_gtb (v lo hi : num) :
  num_leb lo hi = true -> num_eqb v lo = true -> num_gtb v hi = false.
Proof.
  unfold num_gtb.
  destruct v, lo, hi; simpl; try discriminate; trivial.
  intros L E. apply Qle_bool_iff in L. apply Qeq_bool_iff in E.
  apply Qlt_bool_false. lra.
Qed.

Lemma upper_bound_not_ltb (v lo hi : num) :
  num_leb lo hi = true -> num_eqb v hi = true -> num_ltb v lo = false.
Proof.
  destruct v, lo, hi; simpl; try discriminate; trivial.
  intros L E. apply Qle_bool_iff in L. apply Qeq_bool_iff in E.
  apply Qlt_bool_false. lra.
Qed.

Lemma count_if_app {A : Type} (p : A -> bool) (xs ys : list A) :
  count_if p (xs ++ ys) = count_if p xs + count_if p ys.
Proof.
  unfold count_if. now rewrite filter_app, length_app.
Qed.

Lemma count_if_cons {A : Type} (p : A -> bool) (x : A) (xs : list A) :
  count_if p (x :: xs) = (if p x then 1 else 0) + count_if p xs.
Proof. unfold count_if. simpl. now destruct (p x). Qed.

Lemma count_if_ext {A : Type} (p q : A -> bool) (xs : list A) :
  (forall x, In x xs -> p x = q x) -> count_if p xs = count_if q xs.
Proof.
  unfold count_if. induction xs as [|x xs IH]; simpl; intros H; trivial.
  rewrite (H x) by auto. destruct (q x); simpl; rewrite IH; auto.
Qed.

Lemma count_if_pos {A : Type} (p : A -> bool) (xs : list A) :
  0 < count_if p xs <-> exists x, In x xs /\ p x = true.
Proof.
  unfold count_if. induction xs as [|x xs IH]; simpl.
  - split; [lia | intros [? [[] _]]].
  - destruct (p x) eqn:P; simpl.
    + split; [eauto | lia].
    + rewrite IH. split; intros [y [I Py]]; eauto.
      destruct I as [->|I]; [congruence | eauto].
Qed.

Lemma count_if_zero {A : Type} (p : A -> bool) (xs : list A) :
  (0 <? count_if p xs) = false <-> forall x, In x xs -> p x = false.
Proof.
  rewrite Nat.ltb_ge. split.
  - intros H x I. destruct (p x) eqn:P; trivial.
    assert (0 < count_if p xs) by (apply count_if_pos; eauto). lia.
  - intros H. destruct (count_if p xs) eqn:C; [lia|].
    assert (0 < count_if p xs) as L by lia.
    apply count_if_pos in L. destruct L as [x [I P]].
    rewrite (H x I) in P. discriminate.
Qed.

End NumFacts.

(** ** The state of a run *)

Section MonadFacts.

(** A computation is framed when it only appends to [self.violations]
    and neither its result nor what it appends depends on what the list
    held before. *)
Definition framed {A : Type} (m : M A) : Prop :=
  forall vs, m vs = (fst (m []), vs ++ snd (m [])).

Lemma framed_ret {A : Type} (a : A) : framed (ret a).
Proof. intros vs. unfold ret. simpl. now rewrite app_nil_r. Qed.

Lemma framed_raise {A : Type} (e : exn) : framed (@raise A e).
Proof. intros vs. unfold raise. simpl. now rewrite app_nil_r. Qed.

Lemma framed_append (v : violation) : framed (append_violation v).
Proof. intros vs. reflexivity. Qed.

Lemma framed_bind {A B : Type} (m : M A) (k : A -> M B) :
  framed m -> (forall a, framed (k a)) -> framed (bind m k).
Proof.
  intros Hm Hk vs. unfold bind. rewrite (Hm vs).
  destruct (m []) as [[e|a] d]; simpl.
  - reflexivity.
  - rewrite (Hk a (vs ++ d)), (Hk a d). simpl. now rewrite app_assoc.
Qed.

Lemma framed_getitem (df : DataFrame) (col : string) : framed (getitem df col).
Proof.
  unfold getitem. destruct (df_get df col); auto using framed_ret, framed_raise.
Qed.

End MonadFacts.

Create HintDb framed.

#[local] Hint Resolve framed_ret framed_raise framed_append framed_getitem
  : framed.

(** Splits a computation along its binds and case distinctions. *)
Ltac framed_step :=
  match goal with
  | |- framed (bind _ _) => apply framed_bind; [|intro]
  | |- framed (if ?b then _ else _) => destruct b
  | |- framed (match ?x with _ => _ end) => destruct x
  | |- framed _ => solve [auto with framed]
  end.

(** ** Properties of the checks *)

Lemma dtype_mapping_unrecognized (expected : string) :
  ~ In expected ["int"; "float"; "string"; "category"; "bool"] ->
  assoc expected dtype_mapping = None.
Proof.
  intros H. unfold dtype_mapping. simpl in *.
  repeat match goal with
         | |- context [String.eqb expected ?k] =>
             destruct (String.eqb_spec expected k);
             [subst; exfalso; apply H; auto 10|]
         end.
  reflexivity.
Qed.

(** C10.  On a column the dataset has, an expected dtype tag other than
    int, float, string, category and bool makes [validate_dtype] return
    [passed = True] with no issue: the tag is accepted without any
    comparison with the column's dtype. *)
Theorem validate_dtype_unrecognized_tag
        (df : DataFrame) (column expected : string) (s : Series) :
  df_get df column = Some s ->
  ~ In expected ["int"; "float"; "string"; "category"; "bool"] ->
  validate_dtype df column expected = {| passed := true; issues := [] |}.
Proof.
  intros Hcol Htag. unfold validate_dtype. rewrite Hcol.
  now rewrite (dtype_mapping_unrecognized _ Htag).
Qed.

Lemma validate_dtype_unrecognized_tag_witness :
  validate_dtype Examples.clean_df "Age" "integer"
  = {| passed := true; issues := [] |}.
Proof.
  apply (validate_dtype_unrecognized_tag
           Examples.clean_df "Age" "integer" (Examples.ints [20; 30; 40]%Z)).
  - reflexivity.
  - simpl. intros H.
    repeat (destruct H as [H|H]; [discriminate H|]). exact H.
Defined.

(** *** Every method only appends to [self.violations] *)

Ltac framed_auto := cbv zeta; repeat (framed_step; cbv zeta).

Lemma framed_validate_primary_keys (df : DataFrame) :
  framed (validate_primary_keys df).
Proof. unfold validate_primary_keys. framed_auto. Qed.

Lemma framed_ordered_values (s : Series) : framed (ordered_values s).
Proof. unfold ordered_values. framed_auto. Qed.

#[local] Hint Resolve framed_ordered_values : framed.

Lemma framed_validate_numeric_range (df : DataFrame) (column : string)
      (spec : ColSpec) :
  framed (validate_numeric_range df column spec).
Proof.
  unfold validate_numeric_range, check_range, check_ge, check_gt.
  framed_auto.
Qed.

Lemma framed_validate_categorical (df : DataFrame) (column : string)
      (spec : ColSpec) :
  framed (validate_categorical df column spec).
Proof. unfold validate_categorical. framed_auto. Qed.

Lemma framed_validate_nulls_loop (df : DataFrame) (items : Contract) :
  forall results, framed (validate_nulls_loop df items results).
Proof.
  induction items as [|[col_name col_spec] rest IH]; intros results; simpl.
  - auto with framed.
  - destruct (df_get df col_name); [|apply IH].
    apply framed_bind; [framed_auto | intro; apply IH].
Qed.

Lemma framed_validate_finite_loop (df : DataFrame) (cols : list string) :
  forall results, framed (validate_finite_loop df cols results).
Proof.
  induction cols as [|col rest IH]; intros results; simpl.
  - auto with framed.
  - apply framed_bind; [auto with framed | intro].
    apply framed_bind; [framed_auto | intro; apply IH].
Qed.

Lemma framed_validate_column (df : DataFrame) (col_name : string)
      (col_spec : ColSpec) :
  framed (validate_column df col_name col_spec).
Proof.
  unfold validate_column, getitem_dtype.
  pose proof (framed_validate_numeric_range df col_name col_spec).
  pose proof (framed_validate_categorical df col_name col_spec).
  framed_auto.
Qed.

Lemma framed_validate_columns (df : DataFrame) (items : Contract) :
  forall cols, framed (validate_columns df items cols).
Proof.
  induction items as [|[col_name col_spec] rest IH]; intros cols; simpl.
  - auto with framed.
  - destruct (negb (has_column df col_name)); [apply IH|].
    apply framed_bind; [apply framed_validate_column | intro; apply IH].
Qed.

Lemma framed_validate_all (c : Contract) (df : DataFrame) :
  framed (validate_all c df).
Proof.
  unfold validate_all, validate_nulls, validate_finite_numbers.
  pose proof (framed_validate_primary_keys df).
  pose proof (framed_validate_nulls_loop df c).
  pose proof (framed_validate_finite_loop df (numeric_columns df)).
  pose proof (framed_validate_columns df c).
  framed_auto.
Qed.

(** C4 (as stated, refuted).  On the dataset with a duplicated session
    the second of two runs of one validator does not give the report of
    the first: [self.violations] still holds the records of the first
    run. *)
Lemma second_run_report_differs :
  let first := run (init []) Examples.duplicate_df in
  let second := run (snd first) Examples.duplicate_df in
  fst (report first) = fst (report second) /\
  List.length (snd (report first)) = 2 /\
  List.length (snd (report second)) = 4 /\
  report first <> report second.
Proof.
  vm_compute. repeat split. intros H. discriminate H.
Qed.

(** C4 (amended).  A second run of [validate_all] on the same validator
    returns what the first returned (or raises what it raised), the same
    as a run on a validator built anew, and appends the same violation
    records in the same order; the records of the second run come after
    those the validator already held, so after it the validator holds
    every record of a run twice.  The two reports (results and records
    held) are therefore identical exactly when a run appends no record at
    all. *)
Theorem validate_all_twice (self : Validator) (df : DataFrame) :
  let first := run self df in
  let second := run (snd first) df in
  let fresh := run (init (contract self)) df in
  let appended := self_violations (snd fresh) in
  fst second = fst first /\
  fst first = fst fresh /\
  self_violations (snd first) = self_violations self ++ appended /\
  self_violations (snd second)
  = self_violations self ++ appended ++ appended /\
  (report second = report first <-> appended = []).
Proof.
  destruct self as [c vs]. unfold report, run, init. simpl.
  pose proof (framed_validate_all c df) as F.
  rewrite (F vs). simpl. rewrite (F (vs ++ _)).
  destruct (validate_all c df []) as [r d]. simpl.
  rewrite app_assoc. repeat split.
  - intros H. inversion H as [L]. apply (f_equal (@List.length _)) in L.
    rewrite !length_app in L. destruct d; [reflexivity|simpl in L; lia].
  - intros ->. now rewrite !app_nil_r.
Qed.

(** *** The loop over the contract's columns *)

Definition missing_result (col_name : string) : Result :=
  {| passed := false; issues := [Missing col_name] |}.

(** What the loop of [validate_all] leaves in [all_results['columns']]:
    for a column the dataset lacks the missing-column result, for a column
    it has what the loop body returned, and nothing else is touched. *)
Lemma validate_columns_lookup (df : DataFrame) (items : Contract) :
  forall cols vs r vs',
    NoDup (map fst items) ->
    validate_columns df items cols vs = (inr r, vs') ->
    (forall k, ~ In k (map fst items) -> assoc k r = assoc k cols) /\
    (forall col spec, In (col, spec) items ->
       if has_column df col
       then exists cr vs1 vs2,
              assoc col r = Some cr /\
              validate_column df col spec vs1 = (inr cr, vs2)
       else assoc col r = Some (missing_result col)).
Proof.
  induction items as [|[c sp] rest IH]; intros cols vs r vs' ND Hrun.
  - simpl in Hrun. inversion Hrun; subst. split; [trivial | intros ? ? []].
  - simpl in ND. inversion ND as [|? ? Hnotin ND']; subst.
    simpl in Hrun. destruct (has_column df c) eqn:Hc; simpl in Hrun.
    + unfold bind in Hrun at 1.
      destruct (validate_column df c sp vs) as [[e|cr] vs1] eqn:Hcol;
        [discriminate|].
      destruct (IH _ _ _ _ ND' Hrun) as [Hother Hin]. split.
      * intros k Hk. simpl in Hk. rewrite Hother by tauto.
        apply assoc_dict_set_other. intros ->. tauto.
      * intros col spec [E|I].
        -- inversion E; subst. rewrite Hc.
           exists cr, vs, vs1. split; [|exact Hcol].
           rewrite Hother by exact Hnotin. apply assoc_dict_set_same.
        -- now apply Hin.
    + destruct (IH _ _ _ _ ND' Hrun) as [Hother Hin]. split.
      * intros k Hk. simpl in Hk. rewrite Hother by tauto.
        apply assoc_dict_set_other. intros ->. tauto.
      * intros col spec [E|I].
        -- inversion E; subst. rewrite Hc.
           rewrite Hother by exact Hnotin. apply assoc_dict_set_same.
        -- now apply Hin.
Qed.

(** The columns part of a run that returned. *)
Lemma validate_all_columns (c : Contract) (df : DataFrame) vs r vs' :
  validate_all c df vs = (inr r, vs') ->
  exists vs1, validate_columns df c [] vs1 = (inr (columns_results r), vs').
Proof.
  unfold validate_all, bind. intros H.
  destruct (validate_primary_keys df vs) as [[?|pk] v1]; [discriminate|].
  destruct (validate_nulls c df v1) as [[?|nl] v2]; [discriminate|].
  destruct (validate_finite_numbers df v2) as [[?|fin] v3]; [discriminate|].
  destruct (validate_columns df c [] v3) as [[?|cols] v4] eqn:E;
    [discriminate|].
  unfold ret in H. inversion H; subst. simpl. eauto.
Qed.

Lemma merge_passed (a b : Result) :
  passed (merge a b) = passed a && passed b.
Proof.
  unfold merge. destruct (passed b); simpl; now rewrite ?andb_true_r, ?andb_false_r.
Qed.

Lemma merge_issues (a b : Result) :
  issues (merge a b) = issues a ++ issues b.
Proof. unfold merge. now destruct (passed b). Qed.

(** A failed dtype check fails the column, whatever the later checks
    say. *)
Lemma validate_column_dtype_failed (df : DataFrame) (col : string)
      (spec : ColSpec) (expected : string) vs cr vs' :
  dtype spec = Some expected ->
  passed (validate_dtype df col expected) = false ->
  validate_column df col spec vs = (inr cr, vs') ->
  passed cr = false /\
  forall i, In i (issues (validate_dtype df col expected)) -> In i (issues cr).
Proof.
  intros Hd Hp. unfold validate_column, getitem_dtype. rewrite Hd.
  unfold bind, ret.
  set (r0 := merge new_result (validate_dtype df col expected)).
  assert (passed r0 = false) as P0.
  { subst r0. now rewrite merge_passed, Hp. }
  assert (forall i, In i (issues (validate_dtype df col expected)) ->
                    In i (issues r0)) as I0.
  { subst r0. intros i Hi. now rewrite merge_issues. }
  clearbody r0. intros H.
  destruct (str_in expected ["int"; "float"]);
    [destruct (validate_numeric_range df col spec vs) as [[?|rr] v1];
     [discriminate|] |];
    (destruct (allowed spec);
     [match type of H with
      | context [validate_categorical ?a ?b ?c ?d] =>
          destruct (validate_categorical a b c d) as [[?|a0] v2]
      end; [discriminate|] |]);
    inversion H; subst; rewrite ?merge_passed, ?P0;
    (split; [reflexivity|]);
    intros i Hi; rewrite ?merge_issues, ?in_app_iff; auto.
Qed.

(** C1 (as stated, refuted).  The integer column [Age] under a contract
    that declares it a string: only the dtype check runs, its only issue
    is the mismatch, and the column's result is [passed = False]. *)
Lemma dtype_mismatch_not_advisory :
  exists r,
    validate_all [("Age", Examples.of_dtype "string")] Examples.clean_df []
    = (inr r, []) /\
    assoc "Age" (columns_results r)
    = Some {| passed := false;
              issues := [DtypeMismatch "Age" "string" "int64"] |}.
Proof. eexists. split; vm_compute; reflexivity. Qed.

(** C1 (amended).  When the dtype of a column the dataset has is not
    among those the expected tag maps to, [validate_dtype] returns
    [passed = False] with the mismatch as its one issue, and in a run of
    [validate_all] that returns, the column's result holds that issue and
    has [passed = False]. *)
Theorem dtype_mismatch_fails_column
        (c : Contract) (df : DataFrame) (col : string) (spec : ColSpec)
        (expected : string) (allowed_dtypes : list string) (s : Series)
        (vs vs' : list violation) (r : AllResults) :
  NoDup (map fst c) ->
  In (col, spec) c ->
  dtype spec = Some expected ->
  df_get df col = Some s ->
  assoc expected dtype_mapping = Some allowed_dtypes ->
  str_in (dtype_str (dtype_of s)) allowed_dtypes = false ->
  validate_all c df vs = (inr r, vs') ->
  validate_dtype df col expected
  = {| passed := false;
       issues := [DtypeMismatch col expected (dtype_str (dtype_of s))] |} /\
  exists cr,
    assoc col (columns_results r) = Some cr /\
    passed cr = false /\
    In (DtypeMismatch col expected (dtype_str (dtype_of s))) (issues cr).
Proof.
  intros ND Hin Hd Hs Hmap Hmis Hrun.
  assert (validate_dtype df col expected
          = {| passed := false;
               issues := [DtypeMismatch col expected
                                        (dtype_str (dtype_of s))] |}) as V.
  { unfold validate_dtype. now rewrite Hs, Hmap, Hmis. }
  split; [exact V|].
  destruct (validate_all_columns _ _ _ _ _ Hrun) as [v1 Hcols].
  destruct (validate_columns_lookup _ _ _ _ _ _ ND Hcols) as [_ Hlook].
  specialize (Hlook col spec Hin). unfold has_column in Hlook.
  rewrite Hs in Hlook. destruct Hlook as [cr [a [b [Hcr Hcol]]]].
  exists cr. split; [exact Hcr|].
  assert (passed (validate_dtype df col expected) = false) as Hp
      by now rewrite V.
  destruct (validate_column_dtype_failed df col spec expected a cr b
              Hd Hp Hcol) as [P I].
  split; [exact P|]. apply I. rewrite V. simpl. auto.
Qed.

Lemma dtype_mismatch_fails_column_witness :
  validate_dtype Examples.clean_df "Age" "string"
  = {| passed := false;
       issues := [DtypeMismatch "Age" "string"
                                (dtype_str (dtype_of (Examples.ints [20; 30; 40]%Z)))] |} /\
  exists cr,
    assoc "Age" (columns_results Examples.age_as_string_results) = Some cr /\
    passed cr = false /\
    In (DtypeMismatch "Age" "string"
                      (dtype_str (dtype_of (Examples.ints [20; 30; 40]%Z))))
       (issues cr).
Proof.
  apply (dtype_mismatch_fails_column
           [("Age", Examples.of_dtype "string")] Examples.clean_df
           "Age" (Examples.of_dtype "string") "string"
           ["object"; "string"] (Examples.ints [20; 30; 40]%Z) [] []).
  - repeat constructor. simpl. tauto.
  - simpl. auto.
  - reflexivity.
  - reflexivity.
  - reflexivity.
  - reflexivity.
  - vm_compute. reflexivity.
Defined.

(** *** A contract column the dataset lacks *)

Lemma bind_ext {A B : Type} (m : M A) (k k' : A -> M B) vs :
  (forall a vs1, k a vs1 = k' a vs1) -> bind m k vs = bind m k' vs.
Proof.
  intros H. unfold bind. destruct (m vs) as [[e|a] vs1]; auto.
Qed.

(** [validate_nulls] passes over the column. *)
Lemma validate_nulls_loop_skip (df : DataFrame) (c : string) (spec : ColSpec)
      (pre post : Contract) :
  has_column df c = false ->
  forall results vs,
    validate_nulls_loop df (pre ++ (c, spec) :: post) results vs
    = validate_nulls_loop df (pre ++ post) results vs.
Proof.
  intros Hc. unfold has_column in Hc.
  induction pre as [|[k sp] pre IH]; intros results vs; simpl.
  - destruct (df_get df c); [discriminate | reflexivity].
  - destruct (df_get df k); [|apply IH].
    apply bind_ext. intros a vs1. apply IH.
Qed.

Lemma dict_set_fresh {A : Type} (d : list (string * A)) (k : string) (v : A) :
  ~ In k (map fst d) -> dict_set d k v = d ++ [(k, v)].
Proof.
  induction d as [|[k' v'] d IH]; simpl; intros H; trivial.
  destruct (String.eqb_spec k k') as [->|N]; [tauto|].
  rewrite IH; tauto.
Qed.

Lemma dict_set_keys {A : Type} (d : list (string * A)) (k c : string) (v : A) :
  c <> k -> ~ In c (map fst d) -> ~ In c (map fst (dict_set d k v)).
Proof.
  intros N. induction d as [|[k' v'] d IH]; simpl.
  - intros _ [E|[]]. congruence.
  - destruct (String.eqb_spec k k') as [->|N']; simpl; tauto.
Qed.

(** Setting another key commutes with the presence of the entry. *)
Lemma dict_set_inserted {A : Type} (c k : string) (m v : A)
      (l1 l2 : list (string * A)) :
  k <> c ->
  exists l1' l2',
    dict_set (l1 ++ l2) k v = l1' ++ l2' /\
    dict_set (l1 ++ (c, m) :: l2) k v = l1' ++ (c, m) :: l2'.
Proof.
  intros N. induction l1 as [|[k' v'] l1 IH]; simpl.
  - exists [], (dict_set l2 k v). simpl.
    apply String.eqb_neq in N. now rewrite N.
  - destruct (String.eqb k k').
    + now exists ((k, v) :: l1), l2.
    + destruct IH as [l1' [l2' [E1 E2]]].
      exists ((k', v') :: l1'), l2'. simpl. now rewrite E1, E2.
Qed.

(** The outcome of the loop, as far as a later statement needs it: the
    exception and the violations, or the dictionary split in two. *)
Definition same_but_for (c : string) (m : Result)
           (without with_ : (exn + list (string * Result)) * list violation)
  : Prop :=
  match without with
  | (inl e, vs') => with_ = (inl e, vs')
  | (inr r, vs') =>
      exists r1 r2, r = r1 ++ r2 /\ with_ = (inr (r1 ++ (c, m) :: r2), vs')
  end.

Lemma validate_columns_inserted (df : DataFrame) (c : string) (m : Result)
      (items : Contract) :
  ~ In c (map fst items) ->
  forall l1 l2 vs,
    same_but_for c m (validate_columns df items (l1 ++ l2) vs)
                     (validate_columns df items (l1 ++ (c, m) :: l2) vs).
Proof.
  induction items as [|[k sp] items IH]; intros Hc l1 l2 vs; simpl.
  - unfold ret. simpl. eauto.
  - simpl in Hc.
    assert (k <> c) as N by tauto.
    assert (~ In c (map fst items)) as Hc' by tauto.
    destruct (negb (has_column df k)).
    + destruct (dict_set_inserted c k m (missing_result k) l1 l2 N)
        as [l1' [l2' [E1 E2]]].
      fold (missing_result k). rewrite E1, E2. now apply IH.
    + unfold bind.
      destruct (validate_column df k sp vs) as [[e|cr] vs1]; simpl; trivial.
      destruct (dict_set_inserted c k m cr l1 l2 N) as [l1' [l2' [E1 E2]]].
      rewrite E1, E2. now apply IH.
Qed.

Lemma validate_columns_skip (df : DataFrame) (c : string) (spec : ColSpec)
      (post : Contract) :
  has_column df c = false ->
  forall pre cols vs,
    ~ In c (map fst (pre ++ post)) ->
    ~ In c (map fst cols) ->
    same_but_for c (missing_result c)
      (validate_columns df (pre ++ post) cols vs)
      (validate_columns df (pre ++ (c, spec) :: post) cols vs).
Proof.
  intros Hc. induction pre as [|[k sp] pre IH]; intros cols vs Hk Hcols.
  - simpl. rewrite Hc. simpl. fold (missing_result c).
    rewrite (dict_set_fresh _ _ _ Hcols).
    rewrite <- (app_nil_r cols) at 1.
    now apply validate_columns_inserted.
  - simpl in *.
    assert (c <> k) as N by (intros ->; tauto).
    assert (~ In c (map fst (pre ++ post))) as Hk' by tauto.
    destruct (negb (has_column df k)).
    + apply IH; trivial. now apply dict_set_keys.
    + unfold bind.
      destruct (validate_column df k sp vs) as [[e|cr] vs1]; simpl; trivial.
      apply IH; trivial. now apply dict_set_keys.
Qed.

(** The loop adds no key the contract does not have. *)
Lemma validate_columns_other (df : DataFrame) (items : Contract) :
  forall cols vs r vs' k,
    validate_columns df items cols vs = (inr r, vs') ->
    ~ In k (map fst items) -> assoc k r = assoc k cols.
Proof.
  induction items as [|[c sp] rest IH]; intros cols vs r vs' k Hrun Hk.
  - simpl in Hrun. now inversion Hrun.
  - simpl in Hrun, Hk.
    assert (k <> c) as N by (intros ->; tauto).
    destruct (negb (has_column df c)).
    + rewrite (IH _ _ _ _ _ Hrun) by tauto.
      now apply assoc_dict_set_other.
    + unfold bind in Hrun at 1.
      destruct (validate_column df c sp vs) as [[e|cr] vs1]; [discriminate|].
      rewrite (IH _ _ _ _ _ Hrun) by tauto.
      now apply assoc_dict_set_other.
Qed.

(** A run on a contract with the column, against the run without it. *)
Lemma validate_all_skip_absent (df : DataFrame) (pre post : Contract)
      (c : string) (spec : ColSpec) (vs : list violation) :
  has_column df c = false ->
  ~ In c (map fst (pre ++ post)) ->
  match validate_all (pre ++ post) df vs with
  | (inl e, vs') =>
      validate_all (pre ++ (c, spec) :: post) df vs = (inl e, vs')
  | (inr r, vs') =>
      exists before after,
        columns_results r = before ++ after /\
        ~ In c (map fst (columns_results r)) /\
        validate_all (pre ++ (c, spec) :: post) df vs
        = (inr {| primary_keys := primary_keys r;
                  columns_results := before ++ (c, missing_result c) :: after;
                  nulls := nulls r;
                  finite_numbers := finite_numbers r |}, vs')
  end.
Proof.
  intros Hc Hk. unfold validate_all, validate_nulls, bind.
  destruct (validate_primary_keys df vs) as [[e|pk] v1]; trivial.
  rewrite (validate_nulls_loop_skip df c spec pre post Hc).
  destruct (validate_nulls_loop df (pre ++ post) _ v1) as [[e|nl] v2]; trivial.
  destruct (validate_finite_numbers df v2) as [[e|fin] v3]; trivial.
  pose proof (validate_columns_skip df c spec post Hc pre [] v3 Hk
                                    (fun H : In c [] => H)) as S.
  unfold same_but_for in S.
  destruct (validate_columns df (pre ++ post) [] v3) as [[e|cols] v4] eqn:E.
  - now rewrite S.
  - destruct S as [r1 [r2 [-> S]]]. rewrite S. unfold ret. simpl.
    exists r1, r2. repeat split.
    apply assoc_none_not_in.
    now rewrite (validate_columns_other _ _ _ _ _ _ c E Hk).
Qed.

(** *** The null check, column by column *)

(** The percentage [validate_nulls] computes for a column. *)
Definition null_pct (df : DataFrame) (s : Series) : num :=
  scale (true_divide (isna_sum s) (index_len df)) 100.

Definition null_stat_of (df : DataFrame) (spec : ColSpec) (s : Series)
  : NullStat :=
  {| count := isna_sum s;
     percentage := null_pct df s;
     stat_allow_null := get_allow_null spec |}.

Definition null_violation (df : DataFrame) (col : string) (s : Series)
  : violation :=
  {| check := "null_constraint";
     column := col;
     violations := isna_sum s;
     extra_keys := PercentageExtra (null_pct df s) |}.

(** The condition under which the loop body fails a column. *)
Definition nulls_refused (spec : ColSpec) (s : Series) : bool :=
  negb (get_allow_null spec) && (0 <? isna_sum s).

(** What one pass of the loop body appends and sets, as functions of the
    contract entry. *)
Definition null_violations_of (df : DataFrame) (item : string * ColSpec)
  : list violation :=
  match df_get df (fst item) with
  | Some s => if nulls_refused (snd item) s
              then [null_violation df (fst item) s] else []
  | None => []
  end.

Definition null_issues_of (df : DataFrame) (item : string * ColSpec)
  : list issue :=
  match df_get df (fst item) with
  | Some s => if nulls_refused (snd item) s
              then [NullsNotAllowed (fst item) (isna_sum s) (null_pct df s)]
              else []
  | None => []
  end.

Definition null_ok (df : DataFrame) (item : string * ColSpec) : bool :=
  match df_get df (fst item) with
  | Some s => negb (nulls_refused (snd item) s)
  | None => true
  end.

Definition set_stat (df : DataFrame) (d : list (string * NullStat))
           (item : string * ColSpec) : list (string * NullStat) :=
  match df_get df (fst item) with
  | Some s => dict_set d (fst item) (null_stat_of df (snd item) s)
  | None => d
  end.

Lemma validate_nulls_loop_eq (df : DataFrame) (items : Contract) :
  forall results vs,
    validate_nulls_loop df items results vs
    = (inr {| nulls_passed :=
                nulls_passed results && forallb (null_ok df) items;
              nulls_issues :=
                nulls_issues results ++ flat_map (null_issues_of df) items;
              null_stats := fold_left (set_stat df) items (null_stats results) |},
       vs ++ flat_map (null_violations_of df) items).
Proof.
  induction items as [|[col spec] rest IH]; intros results vs.
  - simpl. unfold ret. rewrite andb_true_r, !app_nil_r. now destruct results.
  - simpl. unfold null_ok at 1, null_issues_of at 1, null_violations_of at 1,
      set_stat at 2. simpl.
    destruct (df_get df col) as [s|]; [|apply IH].
    unfold bind. fold (null_pct df s). fold (nulls_refused spec s).
    destruct (nulls_refused spec s); simpl; rewrite IH; simpl;
      now rewrite <- ?app_assoc, ?andb_false_r.
Qed.

Lemma fold_set_stat_other (df : DataFrame) (items : Contract) :
  forall d k, ~ In k (map fst items) ->
              assoc k (fold_left (set_stat df) items d) = assoc k d.
Proof.
  induction items as [|[col spec] rest IH]; intros d k Hk; simpl; trivial.
  simpl in Hk. rewrite IH by tauto. unfold set_stat. simpl.
  destruct (df_get df col); trivial.
  apply assoc_dict_set_other. intros ->. tauto.
Qed.

Lemma fold_set_stat_lookup (df : DataFrame) (items : Contract) :
  forall d col spec s,
    NoDup (map fst items) -> In (col, spec) items -> df_get df col = Some s ->
    assoc col (fold_left (set_stat df) items d) = Some (null_stat_of df spec s).
Proof.
  induction items as [|[c sp] rest IH]; intros d col spec s ND I Hs;
    simpl in *; [tauto|].
  inversion ND as [|? ? Hnotin ND']; subst. destruct I as [E|I].
  - inversion E; subst. rewrite fold_set_stat_other by exact Hnotin.
    unfold set_stat. simpl. rewrite Hs. apply assoc_dict_set_same.
  - now apply IH.
Qed.

(** C8.  [validate_nulls] returns, and for every contract column the
    dataset has it records the null count and the percentage (the count
    divided by [len(df)], times 100) whether or not the column passes; it
    appends the violation record carrying that percentage, fails and
    reports the column exactly when [allow_null] is false (the default)
    and the count is positive. *)
Theorem null_policy (c : Contract) (df : DataFrame) (vs : list violation) :
  NoDup (map fst c) ->
  exists r new,
    validate_nulls c df vs = (inr r, vs ++ new) /\
    (forall col spec s,
        In (col, spec) c -> df_get df col = Some s ->
        let n := isna_sum s in
        let pct := scale (true_divide n (index_len df)) 100 in
        assoc col (null_stats r)
        = Some {| count := n; percentage := pct;
                  stat_allow_null := get_allow_null spec |} /\
        (index_len df <> 0 ->
         pct = Fin ((Z.of_nat n # Pos.of_nat (index_len df)) * 100)) /\
        (In {| check := "null_constraint"; column := col; violations := n;
               extra_keys := PercentageExtra pct |} new
         <-> get_allow_null spec = false /\ 0 < n) /\
        (In (NullsNotAllowed col n pct) (nulls_issues r)
         <-> get_allow_null spec = false /\ 0 < n)) /\
    (nulls_passed r = false <->
     exists col spec s,
       In (col, spec) c /\ df_get df col = Some s /\
       get_allow_null spec = false /\ 0 < isna_sum s).
Proof.
  intros ND. unfold validate_nulls. rewrite validate_nulls_loop_eq. simpl.
  do 2 eexists. split; [reflexivity|]. simpl.
  assert (forall spec s, nulls_refused spec s = true
                         <-> get_allow_null spec = false /\ 0 < isna_sum s)
    as Href.
  { intros spec s. unfold nulls_refused.
    rewrite andb_true_iff, negb_true_iff, Nat.ltb_lt. tauto. }
  split.
  - intros col spec s Hin Hs.
    assert (forall c' sp' s', In (c', sp') c -> df_get df c' = Some s' ->
                              c' = col -> sp' = spec /\ s' = s) as Hsame.
    { intros c' sp' s' I Hs' ->. rewrite Hs in Hs'. inversion Hs'; subst s'.
      assert (assoc col c = Some spec) as A1 by now apply assoc_in.
      assert (assoc col c = Some sp') as A2 by now apply assoc_in.
      rewrite A1 in A2. now inversion A2. }
    split; [now apply fold_set_stat_lookup|].
    split; [|split].
    + intros Hlen. unfold true_divide.
      destruct (index_len df); [congruence | reflexivity].
    + rewrite <- Href. split.
      * intros H. apply in_flat_map in H. destruct H as [[c' sp'] [I V]].
        unfold null_violations_of in V. simpl in V.
        destruct (df_get df c') as [s'|] eqn:Hs'; [|destruct V].
        destruct (nulls_refused sp' s') eqn:R; [|destruct V].
        destruct V as [V|[]]. inversion V as [[Hc Hn Hp]].
        destruct (Hsame _ _ _ I Hs' Hc) as [-> ->]. exact R.
      * intros H. apply in_flat_map. exists (col, spec). split; trivial.
        unfold null_violations_of. simpl. rewrite Hs, H. now left.
    + rewrite <- Href. split.
      * intros H. apply in_flat_map in H. destruct H as [[c' sp'] [I V]].
        unfold null_issues_of in V. simpl in V.
        destruct (df_get df c') as [s'|] eqn:Hs'; [|destruct V].
        destruct (nulls_refused sp' s') eqn:R; [|destruct V].
        destruct V as [V|[]]. inversion V as [[Hc Hn Hp]].
        destruct (Hsame _ _ _ I Hs' Hc) as [-> ->]. exact R.
      * intros H. apply in_flat_map. exists (col, spec). split; trivial.
        unfold null_issues_of. simpl. rewrite Hs, H. now left.
  - split.
    + intros H. apply not_true_iff_false in H.
      rewrite forallb_forall in H.
      assert (exists item, In item c /\ null_ok df item = false)
        as [[col spec] [I N]].
      { clear -H. induction c as [|x c IH].
        - exfalso. apply H. intros ? [].
        - destruct (null_ok df x) eqn:E; [|exists x; simpl; auto].
          destruct IH as [y [I N]].
          + intros G. apply H. intros z [->|Hz]; auto.
          + exists y. simpl. auto. }
      unfold null_ok in N. simpl in N.
      destruct (df_get df col) as [s|] eqn:Hs; [|discriminate].
      apply negb_false_iff, Href in N. exists col, spec, s. tauto.
    + intros [col [spec [s [I [Hs R]]]]]. apply Href in R.
      apply not_true_iff_false. rewrite forallb_forall. intros G.
      specialize (G _ I). unfold null_ok in G. simpl in G.
      rewrite Hs, R in G. discriminate.
Qed.

Lemma null_policy_witness :
  exists r new,
    validate_nulls [("Day", Examples.of_dtype "int")] Examples.null_df []
    = (inr r, [] ++ new) /\
    nulls_passed r = false.
Proof.
  destruct (null_policy [("Day", Examples.of_dtype "int")] Examples.null_df [])
    as [r [new [E [_ P]]]].
  - repeat constructor. simpl. tauto.
  - exists r, new. split; [exact E|]. apply P.
    exists "Day", (Examples.of_dtype "int"),
      (mkSeries Int64 (Nums [Examples.int_ 1; None; Examples.int_ 3])).
    repeat split; simpl; auto.
Defined.

(** *** The finite-number check, column by column *)

Definition inf_violation (col : string) (s : Series) : violation :=
  {| check := "finite_numbers";
     column := col;
     violations := isinf_sum s;
     extra_keys := NoExtra |}.

Definition inf_violations_of (df : DataFrame) (col : string)
  : list violation :=
  match df_get df col with
  | Some s => if 0 <? isinf_sum s then [inf_violation col s] else []
  | None => []
  end.

Definition inf_issues_of (df : DataFrame) (col : string) : list issue :=
  match df_get df col with
  | Some s => if 0 <? isinf_sum s then [InfValues col (isinf_sum s)] else []
  | None => []
  end.

Definition inf_free (df : DataFrame) (col : string) : bool :=
  match df_get df col with
  | Some s => negb (0 <? isinf_sum s)
  | None => true
  end.

Lemma df_get_in (df : DataFrame) (col : string) :
  In col (map fst (columns df)) -> exists s, df_get df col = Some s.
Proof.
  intros H. unfold df_get.
  destruct (assoc col (columns df)) as [s|] eqn:E; [eauto|].
  apply assoc_none_not_in in E. tauto.
Qed.

Lemma numeric_columns_in (df : DataFrame) (col : string) :
  In col (numeric_columns df) -> In col (map fst (columns df)).
Proof.
  unfold numeric_columns. rewrite !in_map_iff.
  intros [kv [E I]]. apply filter_In in I. exists kv. tauto.
Qed.

(** The check visits every column of a numeric dtype, and, the column
    labels being distinct, no other. *)
Lemma numeric_columns_intro (df : DataFrame) (col : string) (s : Series) :
  df_get df col = Some s -> is_number (dtype_of s) = true ->
  In col (numeric_columns df).
Proof.
  unfold df_get, numeric_columns. induction (columns df) as [|[k v] l IH];
    simpl; [discriminate|].
  destruct (String.eqb_spec col k) as [->|N].
  - intros E D. inversion E; subst v. rewrite D. now left.
  - intros E D. destruct (is_number (dtype_of v)); simpl; auto.
Qed.

Lemma numeric_columns_elim (df : DataFrame) (col : string) :
  NoDup (map fst (columns df)) -> In col (numeric_columns df) ->
  exists s, df_get df col = Some s /\ is_number (dtype_of s) = true.
Proof.
  intros ND H. unfold numeric_columns in H. apply in_map_iff in H.
  destruct H as [[k v] [E I]]. simpl in E. subst k.
  apply filter_In in I. destruct I as [I D]. simpl in D.
  exists v. split; [|exact D]. unfold df_get. now apply assoc_in.
Qed.

Lemma validate_finite_loop_eq (df : DataFrame) (cols : list string) :
  (forall col, In col cols -> In col (map fst (columns df))) ->
  forall results vs,
    validate_finite_loop df cols results vs
    = (inr {| passed := passed results && forallb (inf_free df) cols;
              issues := issues results ++ flat_map (inf_issues_of df) cols |},
       vs ++ flat_map (inf_violations_of df) cols).
Proof.
  induction cols as [|col rest IH]; intros Hcols results vs.
  - simpl. unfold ret. rewrite andb_true_r, !app_nil_r. now destruct results.
  - simpl. unfold inf_free at 1, inf_issues_of at 1, inf_violations_of at 1.
    unfold bind, getitem.
    destruct (df_get_in df col) as [s Hs]; [apply Hcols; now left|].
    rewrite Hs. unfold ret at 1.
    destruct (0 <? isinf_sum s); simpl; rewrite IH by (intros; apply Hcols;
      now right); simpl;
      now rewrite <- ?app_assoc, ?andb_true_r, ?andb_false_r.
Qed.

(** C3 (as stated, refuted).  A float column holding only [nan] is of a
    numeric dtype and holds a value that is not a number, yet the check
    passes and records nothing. *)
Lemma nan_passes_finite_check :
  exists s,
    df_get Examples.nan_df "Price" = Some s /\
    is_number (dtype_of s) = true /\
    In (Some (VNum NaN)) (cells s) /\
    validate_finite_numbers Examples.nan_df []
    = (inr {| passed := true; issues := [AllFinite] |}, []).
Proof.
  eexists. repeat split; try reflexivity. simpl. auto.
Qed.

(** C3 (amended).  [validate_finite_numbers] returns; for every column of
    a numeric dtype it appends the record with the count of the entries
    that are [inf] or [-inf], fails and reports the column, exactly when
    that count is positive.  An entry that is [nan] or missing is never
    counted, and (the column labels being distinct) a column of another
    dtype is not looked at. *)
Theorem finite_check_counts_infinities (df : DataFrame) (vs : list violation) :
  NoDup (map fst (columns df)) ->
  exists r new,
    validate_finite_numbers df vs = (inr r, vs ++ new) /\
    (forall col s,
        df_get df col = Some s -> is_number (dtype_of s) = true ->
        let n := count_if (fun c => match c with
                                    | Some (VNum PInf) | Some (VNum NInf) => true
                                    | _ => false
                                    end) (cells s) in
        (In {| check := "finite_numbers"; column := col; violations := n;
               extra_keys := NoExtra |} new <-> 0 < n) /\
        (In (InfValues col n) (issues r) <-> 0 < n) /\
        (0 < n -> passed r = false) /\
        n + isna_sum s <= List.length (cells s)) /\
    (passed r = false <->
     exists col s, df_get df col = Some s /\ is_number (dtype_of s) = true /\
                   0 < isinf_sum s) /\
    (forall v, In v new ->
               exists s, df_get df (column v) = Some s /\
                         is_number (dtype_of s) = true) /\
    (forall c, isna c = true -> isinf c = false).
Proof.
  intros ND. unfold validate_finite_numbers, bind.
  rewrite validate_finite_loop_eq by apply numeric_columns_in.
  cbv beta iota. rewrite andb_true_l.
  set (cols := numeric_columns df).
  set (r0 := {| passed := forallb (inf_free df) cols;
                issues := flat_map (inf_issues_of df) cols |}).
  assert (exists r, (if forallb (inf_free df) cols
                     then ret (append_issue r0 AllFinite)
                     else ret r0) (vs ++ flat_map (inf_violations_of df) cols)
                    = (inr r, vs ++ flat_map (inf_violations_of df) cols) /\
                    passed r = forallb (inf_free df) cols /\
                    (forall col n, In (InfValues col n) (issues r) <->
                                   In (InfValues col n)
                                      (flat_map (inf_issues_of df) cols)))
    as [r [E [P I]]].
  { subst r0. destruct (forallb (inf_free df) cols) eqn:F.
    - eexists. split; [reflexivity|]. simpl. split; [reflexivity|].
      intros col n. rewrite in_app_iff. simpl. split; [|tauto].
      intros [H|[H|[]]]; [exact H | discriminate H].
    - eexists. split; [reflexivity|]. simpl. split; [reflexivity|].
      tauto. }
  exists r, (flat_map (inf_violations_of df) cols).
  split; [exact E|]. clear E.
  assert (forall col s s', df_get df col = Some s -> df_get df col = Some s' ->
                           s' = s) as Hfun by (intros; congruence).
  split; [|split; [|split]].
  - intros col s Hs D. change (count_if _ (cells s)) with (isinf_sum s).
    assert (In col cols) as Hcol by now apply numeric_columns_intro with s.
    split; [|split; [|split]].
    + split.
      * intros H. apply in_flat_map in H. destruct H as [c' [_ V]].
        unfold inf_violations_of in V.
        destruct (df_get df c') as [s'|] eqn:Hs'; [|destruct V].
        destruct (0 <? isinf_sum s') eqn:L; [|destruct V].
        destruct V as [V|[]]. inversion V as [[Hc Hn]]. subst c'.
        rewrite (Hfun _ _ _ Hs Hs') in *. now apply Nat.ltb_lt.
      * intros H. apply in_flat_map. exists col. split; trivial.
        unfold inf_violations_of. rewrite Hs.
        apply Nat.ltb_lt in H. rewrite H. now left.
    + rewrite I. split.
      * intros H. apply in_flat_map in H. destruct H as [c' [_ V]].
        unfold inf_issues_of in V.
        destruct (df_get df c') as [s'|] eqn:Hs'; [|destruct V].
        destruct (0 <? isinf_sum s') eqn:L; [|destruct V].
        destruct V as [V|[]]. inversion V as [[Hc Hn]]. subst c'.
        rewrite (Hfun _ _ _ Hs Hs') in *. now apply Nat.ltb_lt.
      * intros H. apply in_flat_map. exists col. split; trivial.
        unfold inf_issues_of. rewrite Hs.
        apply Nat.ltb_lt in H. rewrite H. now left.
    + intros H. rewrite P. apply not_true_iff_false. intros F.
      rewrite forallb_forall in F. specialize (F _ Hcol).
      unfold inf_free in F. rewrite Hs in F.
      apply Nat.ltb_lt in H. rewrite H in F. discriminate.
    + unfold isinf_sum, isna_sum. induction (cells s) as [|c l IH]; simpl; [lia|].
      destruct c as [[[]|]|]; simpl; lia.
  - rewrite P. split.
    + intros H.
      assert (exists col, In col cols /\ inf_free df col = false)
        as [col [Hc N]].
      { clear -H. induction cols as [|x l IH]; simpl in H; [discriminate|].
        destruct (inf_free df x) eqn:F; simpl in H.
        - destruct (IH H) as [y [? ?]]. exists y. simpl. auto.
        - exists x. simpl. auto. }
      destruct (numeric_columns_elim df col ND Hc) as [s [Hs D]].
      unfold inf_free in N. rewrite Hs in N.
      apply negb_false_iff, Nat.ltb_lt in N. eauto.
    + intros [col [s [Hs [D L]]]]. apply not_true_iff_false. intros F.
      rewrite forallb_forall in F.
      specialize (F col (numeric_columns_intro df col s Hs D)).
      unfold inf_free in F. rewrite Hs in F.
      apply Nat.ltb_lt in L. rewrite L in F. discriminate.
  - intros v H. apply in_flat_map in H. destruct H as [col [Hc V]].
    destruct (numeric_columns_elim df col ND Hc) as [s [Hs D]].
    unfold inf_violations_of in V. rewrite Hs in V.
    destruct (0 <? isinf_sum s); [|destruct V].
    destruct V as [<-|[]]. simpl. eauto.
  - intros [[[]|]|]; simpl; trivial; discriminate.
Qed.

Lemma finite_check_counts_infinities_witness :
  exists r new,
    validate_finite_numbers Examples.inf_df [] = (inr r, [] ++ new) /\
    passed r = false /\
    In {| check := "finite_numbers"; column := "Price"; violations := 1;
          extra_keys := NoExtra |} new.
Proof.
  destruct (finite_check_counts_infinities Examples.inf_df [])
    as [r [new [E [C _]]]].
  - repeat constructor. simpl. tauto.
  - exists r, new. split; [exact E|].
    destruct (C "Price"
                (Examples.floats [Some PInf; Some NaN; None; Some (Fin 10)])
                eq_refl eq_refl) as [V [_ [P _]]].
    split; [apply P | apply (proj2 V)]; vm_compute; lia.
Defined.

(** *** Columns of the contract that are absent, entries without dtype *)

Lemma assoc_app_absent {A : Type} (c : string) (l1 l2 : list (string * A)) :
  ~ In c (map fst l1) -> assoc c (l1 ++ l2) = assoc c l2.
Proof.
  induction l1 as [|[k v] l1 IH]; simpl; intros H; trivial.
  destruct (String.eqb_spec c k) as [->|N]; [tauto|]. apply IH. tauto.
Qed.




Lemma validate_all_primary_keys (c : Contract) (df : DataFrame) vs r vs' :
  validate_all c df vs = (inr r, vs') ->
  exists v1, validate_primary_keys df vs = (inr (primary_keys r), v1).
Proof.
  unfold validate_all, bind. intros H.
  destruct (validate_primary_keys df vs) as [[?|pk] v1]; [discriminate|].
  destruct (validate_nulls c df v1) as [[?|nl] v2]; [discriminate|].
  destruct (validate_finite_numbers df v2) as [[?|fin] v3]; [discriminate|].
  destruct (validate_columns df c [] v3) as [[?|cols] v4]; [discriminate|].
  unfold ret in H. inversion H; subst. simpl. eauto.
Qed.

(** Neither [validate_nulls] nor [validate_finite_numbers] raises. *)
Lemma validate_nulls_returns (c : Contract) (df : DataFrame) vs :
  exists r vs', validate_nulls c df vs = (inr r, vs').
Proof. unfold validate_nulls. rewrite validate_nulls_loop_eq. eauto. Qed.

Lemma validate_finite_numbers_returns (df : DataFrame) vs :
  exists r vs', validate_finite_numbers df vs = (inr r, vs').
Proof.
  unfold validate_finite_numbers, bind.
  rewrite validate_finite_loop_eq by apply numeric_columns_in.
  cbv beta iota.
  match goal with |- context [if ?b then _ else _] => destruct b end;
    unfold ret; eauto.
Qed.

Lemma validate_column_no_dtype (df : DataFrame) (c : string) (spec : ColSpec)
      (vs : list violation) :
  dtype spec = None ->
  validate_column df c spec vs = (inl (KeyError "dtype"), vs).
Proof.
  intros H. unfold validate_column, getitem_dtype. now rewrite H.
Qed.

(** The loop stops at the entry without dtype, if it gets there. *)
Lemma validate_columns_no_dtype (df : DataFrame) (c : string) (spec : ColSpec)
      (post : Contract) :
  has_column df c = true -> dtype spec = None ->
  forall pre cols vs,
    match validate_columns df pre cols vs with
    | (inl e, vs') =>
        validate_columns df (pre ++ (c, spec) :: post) cols vs = (inl e, vs')
    | (inr _, vs') =>
        validate_columns df (pre ++ (c, spec) :: post) cols vs
        = (inl (KeyError "dtype"), vs')
    end.
Proof.
  intros Hc Hd. induction pre as [|[k sp] pre IH]; intros cols vs; simpl.
  - rewrite Hc. simpl. unfold bind.
    now rewrite validate_column_no_dtype.
  - destruct (negb (has_column df k)); [apply IH|].
    unfold bind. destruct (validate_column df k sp vs) as [[e|cr] vs1];
      [reflexivity | apply IH].
Qed.

(** C2 (as stated, refuted).  [Age] has no dtype in the contract and is in
    the dataset: the run raises [KeyError] and returns no results, neither
    for [Age] nor for [Day], which the contract describes in full. *)
Lemma missing_dtype_raises :
  validate_all [("Age", Examples.empty_spec); ("Day", Examples.of_dtype "int")]
               Examples.clean_df []
  = (inl (KeyError "dtype"), []).
Proof. reflexivity. Qed.

(** C2 (amended).  For a contract entry without dtype: when its column is
    in the dataset the run raises and returns no results, and what it
    raises is [KeyError('dtype')] whenever the run on the entries before it
    returns; when its column is not in the dataset, and the run on the
    other entries returns, the run returns as well and gives the entry the
    failing missing-column result. *)
Theorem missing_dtype_entry
        (df : DataFrame) (pre post : Contract) (c : string) (spec : ColSpec)
        (vs : list violation) :
  dtype spec = None ->
  (has_column df c = true ->
   (exists e vs',
       validate_all (pre ++ (c, spec) :: post) df vs = (inl e, vs')) /\
   (forall r vs1,
       validate_all pre df vs = (inr r, vs1) ->
       exists vs',
         validate_all (pre ++ (c, spec) :: post) df vs
         = (inl (KeyError "dtype"), vs'))) /\
  (has_column df c = false ->
   ~ In c (map fst (pre ++ post)) ->
   forall r vs',
     validate_all (pre ++ post) df vs = (inr r, vs') ->
     exists r',
       validate_all (pre ++ (c, spec) :: post) df vs = (inr r', vs') /\
       assoc c (columns_results r')
       = Some {| passed := false; issues := [Missing c] |}).
Proof.
  intros Hd. split.
  - intros Hc.
    assert (forall v3,
               match validate_columns df pre [] v3 with
               | (inl e, vs') =>
                   validate_columns df (pre ++ (c, spec) :: post) [] v3
                   = (inl e, vs')
               | (inr _, vs') =>
                   validate_columns df (pre ++ (c, spec) :: post) [] v3
                   = (inl (KeyError "dtype"), vs')
               end) as Hloop
        by (intro; now apply validate_columns_no_dtype).
    split.
    + unfold validate_all, bind.
      destruct (validate_primary_keys df vs) as [[e|pk] v1]; [eauto|].
      destruct (validate_nulls _ df v1) as [[e|nl] v2]; [eauto|].
      destruct (validate_finite_numbers df v2) as [[e|fin] v3]; [eauto|].
      specialize (Hloop v3).
      destruct (validate_columns df pre [] v3) as [[e|cols] v4];
        rewrite Hloop; eauto.
    + intros r vs1 Hpre.
      destruct (validate_all_columns _ _ _ _ _ Hpre) as [v0 Hcols].
      destruct (validate_all_primary_keys _ _ _ _ _ Hpre) as [v1 Hpk].
      unfold validate_all, bind. rewrite Hpk.
      destruct (validate_nulls_returns (pre ++ (c, spec) :: post) df v1)
        as [nl [v2 ->]].
      destruct (validate_finite_numbers_returns df v2) as [fin [v3 ->]].
      specialize (Hloop v3).
      rewrite (framed_validate_columns df pre [] v0) in Hcols.
      rewrite (framed_validate_columns df pre [] v3) in Hloop.
      destruct (validate_columns df pre [] []) as [[e|cols] d];
        simpl in Hcols; [discriminate|].
      simpl in Hloop. rewrite Hloop. eauto.
  - intros Hc Hk r vs' Hrun.
    pose proof (validate_all_skip_absent df pre post c spec vs Hc Hk) as S.
    rewrite Hrun in S. destruct S as [before [after [Hr [Hnot E]]]].
    eexists. split; [exact E|]. simpl.
    rewrite Hr, map_app, in_app_iff in Hnot.
    rewrite assoc_app_absent by tauto. simpl. now rewrite String.eqb_refl.
Qed.

Lemma missing_dtype_entry_witness :
  exists vs',
    validate_all ([] ++ ("Age", Examples.empty_spec)
                     :: [("Day", Examples.of_dtype "int")])
                 Examples.clean_df []
    = (inl (KeyError "dtype"), vs').
Proof.
  destruct (missing_dtype_entry Examples.clean_df []
              [("Day", Examples.of_dtype "int")] "Age" Examples.empty_spec []
              eq_refl) as [P _].
  destruct (P eq_refl) as [_ K].
  eapply K. vm_compute. reflexivity.
Defined.

(** *** The values [dropna] keeps *)

Lemma In_set_of (v : value) (xs : list value) : In v (set_of xs) -> In v xs.
Proof.
  induction xs as [|x xs IH]; simpl; [tauto|].
  intros [E|I]; [auto|]. apply filter_In in I. tauto.
Qed.

Lemma In_dropna_cells (v : value) (cs : list cell) :
  In v (dropna_cells cs) <-> In (Some v) cs /\ isna (Some v) = false.
Proof.
  induction cs as [|c cs IH]; simpl; [tauto|].
  destruct (isna c) eqn:N.
  - rewrite IH. split; [tauto|]. intros [[E|I] H]; [|tauto].
    subst c. simpl in N. congruence.
  - destruct c as [x|]; [|discriminate]. simpl. rewrite IH. simpl in N.
    split.
    + intros [<-|H]; tauto.
    + intros [[E|I] H]; [inversion E; auto | tauto].
Qed.

Lemma isna_false_not_nan (v : value) : isna (Some v) = false -> v <> VNum NaN.
Proof. intros H ->. discriminate H. Qed.

Lemma mem_In (v : value) (xs : list value) :
  In v xs -> v <> VNum NaN -> mem v xs = true.
Proof.
  intros I N. unfold mem. apply existsb_exists. exists v.
  split; [exact I | now apply value_eqb_refl].
Qed.

Lemma mem_nan (xs : list value) : mem (VNum NaN) xs = false.
Proof. unfold mem. induction xs as [|[[]|] xs IH]; simpl; auto. Qed.

(** *** The primary-key check *)

(** [duplicated().sum()] is zero exactly when no entry is the same as an
    earlier one. *)
Lemma duplicated_from_zero (cs : list cell) :
  forall seen,
    duplicated_from seen cs = 0 <->
    (forall c, In c cs -> existsb (cell_same c) seen = false) /\
    ForallOrdPairs (fun a b => cell_same b a = false) cs.
Proof.
  induction cs as [|c rest IH]; intros seen; simpl.
  - split; [intros _; split; [intros ? [] | constructor] | trivial].
  - destruct (existsb (cell_same c) seen) eqn:E.
    + split; [discriminate|]. intros [H _].
      rewrite H in E by auto. discriminate.
    + rewrite IH. simpl. split.
      * intros [H P]. split.
        -- intros x [<-|I]; [exact E|].
           specialize (H x I). now apply orb_false_iff in H.
        -- constructor; [|exact P]. apply Forall_forall. intros x I.
           specialize (H x I). now apply orb_false_iff in H.
      * intros [H P]. inversion P as [|? ? F P']; subst. split; [|exact P'].
        intros x I. apply orb_false_iff. split; [|auto].
        rewrite Forall_forall in F. auto.
Qed.

Lemma duplicated_sum_zero (cs : list cell) :
  duplicated_sum cs = 0 <->
  ForallOrdPairs (fun a b => cell_same b a = false) cs.
Proof.
  unfold duplicated_sum. rewrite duplicated_from_zero. simpl. tauto.
Qed.

(** The rows as the check on the days sees them: the [Day] and the
    [Session_ID] of each row of the dataset. *)
Definition key_rows (day session : Series) : list (cell * cell) :=
  combine (cells day) (cells session).

(** Row [b] repeats row [a] within a day: the day of [b] is not missing,
    and [a] has the same day and the same identifier. *)
Definition repeats_within_day (a b : cell * cell) : bool :=
  negb (isna (fst b)) && cell_same (fst b) (fst a)
  && cell_same (snd b) (snd a).

(** The row is one of day [key]. *)
Definition on_day (key : value) (row : cell * cell) : bool :=
  match fst row with
  | Some k => negb (isna (fst row)) && value_eqb k key
  | None => false
  end.

(** The number of rows, among those [keep] selects, that repeat within a
    day a row that comes before them, in [earlier] or in the list. *)
Fixpoint count_repeats (keep : cell * cell -> bool)
         (earlier rows : list (cell * cell)) : nat :=
  match rows with
  | [] => 0
  | b :: rest =>
      (if keep b && existsb (fun a => repeats_within_day a b) earlier
       then 1 else 0)
      + count_repeats keep (b :: earlier) rest
  end.

Lemma cell_same_sym (a b : cell) : cell_same a b = cell_same b a.
Proof.
  destruct a as [[[]|]|], b as [[[]|]|]; simpl; trivial;
    first [apply Qeq_bool_sym | apply String.eqb_sym].
Qed.

Lemma cell_same_trans (a b c : cell) :
  cell_same a b = true -> cell_same b c = true -> cell_same a c = true.
Proof.
  destruct a as [[[]|]|], b as [[[]|]|], c as [[[]|]|]; simpl;
    try discriminate; trivial; intros H1 H2.
  - apply Qeq_bool_iff in H1, H2. apply Qeq_bool_iff. now rewrite H1.
  - apply String.eqb_eq in H1, H2. subst. apply String.eqb_refl.
Qed.

(** For a row of day [key], the rows it repeats are the rows of that day
    with the same identifier. *)
Lemma repeats_on_day (key : value) (a b : cell * cell) :
  on_day key b = true ->
  repeats_within_day a b = on_day key a && cell_same (snd b) (snd a).
Proof.
  unfold on_day, repeats_within_day.
  destruct b as [[x|] sb]; cbn [fst snd]; [|discriminate].
  intros H. apply andb_true_iff in H. destruct H as [N E]. rewrite N.
  cbn [andb]. f_equal.
  assert (x <> VNum NaN) as Hx by (intros ->; discriminate N).
  destruct a as [[y|] sa]; cbn [fst snd].
  - assert (cell_same (Some x) (Some y) = value_eqb x y) as ->.
    { destruct x as [[]|], y as [[]|]; simpl; trivial. congruence. }
    destruct (value_eqb x y) eqn:Exy.
    + assert (value_eqb y key = true) as ->.
      { rewrite value_eqb_sym in Exy.
        apply (value_eqb_trans _ _ _ Exy E). }
      rewrite andb_true_r. symmetry. apply negb_true_iff.
      destruct y as [[]|]; simpl; trivial.
      destruct x as [[]|]; simpl in Exy; discriminate.
    + destruct (value_eqb y key) eqn:Ey; [|now rewrite andb_false_r].
      rewrite value_eqb_sym in Ey.
      rewrite (value_eqb_trans _ _ _ E Ey) in Exy. discriminate.
  - destruct x as [[]|]; reflexivity.
Qed.

Lemma existsb_same {A : Type} (p q : A -> bool) (xs : list A) :
  (forall x, p x = q x) -> existsb p xs = existsb q xs.
Proof.
  intros H. induction xs as [|x xs IH]; simpl; trivial. now rewrite H, IH.
Qed.

(** [duplicated().sum()] on the identifiers of one day counts the rows of
    that day that repeat an earlier row of the day. *)
Lemma duplicated_from_group (key : value) (rows : list (cell * cell)) :
  forall seen earlier,
    (forall c, existsb (cell_same c) seen
               = existsb (fun a => on_day key a && cell_same c (snd a))
                         earlier) ->
    duplicated_from seen (map snd (filter (on_day key) rows))
    = count_repeats (on_day key) earlier rows.
Proof.
  induction rows as [|b rest IH]; intros seen earlier Inv; simpl; trivial.
  destruct (on_day key b) eqn:Hb; simpl.
  - rewrite (existsb_same (fun a => repeats_within_day a b)
               (fun a => on_day key a && cell_same (snd b) (snd a)))
      by (intro; now apply repeats_on_day).
    rewrite <- Inv.
    destruct (existsb (cell_same (snd b)) seen) eqn:E.
    + cbn [Nat.add]. f_equal. apply IH. intros c. simpl.
      rewrite Hb, <- Inv. simpl.
      destruct (cell_same c (snd b)) eqn:C; simpl; trivial.
      apply existsb_exists in E. destruct E as [s0 [I0 S0]].
      apply existsb_exists. exists s0. split; [exact I0|].
      apply (cell_same_trans _ _ _ C S0).
    + simpl. apply IH. intros c. simpl. now rewrite Hb, <- Inv.
  - apply IH. intros c. simpl. now rewrite Hb, <- Inv.
Qed.

Lemma group_rows_count (key : value) (by_cells col_cells : list cell) :
  duplicated_sum (group_rows key by_cells col_cells)
  = count_repeats (on_day key) [] (combine by_cells col_cells).
Proof.
  unfold duplicated_sum.
  apply (duplicated_from_group key (combine by_cells col_cells) [] []).
  reflexivity.
Qed.

Definition sum_over (f : value -> nat) (keys : list value) : nat :=
  fold_right (fun k acc => f k + acc) 0 keys.

Lemma sum_counts_map (f : value -> nat) (keys : list value) :
  sum_counts (map (fun k => (k, f k)) keys) = sum_over f keys.
Proof.
  unfold sum_counts, sum_over.
  induction keys as [|k keys IH]; simpl; trivial. now rewrite IH.
Qed.

Lemma sum_over_add (f g : value -> nat) (keys : list value) :
  sum_over (fun k => f k + g k) keys = sum_over f keys + sum_over g keys.
Proof.
  unfold sum_over. induction keys as [|k keys IH]; simpl; trivial.
  rewrite IH. lia.
Qed.

Lemma sum_over_indicator (p : value -> bool) (e : bool) (keys : list value) :
  sum_over (fun k => if p k && e then 1 else 0) keys
  = if e then count_if p keys else 0.
Proof.
  unfold sum_over. induction keys as [|k keys IH]; simpl.
  - now destruct e.
  - rewrite IH, count_if_cons. destruct e; [|now rewrite andb_false_r].
    now rewrite andb_true_r.
Qed.

(** When every row with a day has its day among [keys] exactly once, the
    counts of the days add up to the count over all the rows. *)
Lemma count_repeats_by_day (keys : list value) (rows : list (cell * cell)) :
  forall earlier,
    (forall b, In b rows -> isna (fst b) = false ->
               count_if (fun k => on_day k b) keys = 1) ->
    sum_over (fun k => count_repeats (on_day k) earlier rows) keys
    = count_repeats (fun _ => true) earlier rows.
Proof.
  induction rows as [|b rest IH]; intros earlier H; simpl.
  - clear H. unfold sum_over. induction keys; simpl; auto.
  - rewrite sum_over_add, IH by (intros; apply H; simpl; auto).
    f_equal. rewrite sum_over_indicator.
    destruct (existsb (fun a => repeats_within_day a b) earlier) eqn:E;
      trivial.
    apply H; [now left|].
    apply existsb_exists in E. destruct E as [a [_ R]].
    unfold repeats_within_day in R.
    apply andb_true_iff in R. destruct R as [R _].
    apply andb_true_iff in R. destruct R as [R _].
    now apply negb_true_iff in R.
Qed.

Lemma count_if_insert_sorted (p : value -> bool) (x : value)
      (xs : list value) :
  count_if p (insert_sorted x xs) = count_if p (x :: xs).
Proof.
  induction xs as [|y ys IH]; simpl; trivial.
  destruct (value_leb x y); trivial.
  rewrite count_if_cons, IH, !count_if_cons. lia.
Qed.

Lemma count_if_sorted (p : value -> bool) (xs : list value) :
  count_if p (sorted xs) = count_if p xs.
Proof.
  unfold sorted. induction xs as [|x xs IH]; simpl; trivial.
  now rewrite count_if_insert_sorted, !count_if_cons, IH.
Qed.

Lemma count_if_filter {A : Type} (p q : A -> bool) (xs : list A) :
  count_if p (filter q xs) = count_if (fun x => q x && p x) xs.
Proof.
  unfold count_if. induction xs as [|x xs IH]; simpl; trivial.
  destruct (q x); simpl; [destruct (p x); simpl; now rewrite IH | exact IH].
Qed.

(** A set holds each of its values once. *)
Lemma count_if_set_of (x : value) (xs : list value) :
  count_if (value_eqb x) (set_of xs) = if mem x xs then 1 else 0.
Proof.
  induction xs as [|y ys IH]; simpl; trivial.
  change (mem x (y :: ys)) with (value_eqb x y || mem x ys).
  rewrite count_if_cons, count_if_filter.
  destruct (value_eqb x y) eqn:E; simpl.
  - f_equal. apply Nat.le_0_r, Nat.ltb_ge, count_if_zero.
    intros z _. destruct (value_eqb z y) eqn:Z; simpl; trivial.
    destruct (value_eqb x z) eqn:X; trivial.
    rewrite value_eqb_sym in X.
    rewrite (value_eqb_trans _ _ _ X E) in Z. discriminate.
  - rewrite <- IH. apply count_if_ext. intros z _.
    destruct (value_eqb x z) eqn:X; [|now rewrite andb_false_r].
    rewrite andb_true_r. apply negb_true_iff.
    destruct (value_eqb z y) eqn:Z; trivial.
    rewrite (value_eqb_trans _ _ _ X Z) in E. discriminate.
Qed.

(** Every row with a day belongs to one group of [groupby]. *)
Lemma group_keys_once (by_cells col_cells : list cell) (b : cell * cell) :
  In b (combine by_cells col_cells) -> isna (fst b) = false ->
  count_if (fun k => on_day k b) (group_keys by_cells) = 1.
Proof.
  intros I N. destruct b as [[x|] sb]; [|discriminate N]. simpl in N.
  apply in_combine_l in I.
  rewrite (count_if_ext _ (value_eqb x))
    by (intros k _; unfold on_day; simpl; now rewrite N).
  unfold group_keys, unique. rewrite count_if_sorted, count_if_set_of.
  rewrite mem_In; trivial.
  - apply In_dropna_cells. auto.
  - now apply isna_false_not_nan.
Qed.

(** The total [day_dupes.sum()] counts the rows that repeat an earlier
    row of their day. *)
Lemma groupby_duplicated_sum_count (by_cells col_cells : list cell) :
  sum_counts (groupby_duplicated_sum by_cells col_cells)
  = count_repeats (fun _ => true) [] (combine by_cells col_cells).
Proof.
  unfold groupby_duplicated_sum.
  rewrite (sum_counts_map
             (fun key => duplicated_sum (group_rows key by_cells col_cells))).
  rewrite <- (count_repeats_by_day (group_keys by_cells)).
  - unfold sum_over. induction (group_keys by_cells) as [|k ks IH]; simpl;
      trivial.
    now rewrite IH, group_rows_count.
  - intros b I N. now apply (group_keys_once by_cells col_cells).
Qed.

Lemma count_repeats_zero (rows : list (cell * cell)) :
  forall earlier,
    count_repeats (fun _ => true) earlier rows = 0 <->
    (forall a b, In a earlier -> In b rows -> repeats_within_day a b = false)
    /\ ForallOrdPairs (fun a b => repeats_within_day a b = false) rows.
Proof.
  induction rows as [|b rest IH]; intros earlier; simpl.
  - split; [intros _; split; [intros ? ? _ [] | constructor] | trivial].
  - destruct (existsb (fun a => repeats_within_day a b) earlier) eqn:E.
    + split; [discriminate|]. intros [H _]. exfalso.
      apply existsb_exists in E. destruct E as [a [I R]].
      rewrite (H a b I) in R by auto. discriminate.
    + simpl. rewrite IH. split.
      * intros [H P]. split.
        -- intros a x Ia [<-|Ix].
           ++ destruct (repeats_within_day a b) eqn:R; trivial.
              assert (existsb (fun a => repeats_within_day a b) earlier
                      = true) as C
                  by (apply existsb_exists; eauto).
              congruence.
           ++ apply H; simpl; auto.
        -- constructor; [|exact P]. apply Forall_forall. intros x Ix.
           apply H; simpl; auto.
      * intros [H P]. inversion P as [|? ? F P']; subst. split; [|exact P'].
        rewrite Forall_forall in F.
        intros a x [<-|Ia] Ix; [auto | apply H; auto].
Qed.

(** C9.  With the columns [Session_ID] and [Day] in the dataset,
    [validate_primary_keys] returns and reports three things apart:
    the number of [Session_ID] entries that repeat an earlier one (zero
    exactly when the identifiers are pairwise distinct), failing with the
    record carrying that number when it is positive; the number of rows
    that repeat an earlier row with the same [Day] and the same
    [Session_ID] (zero exactly when no two rows of one day have the same
    identifier; rows without a day are left out), failing with that
    total and, for each day concerned, the number of such rows on it,
    when the total is positive; and, only when there is an [id] column,
    the number of [id] entries that repeat an earlier one, over the whole
    column and not per day.  The check passes exactly when all the counts
    are zero. *)
Theorem primary_key_check
        (df : DataFrame) (session day : Series) (vs : list violation) :
  df_get df "Session_ID" = Some session ->
  df_get df "Day" = Some day ->
  let g := duplicated_sum (cells session) in
  let per_day := groupby_duplicated_sum (cells day) (cells session) in
  let d := sum_counts per_day in
  let bad_days := filter (fun kv => 0 <? snd kv) per_day in
  let rows := key_rows day session in
  let global_record :=
    {| check := "primary_key_global"; column := "Session_ID";
       violations := g; extra_keys := NoExtra |} in
  let day_record :=
    {| check := "primary_key_within_day"; column := "Session_ID";
       violations := d; extra_keys := ProblematicDays bad_days |} in
  exists r new,
    validate_primary_keys df vs = (inr r, vs ++ new) /\
    (g = 0 <-> ForallOrdPairs (fun a b => cell_same b a = false)
                              (cells session)) /\
    d = count_repeats (fun _ => true) [] rows /\
    (d = 0 <-> ForallOrdPairs (fun a b => repeats_within_day a b = false)
                              rows) /\
    (forall key n, In (key, n) bad_days <->
                   In key (group_keys (cells day)) /\
                   n = count_repeats (on_day key) [] rows /\ 0 < n) /\
    (if 0 <? g
     then In (SessionDuplicates g) (issues r) /\ In global_record new
     else In SessionUnique (issues r) /\
          forall v, In v new -> check v <> "primary_key_global") /\
    (if 0 <? d
     then In (SessionDuplicatesWithinDays bad_days) (issues r) /\
          In day_record new
     else In SessionUniqueWithinDay (issues r) /\
          forall v, In v new -> check v <> "primary_key_within_day") /\
    match df_get df "id" with
    | Some id =>
        let i := duplicated_sum (cells id) in
        (if 0 <? i
         then In (IdDuplicates i) (issues r) /\
              In {| check := "id_uniqueness"; column := "id";
                    violations := i; extra_keys := NoExtra |} new
         else In IdUnique (issues r) /\
              forall v, In v new -> column v <> "id") /\
        (forall v, In v new -> column v = "id" -> check v = "id_uniqueness") /\
        (passed r = true <-> g = 0 /\ d = 0 /\ i = 0)
    | None =>
        (forall v, In v new -> column v <> "id") /\
        (forall n, ~ In (IdDuplicates n) (issues r)) /\
        ~ In IdUnique (issues r) /\
        (passed r = true <-> g = 0 /\ d = 0)
    end.
Proof.
  intros Hs Hd g per_day d bad_days rows global_record day_record.
  rewrite (framed_validate_primary_keys df vs).
  assert (g = 0 <-> ForallOrdPairs (fun a b => cell_same b a = false)
                                   (cells session)) as Hg
      by apply duplicated_sum_zero.
  assert (d = count_repeats (fun _ => true) [] rows) as Hcount
      by apply groupby_duplicated_sum_count.
  assert (d = 0 <-> ForallOrdPairs
                      (fun a b => repeats_within_day a b = false) rows)
    as Hzero.
  { rewrite Hcount, count_repeats_zero. split; [tauto|].
    intros P. split; [intros ? ? []|exact P]. }
  assert (forall key n, In (key, n) bad_days <->
                        In key (group_keys (cells day)) /\
                        n = count_repeats (on_day key) [] rows /\ 0 < n)
    as Hbad.
  { intros key n. subst bad_days per_day. unfold groupby_duplicated_sum.
    rewrite filter_In, in_map_iff. simpl. rewrite Nat.ltb_lt. split.
    - intros [[k [E I]] L]. inversion E; subst.
      split; [exact I|]. split; [apply group_rows_count | exact L].
    - intros [I [-> L]]. split; [|exact L].
      exists key. split; [|exact I]. f_equal. apply group_rows_count. }
  clearbody rows.
  subst global_record day_record bad_days d per_day g.
  unfold validate_primary_keys, getitem, has_column, bind.
  rewrite Hs, Hd. unfold ret, raise, append_violation. cbv beta iota.
  set (g := duplicated_sum (cells session)) in *.
  set (per_day := groupby_duplicated_sum (cells day) (cells session)) in *.
  set (d := sum_counts per_day) in *.
  destruct (df_get df "id") as [id|];
    [set (i := duplicated_sum (cells id));
     destruct (0 <? i) eqn:Li|];
    destruct (0 <? g) eqn:Lg; destruct (0 <? d) eqn:Ld;
    cbv beta iota;
    (do 2 eexists; split; [reflexivity|]; split; [exact Hg|];
     split; [exact Hcount|]; split; [exact Hzero|]; split; [exact Hbad|]);
    clear Hcount Hzero Hbad;
    repeat match goal with
           | H : (0 <? _) = true |- _ => apply Nat.ltb_lt in H
           | H : (0 <? _) = false |- _ => apply Nat.ltb_ge in H
           end;
    simpl;
    repeat split; auto 8;
    try (intros v Hv; simpl in Hv; intuition (subst; simpl; congruence));
    try (intros v Hv Hc; simpl in Hv;
         intuition (subst; simpl in *; congruence));
    try (intros n Hn; simpl in Hn; intuition congruence);
    try (intros Hn; simpl in Hn; intuition congruence);
    try discriminate; try lia.
Qed.

(** The identifiers 1, 1, 2 on the days 1, 2, 2: the identifier 1 occurs
    twice, on two days. *)
Definition across_days_df : DataFrame :=
  {| index_len := 3;
     columns := [ ("Session_ID", Examples.ints [1; 1; 2]%Z);
                  ("Day", Examples.ints [1; 2; 2]%Z) ] |}.

(** On it there is one duplicate over the whole dataset and the check
    fails, while no day has a duplicate. *)
Lemma primary_key_check_witness :
  exists r new,
    validate_primary_keys across_days_df [] = (inr r, [] ++ new) /\
    passed r = false /\
    In (SessionDuplicates 1) (issues r) /\
    In {| check := "primary_key_global"; column := "Session_ID";
          violations := 1; extra_keys := NoExtra |} new /\
    In SessionUniqueWithinDay (issues r) /\
    (forall v, In v new -> check v <> "primary_key_within_day") /\
    ForallOrdPairs (fun a b => repeats_within_day a b = false)
                   (key_rows (Examples.ints [1; 2; 2]%Z)
                             (Examples.ints [1; 1; 2]%Z)).
Proof.
  pose proof (primary_key_check across_days_df
                (Examples.ints [1; 1; 2]%Z) (Examples.ints [1; 2; 2]%Z) []
                eq_refl eq_refl) as W.
  cbv zeta in W. destruct W as [r [new [E [_ [_ [Z [_ [G [D I]]]]]]]]].
  vm_compute in G. vm_compute in D. vm_compute in I.
  destruct G as [G1 G2]. destruct D as [D1 D2]. destruct I as [_ [_ [_ P]]].
  exists r, new. repeat split; trivial.
  - destruct (passed r) eqn:Pr; [|reflexivity].
    destruct (proj1 P Pr) as [H _]. discriminate H.
  - apply (proj1 Z). reflexivity.
Defined.

(** *** The allow-list check *)

(** The values the check calls unexpected. *)
Definition unexpected_values (s : Series) (l : scalars) : list value :=
  set_diff (set_of (unique (dropna s))) (set_of (values_of l)).

Lemma mem_unexpected (s : Series) (l : scalars) (v : value) :
  mem v (unexpected_values s l)
  = mem v (dropna s) && negb (mem v (values_of l)).
Proof.
  unfold unexpected_values, unique.
  now rewrite mem_set_diff, !mem_set_of.
Qed.

(** Whether a row counts for the violation: its entry is not missing and
    is not in the allow-list. *)
Definition contributes (l : scalars) (c : cell) : bool :=
  match c with
  | Some v => negb (isna c) && negb (mem v (values_of l))
  | None => false
  end.

Lemma isin_sum_unexpected (s : Series) (l : scalars) :
  isin_sum s (unexpected_values s l) = count_if (contributes l) (cells s).
Proof.
  unfold isin_sum. fold (count_if (fun c => match c with
                                            | Some v => mem v (unexpected_values s l)
                                            | None => false
                                            end) (cells s)).
  apply count_if_ext. intros [v|] I; [|reflexivity].
  unfold contributes. rewrite mem_unexpected. f_equal.
  destruct (isna (Some v)) eqn:N; simpl.
  - destruct v as [[]|]; try discriminate N. apply mem_nan.
  - apply mem_In; [|now apply isna_false_not_nan].
    unfold dropna. now apply In_dropna_cells.
Qed.

Lemma unexpected_nonempty (s : Series) (l : scalars) :
  unexpected_values s l <> [] <-> 0 < count_if (contributes l) (cells s).
Proof.
  rewrite count_if_pos. split.
  - intros H. destruct (unexpected_values s l) as [|v rest] eqn:E;
      [congruence|].
    assert (In v (unexpected_values s l)) as I by (rewrite E; now left).
    unfold unexpected_values, set_diff, unique in I.
    apply filter_In in I. destruct I as [I A].
    do 2 apply In_set_of in I. unfold dropna in I.
    apply In_dropna_cells in I. destruct I as [I N].
    exists (Some v). split; [exact I|]. unfold contributes.
    rewrite N. simpl. now rewrite mem_set_of in A.
  - intros [[v|] [I C]]; [|discriminate C].
    unfold contributes in C. apply andb_true_iff in C. destruct C as [N A].
    apply negb_true_iff in N.
    assert (mem v (unexpected_values s l) = true) as M.
    { rewrite mem_unexpected, A, andb_true_r.
      apply mem_In; [|now apply isna_false_not_nan].
      unfold dropna. now apply In_dropna_cells. }
    intros E. rewrite E in M. discriminate M.
Qed.

(** C7.  On a column the dataset has, under an allow-list,
    [validate_categorical] returns; it fails exactly when some entry that
    is not missing is outside the allow-list; the record it then appends
    holds the sorted set of those values (a value is in it if and only if
    it occurs, not missing, in the column and is not allowed) and the
    number of rows with such an entry; a row counts if and only if its
    entry is not missing and not allowed.  The allowed values that do
    not occur are reported in an issue of their own, which has no part in
    the verdict. *)
Theorem categorical_check
        (df : DataFrame) (col : string) (spec : ColSpec) (s : Series)
        (l : scalars) (vs : list violation) :
  df_get df col = Some s ->
  allowed spec = Some l ->
  let n := count_if (fun c => match c with
                              | Some v => negb (isna c)
                                          && negb (mem v (values_of l))
                              | None => false
                              end) (cells s) in
  exists r new unexpected missing,
    validate_categorical df col spec vs = (inr r, vs ++ new) /\
    (forall v, mem v unexpected = true <->
               mem v (dropna s) = true /\ mem v (values_of l) = false) /\
    (forall v, mem v missing = true <->
               mem v (values_of l) = true /\ mem v (dropna s) = false) /\
    (passed r = false <-> unexpected <> []) /\
    (unexpected <> [] <-> 0 < n) /\
    (0 < n ->
     new = [{| check := "categorical_allowed"; column := col;
               violations := n;
               extra_keys := AllowedExtra (sorted (set_of (values_of l)))
                                          (sorted unexpected) |}] /\
     In (UnexpectedValues col (List.length unexpected) unexpected) (issues r) /\
     In (RowsAffected n) (issues r)) /\
    (n = 0 -> new = [] /\
              In (OnlyAllowed col (set_of (values_of l))) (issues r)) /\
    (In (AllowedNotPresent col missing) (issues r) <-> missing <> []).
Proof.
  intros Hs Hl n.
  assert (n = count_if (contributes l) (cells s)) as Hn by reflexivity.
  clearbody n.
  rewrite (framed_validate_categorical df col spec vs).
  unfold validate_categorical. rewrite Hs, Hl. cbv zeta.
  fold (unexpected_values s l).
  set (missing := set_diff (set_of (values_of l)) (set_of (unique (dropna s)))).
  pose proof (unexpected_nonempty s l) as Hne. rewrite <- Hn in Hne.
  pose proof (isin_sum_unexpected s l) as Hcount. rewrite <- Hn in Hcount.
  assert (forall v, mem v missing = true <->
                    mem v (values_of l) = true /\ mem v (dropna s) = false)
    as Hmiss.
  { intros v. subst missing. unfold unique.
    rewrite mem_set_diff, !mem_set_of, andb_true_iff, negb_true_iff. tauto. }
  assert (forall v, mem v (unexpected_values s l) = true <->
                    mem v (dropna s) = true /\ mem v (values_of l) = false)
    as Hunexp.
  { intros v. rewrite mem_unexpected, andb_true_iff, negb_true_iff. tauto. }
  clearbody missing.
  destruct (unexpected_values s l) as [|u rest] eqn:U.
  - assert (n = 0) as N0.
    { destruct n; trivial. exfalso. apply (proj2 Hne); [lia | reflexivity]. }
    destruct missing as [|m ms];
      unfold bind, ret, append_violation; simpl;
      [exists {| passed := true;
                 issues := [OnlyAllowed col (set_of (values_of l))] |},
         [], [], []
      |exists {| passed := true;
                 issues := [OnlyAllowed col (set_of (values_of l));
                            AllowedNotPresent col (m :: ms)] |},
         [], [], (m :: ms)];
      (split; [reflexivity|]); simpl;
      (split; [exact Hunexp|]); (split; [exact Hmiss|]);
      repeat split; auto; try discriminate; try lia; try tauto;
      intuition (try discriminate; try congruence; try lia).
  - assert (0 < n) as Npos by (apply Hne; discriminate).
    destruct missing as [|m ms];
      unfold bind, ret, append_violation; simpl; rewrite Hcount;
      [exists {| passed := false;
                 issues := [UnexpectedValues col (S (List.length rest))
                                             (u :: rest);
                            RowsAffected n] |},
         [{| check := "categorical_allowed"; column := col; violations := n;
             extra_keys := AllowedExtra (sorted (set_of (values_of l)))
                                        (sorted (u :: rest)) |}],
         (u :: rest), []
      |exists {| passed := false;
                 issues := [UnexpectedValues col (S (List.length rest))
                                             (u :: rest);
                            RowsAffected n;
                            AllowedNotPresent col (m :: ms)] |},
         [{| check := "categorical_allowed"; column := col; violations := n;
             extra_keys := AllowedExtra (sorted (set_of (values_of l)))
                                        (sorted (u :: rest)) |}],
         (u :: rest), (m :: ms)];
      (split; [reflexivity|]); simpl;
      (split; [exact Hunexp|]); (split; [exact Hmiss|]);
      repeat split; auto; try discriminate; try lia; try tauto;
      intuition (try discriminate; try congruence; try lia).
Qed.

(** The example of the devices Mobile and Phone under the allow-list
    Mobile, Desktop, Tablet: one row counts, and the check fails. *)
Lemma categorical_check_witness :
  exists r new,
    validate_categorical Examples.device_df "device" Examples.device_spec []
    = (inr r, [] ++ new) /\
    passed r = false /\
    map violations new = [1].
Proof.
  pose proof (categorical_check Examples.device_df "device"
                Examples.device_spec
                (Examples.strings [Some "Mobile"; Some "Phone"])
                (StrList ["Mobile"; "Desktop"; "Tablet"]) []
                eq_refl eq_refl) as W.
  cbv zeta in W.
  destruct W as [r [new [unexpected [missing [E [_ [_ [P [U [Pos _]]]]]]]]]].
  assert (0 < 1) as L by lia.
  exists r, new. split; [exact E|]. split.
  - apply P, U. exact L.
  - destruct (Pos L) as [-> _]. reflexivity.
Defined.

(** *** The bounds of the numeric check *)

(** Turns the comparisons of rationals in the context and the goal into
    propositions and calls [lra]. *)
Ltac q_order :=
  repeat match goal with
         | H : Qle_bool _ _ = true |- _ => apply Qle_bool_iff in H
         | H : Qle_bool _ _ = false |- _ =>
             apply not_true_iff_false in H; rewrite Qle_bool_iff in H
         | H : Qlt_bool _ _ = true |- _ =>
             unfold Qlt_bool in H; apply negb_true_iff in H
         | H : Qlt_bool _ _ = false |- _ => apply Qlt_bool_false in H
         | H : Qeq_bool _ _ = true |- _ => apply Qeq_bool_iff in H
         | |- Qle_bool _ _ = true => apply Qle_bool_iff
         | |- Qlt_bool _ _ = false => apply Qlt_bool_false
         | |- Qlt_bool _ _ = true =>
             unfold Qlt_bool; apply negb_true_iff, not_true_iff_false;
             rewrite Qle_bool_iff
         end;
  try lra.

Lemma num_leb_refl (a : num) : a <> NaN -> num_leb a a = true.
Proof. destruct a; simpl; try congruence; intros _; q_order. Qed.

Lemma num_leb_trans (a b c : num) :
  num_leb a b = true -> num_leb b c = true -> num_leb a c = true.
Proof.
  destruct a, b, c; simpl; try discriminate; trivial; intros; q_order.
Qed.

Lemma num_not_ltb_leb (a b : num) :
  a <> NaN -> b <> NaN -> num_ltb b a = false -> num_leb a b = true.
Proof.
  destruct a, b; simpl; try congruence; trivial; intros; q_order.
Qed.

Lemma num_ltb_leb (a b : num) : num_ltb a b = true -> num_leb a b = true.
Proof.
  destruct a, b; simpl; try discriminate; trivial; intros; q_order.
Qed.

Lemma num_leb_ltb_trans (a b c : num) :
  num_leb a b = true -> num_ltb b c = true -> num_ltb a c = true.
Proof.
  destruct a, b, c; simpl; try discriminate; trivial; intros; q_order.
Qed.

Lemma num_ltb_leb_trans (a b c : num) :
  num_ltb a b = true -> num_leb b c = true -> num_ltb a c = true.
Proof.
  destruct a, b, c; simpl; try discriminate; trivial; intros; q_order.
Qed.

(** [series.min()] is one of the values and below them all. *)
Lemma fold_num_min (rest : list num) :
  forall x,
    (forall y, In y (x :: rest) -> y <> NaN) ->
    In (fold_left num_min rest x) (x :: rest) /\
    forall y, In y (x :: rest) -> num_leb (fold_left num_min rest x) y = true.
Proof.
  induction rest as [|z rest IH]; intros x Hnan.
  - simpl. split; [auto|]. intros y [<-|[]]. apply num_leb_refl.
    apply Hnan. now left.
  - simpl fold_left.
    assert (x <> NaN) as Hx by (apply Hnan; simpl; auto).
    assert (z <> NaN) as Hz by (apply Hnan; simpl; auto).
    assert (num_min x z <> NaN) as Hm
        by (unfold num_min; destruct (num_ltb z x); trivial).
    destruct (IH (num_min x z)) as [I L].
    { intros y [<-|H]; [exact Hm | apply Hnan; simpl; auto]. }
    split.
    + destruct I as [E|I]; [|simpl; auto].
      rewrite <- E. unfold num_min. destruct (num_ltb z x); simpl; auto.
    + intros y Hy.
      assert (num_leb (fold_left num_min rest (num_min x z)) (num_min x z)
              = true) as L0 by (apply L; now left).
      destruct Hy as [<-|[<-|Hy]].
      * apply (num_leb_trans _ _ _ L0). unfold num_min.
        destruct (num_ltb z x) eqn:E; [now apply num_ltb_leb|].
        now apply num_leb_refl.
      * apply (num_leb_trans _ _ _ L0). unfold num_min.
        destruct (num_ltb z x) eqn:E; [now apply num_leb_refl|].
        now apply num_not_ltb_leb.
      * apply L. now right.
Qed.

Lemma fold_num_max (rest : list num) :
  forall x,
    (forall y, In y (x :: rest) -> y <> NaN) ->
    In (fold_left num_max rest x) (x :: rest) /\
    forall y, In y (x :: rest) -> num_leb y (fold_left num_max rest x) = true.
Proof.
  induction rest as [|z rest IH]; intros x Hnan.
  - simpl. split; [auto|]. intros y [<-|[]]. apply num_leb_refl.
    apply Hnan. now left.
  - simpl fold_left.
    assert (x <> NaN) as Hx by (apply Hnan; simpl; auto).
    assert (z <> NaN) as Hz by (apply Hnan; simpl; auto).
    assert (num_max x z <> NaN) as Hm
        by (unfold num_max; destruct (num_ltb x z); trivial).
    destruct (IH (num_max x z)) as [I L].
    { intros y [<-|H]; [exact Hm | apply Hnan; simpl; auto]. }
    split.
    + destruct I as [E|I]; [|simpl; auto].
      rewrite <- E. unfold num_max. destruct (num_ltb x z); simpl; auto.
    + intros y Hy.
      assert (num_leb (num_max x z) (fold_left num_max rest (num_max x z))
              = true) as L0 by (apply L; now left).
      destruct Hy as [<-|[<-|Hy]].
      * apply (fun H => num_leb_trans _ _ _ H L0). unfold num_max.
        destruct (num_ltb x z) eqn:E; [now apply num_ltb_leb|].
        now apply num_leb_refl.
      * apply (fun H => num_leb_trans _ _ _ H L0). unfold num_max.
        destruct (num_ltb x z) eqn:E; [now apply num_leb_refl|].
        now apply num_not_ltb_leb.
      * apply L. now right.
Qed.

(** The values [dropna] leaves hold no [nan]. *)
Lemma nums_of_dropna_not_nan (s : Series) (x : num) :
  In x (nums_of (dropna s)) -> x <> NaN.
Proof.
  unfold nums_of. intros H. apply in_flat_map in H.
  destruct H as [v [I E]]. destruct v as [y|]; [|destruct E].
  destruct E as [<-|[]]. unfold dropna in I.
  apply In_dropna_cells in I. destruct I as [_ N]. intros ->. discriminate N.
Qed.

(** Whether [values < bound] can be evaluated on the column. *)
Definition orderable (s : Series) : bool :=
  match data s with
  | Nums _ => match dtype_of s with category => false | _ => true end
  | Strs _ => false
  end.

Lemma ordered_values_ok (s : Series) (vs : list violation) :
  orderable s = true -> ordered_values s vs = (inr (nums_of (dropna s)), vs).
Proof.
  unfold orderable, ordered_values.
  destruct (data s); [|discriminate]. now destruct (dtype_of s).
Qed.

Lemma ordered_values_raises (s : Series) (vs : list violation) :
  orderable s = false -> ordered_values s vs = (inl TypeError, vs).
Proof.
  unfold orderable, ordered_values.
  destruct (data s); [|reflexivity]. now destruct (dtype_of s).
Qed.

(** What each of the three constraints contributes on given values: the
    verdict, the issues and the records. *)
Definition range_part (col : string) (values : list num)
           (bounds : option (num * num))
  : bool * list issue * list violation :=
  match bounds with
  | Some (lo, hi) =>
      let n := count_if (outside_range lo hi) values in
      if 0 <? n then
        (false,
         [OutsideRange col n lo hi;
          RangeFound (series_min values) (series_max values)],
         [{| check := "range"; column := col; violations := n;
             extra_keys := RangeExtra (lo, hi)
                             (series_min values, series_max values) |}])
      else (true, [WithinRange col lo hi], [])
  | None => (true, [], [])
  end.

Definition ge_part (col : string) (values : list num) (bound : option num)
  : bool * list issue * list violation :=
  match bound with
  | Some b =>
      let n := count_if (below b) values in
      if 0 <? n then
        (false, [BelowGe col n b],
         [{| check := "ge"; column := col; violations := n;
             extra_keys := BoundExtra b (series_min values) |}])
      else (true, [SatisfiesGe col b], [])
  | None => (true, [], [])
  end.

Definition gt_part (col : string) (values : list num) (bound : option num)
  : bool * list issue * list violation :=
  match bound with
  | Some b =>
      let n := count_if (not_above b) values in
      if 0 <? n then
        (false, [NotAboveGt col n b],
         [{| check := "gt"; column := col; violations := n;
             extra_keys := BoundExtra b (series_min values) |}])
      else (true, [SatisfiesGt col b], [])
  | None => (true, [], [])
  end.

Lemma result_eta (r : Result) :
  {| passed := passed r && true; issues := issues r ++ [] |} = r.
Proof. destruct r. simpl. now rewrite andb_true_r, app_nil_r. Qed.

Lemma check_range_eq (col : string) (s : Series) (bounds : option (num * num))
      (results : Result) (vs : list violation) :
  orderable s = true ->
  check_range col s bounds results vs
  = let '(ok, iss, vio) := range_part col (nums_of (dropna s)) bounds in
    (inr {| passed := passed results && ok;
            issues := issues results ++ iss |}, vs ++ vio).
Proof.
  intros Ho. unfold check_range, range_part, bind.
  destruct bounds as [[lo hi]|];
    [|unfold ret; now rewrite result_eta, app_nil_r].
  rewrite (ordered_values_ok s vs Ho). cbv zeta.
  destruct (0 <? count_if (outside_range lo hi) (nums_of (dropna s)));
    unfold ret, append_violation, append_issue, set_failed; simpl.
  - now rewrite andb_false_r, <- app_assoc.
  - now rewrite andb_true_r, app_nil_r.
Qed.

Lemma check_ge_eq (col : string) (s : Series) (bound : option num)
      (results : Result) (vs : list violation) :
  orderable s = true ->
  check_ge col s bound results vs
  = let '(ok, iss, vio) := ge_part col (nums_of (dropna s)) bound in
    (inr {| passed := passed results && ok;
            issues := issues results ++ iss |}, vs ++ vio).
Proof.
  intros Ho. unfold check_ge, ge_part, bind.
  destruct bound as [b|];
    [|unfold ret; now rewrite result_eta, app_nil_r].
  rewrite (ordered_values_ok s vs Ho). cbv zeta.
  destruct (0 <? count_if (below b) (nums_of (dropna s)));
    unfold ret, append_violation, append_issue, set_failed; simpl.
  - now rewrite andb_false_r.
  - now rewrite andb_true_r, app_nil_r.
Qed.

Lemma check_gt_eq (col : string) (s : Series) (bound : option num)
      (results : Result) (vs : list violation) :
  orderable s = true ->
  check_gt col s bound results vs
  = let '(ok, iss, vio) := gt_part col (nums_of (dropna s)) bound in
    (inr {| passed := passed results && ok;
            issues := issues results ++ iss |}, vs ++ vio).
Proof.
  intros Ho. unfold check_gt, gt_part, bind.
  destruct bound as [b|];
    [|unfold ret; now rewrite result_eta, app_nil_r].
  rewrite (ordered_values_ok s vs Ho). cbv zeta.
  destruct (0 <? count_if (not_above b) (nums_of (dropna s)));
    unfold ret, append_violation, append_issue, set_failed; simpl.
  - now rewrite andb_false_r.
  - now rewrite andb_true_r, app_nil_r.
Qed.

(** The check on a column that can be compared and has values. *)
Lemma validate_numeric_range_eq
      (df : DataFrame) (col : string) (spec : ColSpec) (s : Series)
      (vs : list violation) :
  df_get df col = Some s ->
  orderable s = true ->
  dropna s <> [] ->
  let values := nums_of (dropna s) in
  let '(ok1, is1, vio1) := range_part col values (range spec) in
  let '(ok2, is2, vio2) := ge_part col values (ge spec) in
  let '(ok3, is3, vio3) := gt_part col values (gt spec) in
  validate_numeric_range df col spec vs
  = (inr {| passed := ok1 && ok2 && ok3; issues := is1 ++ is2 ++ is3 |},
     vs ++ vio1 ++ vio2 ++ vio3).
Proof.
  intros Hs Ho Hv values. unfold validate_numeric_range. rewrite Hs.
  destruct (dropna s) as [|v0 rest] eqn:D; [congruence|].
  unfold bind. rewrite check_range_eq by exact Ho. rewrite D. fold values.
  destruct (range_part col values (range spec)) as [[ok1 is1] vio1].
  rewrite check_ge_eq by exact Ho. rewrite D. fold values.
  destruct (ge_part col values (ge spec)) as [[ok2 is2] vio2].
  rewrite check_gt_eq by exact Ho. rewrite D. fold values.
  destruct (gt_part col values (gt spec)) as [[ok3 is3] vio3].
  simpl. now rewrite <- !app_assoc.
Qed.

(** What the rule [check_name] counted in a run: the [violations] of
    its record among the records appended, 0 when it appended none. *)
Definition counted (check_name : string) (new : list violation) : nat :=
  list_sum (map violations
                (filter (fun rec => String.eqb (check rec) check_name) new)).

Lemma counted_app (check_name : string) (a b : list violation) :
  counted check_name (a ++ b) = counted check_name a + counted check_name b.
Proof.
  unfold counted. now rewrite filter_app, map_app, list_sum_app.
Qed.

Lemma if_positive (n : nat) : (if 0 <? n then n else 0) = n.
Proof. destruct n; reflexivity. Qed.

(** The count of each rule on a column of numbers: the sum of its
    mask. *)
Lemma range_part_counted (col : string) (values : list num)
      (bounds : option (num * num)) :
  let '(_, _, vio) := range_part col values bounds in
  counted "range" vio
  = match bounds with
    | Some (lo, hi) => count_if (outside_range lo hi) values
    | None => 0
    end /\
  counted "ge" vio = 0 /\ counted "gt" vio = 0.
Proof.
  unfold range_part. destruct bounds as [[lo hi]|]; [|now cbv].
  cbv zeta. destruct (0 <? _) eqn:L.
  - unfold counted. simpl. now rewrite Nat.add_0_r.
  - apply Nat.ltb_ge in L. unfold counted. simpl. repeat split. lia.
Qed.

Lemma ge_part_counted (col : string) (values : list num)
      (bound : option num) :
  let '(_, _, vio) := ge_part col values bound in
  counted "ge" vio
  = match bound with
    | Some b => count_if (below b) values
    | None => 0
    end /\
  counted "range" vio = 0 /\ counted "gt" vio = 0.
Proof.
  unfold ge_part. destruct bound as [b|]; [|now cbv].
  cbv zeta. destruct (0 <? _) eqn:L.
  - unfold counted. simpl. now rewrite Nat.add_0_r.
  - apply Nat.ltb_ge in L. unfold counted. simpl. repeat split. lia.
Qed.

Lemma gt_part_counted (col : string) (values : list num)
      (bound : option num) :
  let '(_, _, vio) := gt_part col values bound in
  counted "gt" vio
  = match bound with
    | Some b => count_if (not_above b) values
    | None => 0
    end /\
  counted "range" vio = 0 /\ counted "ge" vio = 0.
Proof.
  unfold gt_part. destruct bound as [b|]; [|now cbv].
  cbv zeta. destruct (0 <? _) eqn:L.
  - unfold counted. simpl. now rewrite Nat.add_0_r.
  - apply Nat.ltb_ge in L. unfold counted. simpl. repeat split. lia.
Qed.

Lemma validate_numeric_range_counted
      (df : DataFrame) (col : string) (spec : ColSpec) (s : Series)
      (vs : list violation) :
  df_get df col = Some s ->
  orderable s = true ->
  let values := nums_of (dropna s) in
  exists r new,
    validate_numeric_range df col spec vs = (inr r, vs ++ new) /\
    counted "range" new
    = match range spec with
      | Some (lo, hi) => count_if (outside_range lo hi) values
      | None => 0
      end /\
    counted "ge" new
    = match ge spec with
      | Some b => count_if (below b) values
      | None => 0
      end /\
    counted "gt" new
    = match gt spec with
      | Some b => count_if (not_above b) values
      | None => 0
      end.
Proof.
  intros Hs Ho values.
  destruct (dropna s) as [|v0 rest] eqn:D.
  - exists {| passed := true; issues := [AllNull col] |}, [].
    unfold validate_numeric_range. rewrite Hs, D. unfold ret.
    rewrite app_nil_r. split; [reflexivity|].
    subst values.
    destruct (range spec) as [[lo hi]|], (ge spec), (gt spec);
      repeat split.
  - pose proof (validate_numeric_range_eq df col spec s vs Hs Ho) as E.
    rewrite D in E. specialize (E ltac:(discriminate)). cbv zeta in E.
    subst values.
    pose proof (range_part_counted col (nums_of (v0 :: rest)) (range spec))
      as P1.
    pose proof (ge_part_counted col (nums_of (v0 :: rest)) (ge spec)) as P2.
    pose proof (gt_part_counted col (nums_of (v0 :: rest)) (gt spec)) as P3.
    destruct (range_part _ _ _) as [[ok1 is1] vio1].
    destruct (ge_part _ _ _) as [[ok2 is2] vio2].
    destruct (gt_part _ _ _) as [[ok3 is3] vio3].
    destruct P1 as [A1 [B1 C1]], P2 as [A2 [B2 C2]], P3 as [A3 [B3 C3]].
    do 2 eexists. split; [exact E|].
    rewrite !counted_app, A1, A2, A3, B1, B2, B3, C1, C2, C3.
    repeat split; lia.
Qed.

Lemma dropna_cells_app (a b : list cell) :
  dropna_cells (a ++ b) = dropna_cells a ++ dropna_cells b.
Proof.
  induction a as [|c a IH]; simpl; trivial.
  destruct (isna c); [exact IH|]. destruct c; [|exact IH].
  simpl. now rewrite IH.
Qed.

(** The values of a column of numbers with one more entry [v] that is
    not [nan]. *)
Lemma values_with_entry (d : Pandas.dtype) (before after : list (option num))
      (v : num) :
  v <> NaN ->
  nums_of (dropna (mkSeries d (Nums (before ++ Some v :: after))))
  = nums_of (dropna (mkSeries d (Nums before)))
    ++ v :: nums_of (dropna (mkSeries d (Nums after))).
Proof.
  intros Hv. unfold dropna, cells, nums_of. simpl.
  rewrite map_app, dropna_cells_app, flat_map_app. f_equal. simpl.
  destruct v; simpl; trivial. congruence.
Qed.

Lemma values_without_entry (d : Pandas.dtype)
      (before after : list (option num)) :
  nums_of (dropna (mkSeries d (Nums (before ++ after))))
  = nums_of (dropna (mkSeries d (Nums before)))
    ++ nums_of (dropna (mkSeries d (Nums after))).
Proof.
  unfold dropna, cells, nums_of. simpl.
  now rewrite map_app, dropna_cells_app, flat_map_app.
Qed.

Lemma orderable_numbers (d : Pandas.dtype) (xs : list (option num)) :
  d <> category -> orderable (mkSeries d (Nums xs)) = true.
Proof. unfold orderable. simpl. destruct d; trivial. congruence. Qed.

(** C5 (as stated, refuted).  Under [range: [10, 5]] the value 10, equal
    to the first bound, is counted: it is above the second. *)
Lemma inverted_range_counts_bound :
  validate_numeric_range
    {| index_len := 1; columns := [("x", Examples.ints [10]%Z)] |}
    "x"
    {| dtype := Some "int"; allow_null := None;
       range := Some (Fin 10, Fin 5); ge := None; gt := None;
       allowed := None |} []
  = (inr {| passed := false;
            issues := [OutsideRange "x" 1 (Fin 10) (Fin 5);
                       RangeFound (Fin 10) (Fin 10)] |},
     [{| check := "range"; column := "x"; violations := 1;
         extra_keys := RangeExtra (Fin 10, Fin 5) (Fin 10, Fin 10) |}]).
Proof. reflexivity. Qed.

(** C5 (amended).  [validate_numeric_range] on a column of numbers that
    is not categorical, compared with the same column holding one more
    entry [v]: when [v] is equal to a bound of [range = [lo, hi]] and
    [lo <= hi], the count of the range rule is the same, [v] is not
    counted; when [v] is equal to the bound of [ge], the count of that
    rule is the same; when [v] is equal to the bound of [gt], the count of
    that rule is one more, [v] is counted.  The count of a rule is the
    number in the record it appends, 0 when it appends none. *)
Theorem bounds_inclusivity
        (df df' : DataFrame) (col : string) (spec : ColSpec)
        (d : Pandas.dtype) (before after : list (option num)) (v : num)
        (vs : list violation) :
  d <> category ->
  df_get df col = Some (mkSeries d (Nums (before ++ after))) ->
  df_get df' col = Some (mkSeries d (Nums (before ++ Some v :: after))) ->
  exists r new r' new',
    validate_numeric_range df col spec vs = (inr r, vs ++ new) /\
    validate_numeric_range df' col spec vs = (inr r', vs ++ new') /\
    (forall lo hi,
        range spec = Some (lo, hi) -> num_leb lo hi = true ->
        num_eqb v lo = true \/ num_eqb v hi = true ->
        counted "range" new' = counted "range" new) /\
    (forall b,
        ge spec = Some b -> num_eqb v b = true ->
        counted "ge" new' = counted "ge" new) /\
    (forall b,
        gt spec = Some b -> num_eqb v b = true ->
        counted "gt" new' = S (counted "gt" new)).
Proof.
  intros Hd Hs Hs'.
  destruct (validate_numeric_range_counted df col spec _ vs Hs
              (orderable_numbers d _ Hd)) as [r [new [E [R [G T]]]]].
  destruct (validate_numeric_range_counted df' col spec _ vs Hs'
              (orderable_numbers d _ Hd)) as [r' [new' [E' [R' [G' T']]]]].
  exists r, new, r', new'. split; [exact E|]. split; [exact E'|].
  rewrite values_without_entry in R, G, T.
  assert (forall b, num_eqb v b = true -> v <> NaN) as Hnan
      by (intros b Hb ->; discriminate Hb).
  split; [|split].
  - intros lo hi Hr Hle Hv.
    assert (v <> NaN) as N by (destruct Hv as [H|H]; exact (Hnan _ H)).
    rewrite (values_with_entry d before after v N) in R'.
    rewrite R, R', Hr, !count_if_app, count_if_cons.
    assert (outside_range lo hi v = false) as ->; [|lia].
    unfold outside_range. destruct Hv as [H|H].
    + now rewrite (num_eqb_not_ltb _ _ H), (lower_bound_not_gtb _ _ _ Hle H).
    + now rewrite (upper_bound_not_ltb _ _ _ Hle H), (num_eqb_not_gtb _ _ H).
  - intros b Hb Hv.
    rewrite (values_with_entry d before after v (Hnan _ Hv)) in G'.
    rewrite G, G', Hb, !count_if_app, count_if_cons.
    unfold below at 2. rewrite (num_eqb_not_ltb _ _ Hv). lia.
  - intros b Hb Hv.
    rewrite (values_with_entry d before after v (Hnan _ Hv)) in T'.
    rewrite T, T', Hb, !count_if_app, count_if_cons.
    unfold not_above at 2. rewrite (num_eqb_leb _ _ Hv). lia.
Qed.

(** Ages 30 and 70, and the same with the age 18 between them. *)
Definition ages_df (ages : list Z) : DataFrame :=
  {| index_len := List.length ages;
     columns := [("age", Examples.ints ages)] |}.

Definition adult_spec : ColSpec :=
  {| dtype := Some "int"; allow_null := None;
     range := Some (Fin 18, Fin 65); ge := Some (Fin 18);
     gt := Some (Fin 18); allowed := None |}.

Lemma bounds_inclusivity_witness :
  exists r new r' new',
    validate_numeric_range (ages_df [30; 70]%Z) "age" adult_spec []
    = (inr r, [] ++ new) /\
    validate_numeric_range (ages_df [30; 18; 70]%Z) "age" adult_spec []
    = (inr r', [] ++ new') /\
    counted "range" new' = counted "range" new /\
    counted "ge" new' = counted "ge" new /\
    counted "gt" new' = S (counted "gt" new).
Proof.
  destruct (bounds_inclusivity
              (ages_df [30; 70]%Z) (ages_df [30; 18; 70]%Z) "age" adult_spec
              int64 [Examples.int_ 30] [Examples.int_ 70] (Fin 18) [])
    as [r [new [r' [new' [E [E' [R [G T]]]]]]]].
  - discriminate.
  - reflexivity.
  - reflexivity.
  - exists r, new, r', new'. split; [exact E|]. split; [exact E'|].
    split; [|split].
    + apply (R (Fin 18) (Fin 65)); [reflexivity | reflexivity |].
      left. reflexivity.
    + apply (G (Fin 18)); reflexivity.
    + apply (T (Fin 18)); reflexivity.
Defined.

(** ** The model on small datasets *)

(** Ages 17, 30, 70 under [range: [18, 65]]: one record, two values out
    of range, and the range found. *)
Example out_of_range_ages :
  validate_numeric_range
    {| index_len := 3; columns := [("age", Examples.ints [17; 30; 70]%Z)] |}
    "age"
    {| dtype := Some "int"; allow_null := None;
       range := Some (Fin 18, Fin 65); ge := None; gt := None;
       allowed := None |} []
  = (inr {| passed := false;
            issues := [OutsideRange "age" 2 (Fin 18) (Fin 65);
                       RangeFound (Fin 17) (Fin 70)] |},
     [{| check := "range"; column := "age"; violations := 2;
         extra_keys := RangeExtra (Fin 18, Fin 65) (Fin 17, Fin 70) |}]).
Proof. reflexivity. Qed.

(** Days 1, missing, 3 with nulls not allowed: one null, a third of the
    rows. *)
Example disallowed_null_day :
  validate_nulls [("Day", Examples.of_dtype "int")] Examples.null_df []
  = (inr {| nulls_passed := false;
            nulls_issues := [NullsNotAllowed "Day" 1 (Fin (100 # 3))];
            null_stats := [("Day", {| count := 1;
                                      percentage := Fin (100 # 3);
                                      stat_allow_null := false |})] |},
     [{| check := "null_constraint"; column := "Day"; violations := 1;
         extra_keys := PercentageExtra (Fin (100 # 3)) |}]).
Proof. reflexivity. Qed.

(** Prices 10, 20, 30 under [gt: 0] with distinct sessions: no violation,
    every result passes. *)
Example clean_prices :
  validate_all
    [("price", {| dtype := Some "float"; allow_null := None; range := None;
                  ge := None; gt := Some (Fin 0); allowed := None |})]
    {| index_len := 3;
       columns := [ ("Session_ID", Examples.ints [1; 2; 3]%Z);
                    ("Day", Examples.ints [1; 2; 3]%Z);
                    ("price", Examples.floats [Some (Fin 10); Some (Fin 20);
                                               Some (Fin 30)]) ] |} []
  = (inr {| primary_keys :=
              {| passed := true;
                 issues := [SessionUnique; SessionUniqueWithinDay] |};
            columns_results :=
              [("price", {| passed := true;
                            issues := [SatisfiesGt "price" (Fin 0)] |})];
            nulls := {| nulls_passed := true; nulls_issues := [];
                        null_stats :=
                          [("price", {| count := 0;
                                        percentage := Fin (0 # 3);
                                        stat_allow_null := false |})] |};
            finite_numbers := {| passed := true; issues := [AllFinite] |} |},
     []).
Proof. vm_compute. reflexivity. Qed.

(** A string column declared [int] with a bound: the comparison raises. *)
Example bound_on_strings_raises :
  validate_numeric_range Examples.device_df "device"
    {| dtype := Some "int"; allow_null := None; range := None;
       ge := Some (Fin 0); gt := None; allowed := None |} []
  = (inl TypeError, []).
Proof. reflexivity. Qed.

(** * Further properties of the validator *)

(** ** The key columns *)

(** Sessions 1, 1, 2 and no [Day] column. *)
Definition no_day_df : DataFrame :=
  {| index_len := 3;
     columns := [ ("Session_ID", Examples.ints [1; 1; 2]%Z) ] |}.

(** X1.  The key columns are required, whatever the contract: without
    [Session_ID] a run raises [KeyError('Session_ID')] and leaves
    [self.violations] as it was; with [Session_ID] but without [Day] it
    raises [KeyError('Day')], and the record of the global duplicates, if
    there are any, has been appended by then. *)
Theorem key_columns_required
        (c : Contract) (df : DataFrame) (vs : list violation) :
  (df_get df "Session_ID" = None ->
   validate_all c df vs = (inl (KeyError "Session_ID"), vs)) /\
  (forall session,
      df_get df "Session_ID" = Some session ->
      df_get df "Day" = None ->
      validate_all c df vs
      = (inl (KeyError "Day"),
         vs ++ (if 0 <? duplicated_sum (cells session)
                then [{| check := "primary_key_global";
                         column := "Session_ID";
                         violations := duplicated_sum (cells session);
                         extra_keys := NoExtra |}]
                else []))).
Proof.
  split.
  - intros Hs. unfold validate_all, validate_primary_keys, getitem, bind.
    now rewrite Hs.
  - intros session Hs Hd.
    unfold validate_all, validate_primary_keys, getitem, bind.
    rewrite Hs, Hd. unfold ret, raise, append_violation.
    destruct (0 <? duplicated_sum (cells session)); simpl;
      now rewrite ?app_nil_r.
Qed.

Lemma key_columns_required_witness :
  validate_all [] no_day_df []
  = (inl (KeyError "Day"),
     [{| check := "primary_key_global"; column := "Session_ID";
         violations := 1; extra_keys := NoExtra |}]).
Proof.
  exact (proj2 (key_columns_required [] no_day_df [])
               (Examples.ints [1; 1; 2]%Z) eq_refl eq_refl).
Defined.

(** Rows picked out of a column keep the property that no entry is the
    same as an earlier one. *)
Lemma picked_rows_forall {A : Type} (keep : A * cell -> bool)
      (Q : cell -> Prop) (bs : list A) :
  forall xs, Forall Q xs -> Forall Q (map snd (filter keep (combine bs xs))).
Proof.
  induction bs as [|b bs IH]; intros [|x xs] H; simpl; try constructor.
  inversion H; subst. destruct (keep (b, x)); simpl; auto.
Qed.

Lemma picked_rows_distinct {A : Type} (keep : A * cell -> bool)
      (bs : list A) :
  forall xs,
    ForallOrdPairs (fun a b => cell_same b a = false) xs ->
    ForallOrdPairs (fun a b => cell_same b a = false)
                   (map snd (filter keep (combine bs xs))).
Proof.
  induction bs as [|b bs IH]; intros [|x xs] H; simpl; try constructor.
  inversion H as [|? ? Hx Hxs]; subst.
  destruct (keep (b, x)); simpl; [|now apply IH].
  constructor; [|now apply IH]. now apply picked_rows_forall.
Qed.

Lemma group_rows_distinct (key : value) (by_cells col_cells : list cell) :
  ForallOrdPairs (fun a b => cell_same b a = false) col_cells ->
  ForallOrdPairs (fun a b => cell_same b a = false)
                 (group_rows key by_cells col_cells).
Proof. unfold group_rows. apply picked_rows_distinct. Qed.

Lemma sum_counts_zero (kvs : list (value * nat)) :
  (forall kv, In kv kvs -> snd kv = 0) -> sum_counts kvs = 0.
Proof.
  unfold sum_counts. induction kvs as [|kv kvs IH]; simpl; intros H; trivial.
  rewrite (H kv) by auto. rewrite IH; auto.
Qed.

(** X2.  Identifiers that are unique over the whole dataset are unique
    within every day: when no [Session_ID] repeats an earlier one, the
    count within the days is zero as well, both [Session_ID] checks
    report success, and the only record the primary-key check can append
    is the one about the [id] column. *)
Theorem unique_sessions_unique_within_days
        (df : DataFrame) (session day : Series) (vs : list violation) :
  df_get df "Session_ID" = Some session ->
  df_get df "Day" = Some day ->
  duplicated_sum (cells session) = 0 ->
  sum_counts (groupby_duplicated_sum (cells day) (cells session)) = 0 /\
  exists r new,
    validate_primary_keys df vs = (inr r, vs ++ new) /\
    In SessionUnique (issues r) /\
    In SessionUniqueWithinDay (issues r) /\
    forall v, In v new -> check v = "id_uniqueness".
Proof.
  intros Hs Hd Hg.
  assert (sum_counts (groupby_duplicated_sum (cells day) (cells session)) = 0)
    as Hday.
  { apply sum_counts_zero. intros kv I. unfold groupby_duplicated_sum in I.
    apply in_map_iff in I. destruct I as [key [<- _]]. simpl.
    apply duplicated_sum_zero, group_rows_distinct.
    now apply duplicated_sum_zero. }
  split; [exact Hday|].
  rewrite (framed_validate_primary_keys df vs).
  unfold validate_primary_keys, getitem, has_column, bind.
  rewrite Hs, Hd. unfold ret, raise, append_violation. cbv beta iota.
  rewrite Hg, Hday. simpl.
  destruct (df_get df "id") as [id|];
    [destruct (0 <? duplicated_sum (cells id))|];
    do 2 eexists; (split; [reflexivity|]); simpl;
    repeat split; auto; intros v Hv; simpl in Hv;
    intuition (subst; reflexivity).
Qed.

Lemma unique_sessions_unique_within_days_witness :
  exists r new,
    validate_primary_keys Examples.clean_df [] = (inr r, [] ++ new) /\
    In SessionUnique (issues r) /\
    In SessionUniqueWithinDay (issues r).
Proof.
  destruct (unique_sessions_unique_within_days Examples.clean_df
              (Examples.ints [1; 2; 3]%Z) (Examples.ints [1; 1; 2]%Z) []
              eq_refl eq_refl eq_refl) as [_ [r [new [E [A [B _]]]]]].
  exists r, new. auto.
Defined.

(** ** The numeric check on a whole column *)

(** Whether the specification has any of [range], [ge], [gt]. *)
Definition has_bound (spec : ColSpec) : bool :=
  match range spec, ge spec, gt spec with
  | None, None, None => false
  | _, _, _ => true
  end.

(** A column of strings with a value, and one with missing entries
    only. *)
Definition words_df : DataFrame :=
  {| index_len := 2;
     columns := [ ("word", Examples.strings [Some "a"; None]);
                  ("empty", Examples.strings [None; None]) ] |}.

Definition ge_zero : ColSpec :=
  {| dtype := Some "int"; allow_null := None; range := None;
     ge := Some (Fin 0); gt := None; allowed := None |}.

Lemma validate_numeric_range_unorderable
      (df : DataFrame) (col : string) (spec : ColSpec) (s : Series)
      (vs : list violation) :
  df_get df col = Some s ->
  dropna s <> [] ->
  orderable s = false ->
  validate_numeric_range df col spec vs
  = if has_bound spec then (inl TypeError, vs) else (inr new_result, vs).
Proof.
  intros Hs Hv Ho. unfold validate_numeric_range, has_bound. rewrite Hs.
  destruct (dropna s) as [|v0 rest]; [congruence|].
  unfold check_range, check_ge, check_gt.
  destruct (range spec) as [[lo hi]|], (ge spec) as [b1|],
    (gt spec) as [b2|];
    unfold bind, ret;
    repeat (rewrite (ordered_values_raises s) by exact Ho);
    reflexivity.
Qed.

(** Whether the column stores strings. *)
Definition holds_strings (s : Series) : bool :=
  match data s with
  | Strs _ => true
  | Nums _ => false
  end.

Lemma holds_strings_unorderable (s : Series) :
  holds_strings s = true -> orderable s = false.
Proof. unfold holds_strings, orderable. now destruct (data s). Qed.

Lemma not_categorical_orderable (s : Series) :
  dtype_of s <> category -> orderable s = negb (holds_strings s).
Proof.
  unfold holds_strings, orderable. intros H.
  destruct (data s); trivial. destruct (dtype_of s); trivial. congruence.
Qed.

(** X3.  On a column the dataset has and that is not categorical,
    [validate_numeric_range] raises exactly when the column stores
    strings, has an entry that is not missing, and the specification has
    one of [range], [ge], [gt]; what it raises is [TypeError], before
    anything is appended to [self.violations]. *)
Theorem numeric_range_raises
        (df : DataFrame) (col : string) (spec : ColSpec) (s : Series)
        (vs : list violation) :
  df_get df col = Some s ->
  dtype_of s <> category ->
  ((exists e vs', validate_numeric_range df col spec vs = (inl e, vs')) <->
   dropna s <> [] /\ holds_strings s = true /\ has_bound spec = true) /\
  (forall e vs',
      validate_numeric_range df col spec vs = (inl e, vs') ->
      e = TypeError /\ vs' = vs).
Proof.
  intros Hs Hc. pose proof (not_categorical_orderable s Hc) as Hord.
  destruct (dropna s) as [|v0 rest] eqn:D.
  - unfold validate_numeric_range. rewrite Hs, D. unfold ret.
    split; [split|]; [intros [e [vs' H]] | intros [H _] | intros e vs' H];
      first [discriminate H | congruence].
  - destruct (holds_strings s) eqn:Hstr; simpl in Hord.
    + rewrite (validate_numeric_range_unorderable df col spec s vs Hs)
        by (trivial; rewrite D; discriminate).
      destruct (has_bound spec).
      * split; [split|].
        -- intros _. repeat split. discriminate.
        -- intros _. eauto.
        -- intros e vs' H. inversion H. auto.
      * split; [split|].
        -- intros [e [vs' H]]. discriminate H.
        -- intros [_ [_ H]]. discriminate H.
        -- intros e vs' H. discriminate H.
    + pose proof (validate_numeric_range_eq df col spec s vs Hs Hord) as E.
      rewrite D in E. specialize (E ltac:(discriminate)). cbv zeta in E.
      destruct (range_part _ _ _) as [[ok1 is1] vio1].
      destruct (ge_part _ _ _) as [[ok2 is2] vio2].
      destruct (gt_part _ _ _) as [[ok3 is3] vio3].
      rewrite E.
      split; [split|]; [intros [e [vs' H]] | intros [_ [H _]] | intros e vs' H];
        discriminate H.
Qed.

Lemma numeric_range_raises_witness :
  validate_numeric_range words_df "word" ge_zero [] = (inl TypeError, []).
Proof.
  destruct (numeric_range_raises words_df "word" ge_zero
              (Examples.strings [Some "a"; None]) [] eq_refl) as [[_ R] T].
  - discriminate.
  - destruct R as [e [vs' H]].
    + repeat split. discriminate.
    + destruct (T e vs' H) as [-> ->]. exact H.
Defined.

Lemma dropna_cells_all_missing (cs : list cell) :
  (forall c, In c cs -> isna c = true) -> dropna_cells cs = [].
Proof.
  induction cs as [|c cs IH]; simpl; intros H; trivial.
  rewrite (H c) by auto. apply IH. auto.
Qed.

(** X4.  On a column all of whose entries are missing (a column without
    rows among them), [validate_numeric_range] passes with the one issue
    that all values are null and appends nothing, whatever bounds the
    specification has and whatever the column stores: no comparison is
    made, so nothing is raised either. *)
Theorem numeric_range_all_missing
        (df : DataFrame) (col : string) (spec : ColSpec) (s : Series)
        (vs : list violation) :
  df_get df col = Some s ->
  (forall c, In c (cells s) -> isna c = true) ->
  validate_numeric_range df col spec vs
  = (inr {| passed := true; issues := [AllNull col] |}, vs).
Proof.
  intros Hs Hall. unfold validate_numeric_range. rewrite Hs.
  unfold dropna. now rewrite (dropna_cells_all_missing _ Hall).
Qed.

Lemma numeric_range_all_missing_witness :
  validate_numeric_range words_df "empty" ge_zero []
  = (inr {| passed := true; issues := [AllNull "empty"] |}, []).
Proof.
  apply (numeric_range_all_missing words_df "empty" ge_zero
           (Examples.strings [None; None]) [] eq_refl).
  intros c [<-|[<-|[]]]; reflexivity.
Defined.

(** What a constraint's part says about the values. *)
Lemma range_part_spec (col : string) (values : list num)
      (bounds : option (num * num)) :
  let '(ok, _, vio) := range_part col values bounds in
  (ok = true <-> vio = []) /\
  (ok = true <->
   forall lo hi, bounds = Some (lo, hi) ->
                 forall v, In v values -> outside_range lo hi v = false) /\
  List.length vio <= 1 /\
  forall rec, In rec vio ->
              column rec = col /\ check rec = "range" /\ 0 < violations rec.
Proof.
  unfold range_part. destruct bounds as [[lo hi]|].
  - cbv zeta. destruct (0 <? _) eqn:L.
    + split; [split; discriminate|].
      split; [split; [discriminate|]|].
      * intros H. specialize (H lo hi eq_refl).
        apply count_if_zero in H. congruence.
      * split; [simpl; lia|]. intros rec [<-|[]]. simpl.
        repeat split. now apply Nat.ltb_lt.
    + split; [tauto|].
      split; [split; [|trivial]|].
      * intros _ lo' hi' E. inversion E; subst.
        now apply count_if_zero.
      * split; [simpl; lia|]. intros rec [].
  - split; [tauto|]. split; [split; [discriminate|trivial]|].
    split; [simpl; lia|]. intros rec [].
Qed.

Lemma ge_part_spec (col : string) (values : list num) (bound : option num) :
  let '(ok, _, vio) := ge_part col values bound in
  (ok = true <-> vio = []) /\
  (ok = true <->
   forall b, bound = Some b -> forall v, In v values -> below b v = false) /\
  List.length vio <= 1 /\
  forall rec, In rec vio ->
              column rec = col /\ check rec = "ge" /\ 0 < violations rec.
Proof.
  unfold ge_part. destruct bound as [b|].
  - cbv zeta. destruct (0 <? _) eqn:L.
    + split; [split; discriminate|].
      split; [split; [discriminate|]|].
      * intros H. specialize (H b eq_refl).
        apply count_if_zero in H. congruence.
      * split; [simpl; lia|]. intros rec [<-|[]]. simpl.
        repeat split. now apply Nat.ltb_lt.
    + split; [tauto|].
      split; [split; [|trivial]|].
      * intros _ b' E. inversion E; subst.
        now apply count_if_zero.
      * split; [simpl; lia|]. intros rec [].
  - split; [tauto|]. split; [split; [discriminate|trivial]|].
    split; [simpl; lia|]. intros rec [].
Qed.

Lemma gt_part_spec (col : string) (values : list num) (bound : option num) :
  let '(ok, _, vio) := gt_part col values bound in
  (ok = true <-> vio = []) /\
  (ok = true <->
   forall b, bound = Some b -> forall v, In v values -> not_above b v = false) /\
  List.length vio <= 1 /\
  forall rec, In rec vio ->
              column rec = col /\ check rec = "gt" /\ 0 < violations rec.
Proof.
  unfold gt_part. destruct bound as [b|].
  - cbv zeta. destruct (0 <? _) eqn:L.
    + split; [split; discriminate|].
      split; [split; [discriminate|]|].
      * intros H. specialize (H b eq_refl).
        apply count_if_zero in H. congruence.
      * split; [simpl; lia|]. intros rec [<-|[]]. simpl.
        repeat split. now apply Nat.ltb_lt.
    + split; [tauto|].
      split; [split; [|trivial]|].
      * intros _ b' E. inversion E; subst.
        now apply count_if_zero.
      * split; [simpl; lia|]. intros rec [].
  - split; [tauto|]. split; [split; [discriminate|trivial]|].
    split; [simpl; lia|]. intros rec [].
Qed.

(** X5.  On a column of numbers that is not categorical and has values,
    [validate_numeric_range] returns, and it passes exactly when it
    appends no record: a constraint that fails leaves its record.  It
    appends at most three records, one for each constraint violated, each
    for this column, of check [range], [ge] or [gt], and with a positive
    count. *)
Theorem numeric_range_verdict
        (df : DataFrame) (col : string) (spec : ColSpec) (s : Series)
        (vs : list violation) :
  df_get df col = Some s ->
  orderable s = true ->
  dropna s <> [] ->
  exists r new,
    validate_numeric_range df col spec vs = (inr r, vs ++ new) /\
    (passed r = true <-> new = []) /\
    List.length new <= 3 /\
    forall rec, In rec new ->
                column rec = col /\
                In (check rec) ["range"; "ge"; "gt"] /\
                0 < violations rec.
Proof.
  intros Hs Ho Hv.
  pose proof (validate_numeric_range_eq df col spec s vs Hs Ho Hv) as E.
  cbv zeta in E.
  pose proof (range_part_spec col (nums_of (dropna s)) (range spec)) as P1.
  pose proof (ge_part_spec col (nums_of (dropna s)) (ge spec)) as P2.
  pose proof (gt_part_spec col (nums_of (dropna s)) (gt spec)) as P3.
  destruct (range_part _ _ _) as [[ok1 is1] vio1].
  destruct (ge_part _ _ _) as [[ok2 is2] vio2].
  destruct (gt_part _ _ _) as [[ok3 is3] vio3].
  destruct P1 as [A1 [B1 [C1 D1]]], P2 as [A2 [B2 [C2 D2]]],
    P3 as [A3 [B3 [C3 D3]]].
  do 2 eexists. split; [exact E|]. simpl.
  rewrite !andb_true_iff. split; [|split].
  - rewrite A1, A2, A3. split.
    + intros [[-> ->] ->]. reflexivity.
    + intros H. apply app_eq_nil in H. destruct H as [-> H].
      apply app_eq_nil in H. destruct H as [-> ->]. auto.
  - rewrite !length_app. lia.
  - intros rec I. apply in_app_or in I. destruct I as [I|I].
    + destruct (D1 rec I) as [Hc [-> Hp]]. simpl. tauto.
    + apply in_app_or in I. destruct I as [I|I].
      * destruct (D2 rec I) as [Hc [-> Hp]]. simpl. tauto.
      * destruct (D3 rec I) as [Hc [-> Hp]]. simpl. tauto.
Qed.

Lemma numeric_range_verdict_witness :
  exists r new,
    validate_numeric_range Examples.clean_df "Age"
      {| dtype := Some "int"; allow_null := None;
         range := Some (Fin 18, Fin 65); ge := None; gt := None;
         allowed := None |} []
    = (inr r, [] ++ new) /\
    (passed r = true <-> new = []).
Proof.
  destruct (numeric_range_verdict Examples.clean_df "Age"
              {| dtype := Some "int"; allow_null := None;
                 range := Some (Fin 18, Fin 65); ge := None; gt := None;
                 allowed := None |}
              (Examples.ints [20; 30; 40]%Z) [] eq_refl eq_refl)
    as [r [new [E [P _]]]].
  - discriminate.
  - exists r, new. split; [exact E | exact P].
Defined.

(** X6.  The range reported with a range violation is the real one: the
    minimum and the maximum in the record are values of the column, every
    value lies between them, and they do not both lie within the bounds
    (the minimum is below [lo] or the maximum above [hi]). *)
Theorem range_found_is_outside
        (df : DataFrame) (col : string) (spec : ColSpec) (s : Series)
        (lo hi : num) (vs : list violation) :
  df_get df col = Some s ->
  orderable s = true ->
  range spec = Some (lo, hi) ->
  exists r new,
    validate_numeric_range df col spec vs = (inr r, vs ++ new) /\
    forall rec,
      In rec new -> check rec = "range" ->
      exists mn mx,
        extra_keys rec = RangeExtra (lo, hi) (mn, mx) /\
        In mn (nums_of (dropna s)) /\
        In mx (nums_of (dropna s)) /\
        (forall v, In v (nums_of (dropna s)) ->
                   num_leb mn v = true /\ num_leb v mx = true) /\
        (num_ltb mn lo = true \/ num_gtb mx hi = true).
Proof.
  intros Hs Ho Hr.
  destruct (dropna s) as [|v0 rest] eqn:D.
  - exists {| passed := true; issues := [AllNull col] |}, [].
    unfold validate_numeric_range. rewrite Hs, D. unfold ret.
    rewrite app_nil_r. split; [reflexivity | intros ? []].
  - pose proof (validate_numeric_range_eq df col spec s vs Hs Ho) as E.
    rewrite D in E. specialize (E ltac:(discriminate)). cbv zeta in E.
    assert (forall x, In x (nums_of (v0 :: rest)) -> x <> NaN) as Hnan.
    { intros x I. apply (nums_of_dropna_not_nan s). now rewrite D. }
    remember (nums_of (v0 :: rest)) as values eqn:N.
    pose proof (ge_part_spec col values (ge spec)) as P2.
    pose proof (gt_part_spec col values (gt spec)) as P3.
    unfold range_part in E. rewrite Hr in E. cbv zeta in E.
    destruct (ge_part _ _ _) as [[ok2 is2] vio2].
    destruct (gt_part _ _ _) as [[ok3 is3] vio3].
    destruct P2 as [_ [_ [_ D2]]], P3 as [_ [_ [_ D3]]].
    destruct (0 <? count_if (outside_range lo hi) values) eqn:L.
    + do 2 eexists. split; [exact E|]. intros rec I Hc.
      simpl in I. destruct I as [<-|I].
      * apply Nat.ltb_lt, count_if_pos in L. destruct L as [w [Iw Ow]].
        destruct values as [|x xs]; [destruct Iw|].
        destruct (fold_num_min xs x Hnan) as [Imin Lmin].
        destruct (fold_num_max xs x Hnan) as [Imax Lmax].
        exists (fold_left num_min xs x), (fold_left num_max xs x).
        split; [reflexivity|]. split; [exact Imin|]. split; [exact Imax|].
        split; [intros v Iv; split; auto|].
        unfold outside_range in Ow. apply orb_true_iff in Ow.
        destruct Ow as [Ow|Ow].
        -- left. apply (num_leb_ltb_trans _ w); auto.
        -- right. unfold num_gtb in *.
           apply (num_ltb_leb_trans _ w); auto.
      * exfalso. apply in_app_or in I. destruct I as [I|I].
        -- destruct (D2 rec I) as [_ [H _]]. congruence.
        -- destruct (D3 rec I) as [_ [H _]]. congruence.
    + do 2 eexists. split; [exact E|]. intros rec I Hc. exfalso.
      simpl in I. apply in_app_or in I. destruct I as [I|I].
      * destruct (D2 rec I) as [_ [H _]]. congruence.
      * destruct (D3 rec I) as [_ [H _]]. congruence.
Qed.

Lemma range_found_is_outside_witness :
  exists r new,
    validate_numeric_range
      {| index_len := 3; columns := [("age", Examples.ints [17; 30; 70]%Z)] |}
      "age"
      {| dtype := Some "int"; allow_null := None;
         range := Some (Fin 18, Fin 65); ge := None; gt := None;
         allowed := None |} []
    = (inr r, [] ++ new).
Proof.
  destruct (range_found_is_outside
              {| index_len := 3;
                 columns := [("age", Examples.ints [17; 30; 70]%Z)] |}
              "age"
              {| dtype := Some "int"; allow_null := None;
                 range := Some (Fin 18, Fin 65); ge := None; gt := None;
                 allowed := None |}
              (Examples.ints [17; 30; 70]%Z) (Fin 18) (Fin 65) []
              eq_refl eq_refl eq_refl) as [r [new [E _]]].
  exists r, new. exact E.
Defined.

(** ** The dtype table *)

(** X7.  How the tags of [dtype_mapping] relate on one column: whatever
    passes as [string] passes as [category]; whatever passes as [int] or
    as [float] is of a dtype the finite-number check scans; and no column
    passes under two of the tags [int], [float], [string], [bool]. *)
Theorem dtype_tags_relate (df : DataFrame) (col : string) (s : Series) :
  df_get df col = Some s ->
  let ok tag := passed (validate_dtype df col tag) in
  (ok "string" = true -> ok "category" = true) /\
  (ok "int" = true \/ ok "float" = true -> is_number (dtype_of s) = true) /\
  (ok "int" && ok "float" = false) /\
  (ok "int" && ok "string" = false) /\
  (ok "int" && ok "bool" = false) /\
  (ok "float" && ok "string" = false) /\
  (ok "float" && ok "bool" = false) /\
  (ok "string" && ok "bool" = false).
Proof.
  intros Hs ok. subst ok. unfold validate_dtype. rewrite Hs.
  destruct (dtype_of s); simpl; repeat split; trivial;
    try discriminate; intros [H|H]; discriminate H.
Qed.

Lemma dtype_tags_relate_witness :
  passed (validate_dtype Examples.device_df "device" "category") = true.
Proof.
  exact (proj1 (dtype_tags_relate Examples.device_df "device"
                  (Examples.strings [Some "Mobile"; Some "Phone"]) eq_refl)
               eq_refl).
Defined.

(** ** The dictionaries of a run *)

Lemma set_stat_keys (df : DataFrame) (items : Contract) :
  forall d,
    NoDup (map fst items) ->
    (forall k, In k (map fst items) -> ~ In k (map fst d)) ->
    map fst (fold_left (set_stat df) items d)
    = map fst d ++ filter (has_column df) (map fst items).
Proof.
  induction items as [|[col spec] rest IH]; intros d ND Hd; simpl.
  - now rewrite app_nil_r.
  - inversion ND as [|? ? Hnotin ND']; subst.
    unfold set_stat at 2, has_column at 1. simpl.
    destruct (df_get df col) as [s|].
    + rewrite IH; trivial.
      * rewrite dict_set_fresh by (apply Hd; now left).
        rewrite map_app. simpl. now rewrite <- app_assoc.
      * intros k Hk. rewrite dict_set_fresh by (apply Hd; now left).
        rewrite map_app, in_app_iff. simpl.
        intros [H|[<-|[]]]; [|tauto]. apply (Hd k); simpl; auto.
    + apply IH; trivial. intros k Hk. apply Hd. now right.
Qed.

(** X8.  The null statistics have one entry for each contract column the
    dataset has, in the order of the contract, and none for a column it
    lacks. *)
Theorem null_stats_keys
        (c : Contract) (df : DataFrame) (vs vs' : list violation)
        (r : NullsResult) :
  NoDup (map fst c) ->
  validate_nulls c df vs = (inr r, vs') ->
  map fst (null_stats r) = filter (has_column df) (map fst c).
Proof.
  intros ND H. unfold validate_nulls in H.
  rewrite validate_nulls_loop_eq in H. inversion H; subst. simpl.
  now rewrite set_stat_keys.
Qed.

Lemma null_stats_keys_witness :
  map fst
      (null_stats
         {| nulls_passed := false;
            nulls_issues := [NullsNotAllowed "Day" 1 (Fin (100 # 3))];
            null_stats := [("Day", {| count := 1;
                                      percentage := Fin (100 # 3);
                                      stat_allow_null := false |})] |})
  = filter (has_column Examples.null_df) (map fst [("Ghost", Examples.empty_spec);
                                                   ("Day", Examples.of_dtype "int")]).
Proof.
  apply (null_stats_keys
           [("Ghost", Examples.empty_spec); ("Day", Examples.of_dtype "int")]
           Examples.null_df [] 
           [{| check := "null_constraint"; column := "Day"; violations := 1;
               extra_keys := PercentageExtra (Fin (100 # 3)) |}]).
  - repeat constructor; simpl; intuition discriminate.
  - reflexivity.
Defined.

Lemma isna_sum_le (s : Series) : isna_sum s <= List.length (cells s).
Proof. unfold isna_sum. apply filter_length_le. Qed.

(** X9.  On a dataset with rows, for a column as long as the index, the
    null percentage is a number between 0 and 100, and it is 0 exactly
    when the column has no missing entry. *)
Theorem null_percentage_bounds (df : DataFrame) (s : Series) :
  index_len df <> 0 ->
  List.length (cells s) = index_len df ->
  exists q,
    scale (true_divide (isna_sum s) (index_len df)) 100 = Fin q /\
    (0 <= q)%Q /\ (q <= 100)%Q /\
    ((q == 0)%Q <-> isna_sum s = 0).
Proof.
  intros Hlen Hrect. pose proof (isna_sum_le s) as Hle. rewrite Hrect in Hle.
  unfold true_divide. destruct (index_len df) as [|n] eqn:E; [congruence|].
  eexists. split; [reflexivity|].
  assert (Z.pos (Pos.of_nat (S n)) = Z.of_nat (S n)) as Hpos.
  { rewrite <- Pos.of_nat_succ, Zpos_P_of_succ_nat. lia. }
  unfold Qle, Qeq, Qmult. cbn [Qnum Qden].
  rewrite Pos2Z.inj_mul, Hpos. repeat split; nia.
Qed.

Lemma null_percentage_bounds_witness :
  exists q,
    scale (true_divide
             (isna_sum (mkSeries Int64
                          (Nums [Examples.int_ 1; None; Examples.int_ 3])))
             (index_len Examples.null_df)) 100 = Fin q /\
    (0 <= q)%Q /\ (q <= 100)%Q.
Proof.
  destruct (null_percentage_bounds Examples.null_df
              (mkSeries Int64 (Nums [Examples.int_ 1; None; Examples.int_ 3])))
    as [q [E [L [U _]]]].
  - discriminate.
  - reflexivity.
  - exists q. auto.
Defined.

(** X10.  The result of [validate_finite_numbers] always has an issue: the
    message that all is finite exactly when the check passes, and the
    check passes exactly when it appends no record. *)
Theorem finite_check_summary
        (df : DataFrame) (vs vs' : list violation) (r : Result) :
  validate_finite_numbers df vs = (inr r, vs') ->
  issues r <> [] /\
  (In AllFinite (issues r) <-> passed r = true) /\
  (passed r = true <-> vs' = vs).
Proof.
  unfold validate_finite_numbers, bind.
  rewrite validate_finite_loop_eq by apply numeric_columns_in.
  cbv beta iota. rewrite andb_true_l.
  set (cols := numeric_columns df).
  assert (forallb (inf_free df) cols = true ->
          flat_map (inf_violations_of df) cols = []
          /\ flat_map (inf_issues_of df) cols = []) as Hquiet.
  { intros F. rewrite forallb_forall in F.
    induction cols as [|col rest IH]; simpl; [auto|].
    assert (inf_free df col = true) as Fc by (apply F; now left).
    destruct IH as [-> ->]; [intros; apply F; now right|].
    unfold inf_free in Fc. unfold inf_violations_of, inf_issues_of.
    destruct (df_get df col) as [s|]; [|auto].
    apply negb_true_iff in Fc. rewrite Fc. auto. }
  assert (forallb (inf_free df) cols = false ->
          flat_map (inf_violations_of df) cols <> []
          /\ flat_map (inf_issues_of df) cols <> []) as Hloud.
  { intros F. clear Hquiet.
    induction cols as [|col rest IH]; simpl in *; [discriminate|].
    unfold inf_free in F at 1. unfold inf_violations_of at 1, inf_issues_of at 1.
    destruct (df_get df col) as [s|]; simpl in F; [|auto].
    destruct (0 <? isinf_sum s); simpl in *; [split; discriminate | auto]. }
  destruct (forallb (inf_free df) cols) eqn:F; unfold ret; intros H;
    inversion H; subst; simpl.
  - destruct (Hquiet eq_refl) as [-> ->]. simpl. rewrite app_nil_r.
    repeat split; auto; discriminate.
  - destruct (Hloud eq_refl) as [Hv Hi]. split; [exact Hi|]. split.
    + split; [|discriminate]. intros I. exfalso.
      apply in_flat_map in I. destruct I as [col [_ I]].
      unfold inf_issues_of in I. destruct (df_get df col); [|destruct I].
      destruct (0 <? _); [destruct I as [I|[]]; discriminate I | destruct I].
    + split; [discriminate|]. intros E. exfalso. apply Hv.
      apply (app_inv_head vs). now rewrite app_nil_r.
Qed.

Lemma finite_check_summary_witness :
  In AllFinite (issues {| passed := true; issues := [AllFinite] |})
  <-> passed {| passed := true; issues := [AllFinite] |} = true.
Proof.
  exact (proj1 (proj2 (finite_check_summary Examples.nan_df [] []
                         {| passed := true; issues := [AllFinite] |}
                         eq_refl))).
Defined.

Lemma validate_columns_keys (df : DataFrame) (items : Contract) :
  forall cols vs r vs',
    NoDup (map fst items) ->
    (forall k, In k (map fst items) -> ~ In k (map fst cols)) ->
    validate_columns df items cols vs = (inr r, vs') ->
    map fst r = map fst cols ++ map fst items.
Proof.
  induction items as [|[c sp] rest IH]; intros cols vs r vs' ND Hd Hrun.
  - simpl in Hrun. inversion Hrun; subst. simpl. now rewrite app_nil_r.
  - simpl in ND. inversion ND as [|? ? Hnotin ND']; subst.
    assert (forall v : Result,
               forall k, In k (map fst rest) ->
                         ~ In k (map fst (dict_set cols c v))) as Hd'.
    { intros v k Hk. rewrite dict_set_fresh by (apply Hd; now left).
      rewrite map_app, in_app_iff. simpl.
      intros [H|[<-|[]]]; [|tauto]. apply (Hd k); simpl; auto. }
    assert (forall v : Result,
               map fst (dict_set cols c v) ++ map fst rest
               = map fst cols ++ c :: map fst rest) as Hkeys.
    { intros v. rewrite dict_set_fresh by (apply Hd; now left).
      rewrite map_app. simpl. now rewrite <- app_assoc. }
    simpl in Hrun. destruct (negb (has_column df c)).
    + rewrite (IH _ _ _ _ ND' (Hd' _) Hrun). apply Hkeys.
    + unfold bind in Hrun at 1.
      destruct (validate_column df c sp vs) as [[e|cr] vs1]; [discriminate|].
      rewrite (IH _ _ _ _ ND' (Hd' _) Hrun). apply Hkeys.
Qed.

(** X11.  A run that returns gives every contract column one result, in
    the order of the contract, and gives no other column a result. *)
Theorem column_results_keys
        (c : Contract) (df : DataFrame) (vs vs' : list violation)
        (r : AllResults) :
  NoDup (map fst c) ->
  validate_all c df vs = (inr r, vs') ->
  map fst (columns_results r) = map fst c.
Proof.
  intros ND H. destruct (validate_all_columns _ _ _ _ _ H) as [v1 Hcols].
  apply (validate_columns_keys df c [] v1 _ vs' ND); [|exact Hcols].
  intros k _ [].
Qed.

Lemma column_results_keys_witness :
  map fst (columns_results Examples.age_as_string_results)
  = map fst [("Age", Examples.of_dtype "string")].
Proof.
  apply (column_results_keys [("Age", Examples.of_dtype "string")]
           Examples.clean_df [] []).
  - repeat constructor. simpl. tauto.
  - vm_compute. reflexivity.
Defined.

(** ** The branches for a column that is not found *)

Lemma In_dict_set {A : Type} (d : list (string * A)) (k k0 : string)
      (v v0 : A) :
  In (k0, v0) (dict_set d k v) -> (k0, v0) = (k, v) \/ In (k0, v0) d.
Proof.
  induction d as [|[k' v'] d IH]; simpl.
  - intros [H|[]]. now left.
  - destruct (String.eqb k k'); simpl.
    + intros [H|H]; auto.
    + intros [H|H]; auto. destruct (IH H); auto.
Qed.

(** An issue of one of the checks of a column. *)
Definition not_found_free (r : Result) : Prop :=
  forall k, ~ In (NotFound k) (issues r).

Lemma merge_not_found_free (a b : Result) :
  not_found_free a -> not_found_free b -> not_found_free (merge a b).
Proof.
  intros Ha Hb k. rewrite merge_issues, in_app_iff.
  intros [H|H]; [apply (Ha k H) | apply (Hb k H)].
Qed.

Lemma validate_dtype_found (df : DataFrame) (col expected : string) :
  has_column df col = true ->
  not_found_free (validate_dtype df col expected).
Proof.
  unfold has_column, validate_dtype. destruct (df_get df col); [|discriminate].
  intros _ k. destruct (assoc expected dtype_mapping); [|intros []].
  destruct (negb _); simpl; [|tauto]. intros [H|[]]. discriminate H.
Qed.

Lemma validate_numeric_range_found
      (df : DataFrame) (col : string) (spec : ColSpec) vs r vs' :
  has_column df col = true ->
  validate_numeric_range df col spec vs = (inr r, vs') ->
  not_found_free r.
Proof.
  unfold has_column. destruct (df_get df col) as [s|] eqn:Hs; [|discriminate].
  intros _ H k.
  destruct (dropna s) as [|v0 rest] eqn:D.
  - unfold validate_numeric_range in H. rewrite Hs, D in H.
    inversion H; subst. simpl. intros [I|[]]. discriminate I.
  - destruct (orderable s) eqn:Ho.
    + pose proof (validate_numeric_range_eq df col spec s vs Hs Ho) as E.
      rewrite D in E. specialize (E ltac:(discriminate)). cbv zeta in E.
      unfold range_part, ge_part, gt_part in E.
      destruct (range spec) as [[lo hi]|], (ge spec) as [b1|],
        (gt spec) as [b2|]; cbv zeta in E;
        repeat match type of E with
               | context [0 <? ?n] => destruct (0 <? n)
               end;
        rewrite E in H; inversion H; subst; simpl;
        intuition discriminate.
    + rewrite (validate_numeric_range_unorderable df col spec s vs Hs) in H
        by (trivial; rewrite D; discriminate).
      destruct (has_bound spec); inversion H; subst. intros [].
Qed.

Lemma validate_categorical_found
      (df : DataFrame) (col : string) (spec : ColSpec) vs r vs' :
  has_column df col = true ->
  validate_categorical df col spec vs = (inr r, vs') ->
  not_found_free r.
Proof.
  unfold has_column, validate_categorical.
  destruct (df_get df col) as [s|]; [|discriminate].
  intros _ H k. destruct (allowed spec) as [l|];
    [|inversion H; subst; intros []].
  cbv zeta in H. unfold bind, ret, append_violation in H.
  destruct (set_diff (set_of (unique (dropna s))) (set_of (values_of l)));
    destruct (set_diff (set_of (values_of l)) (set_of (unique (dropna s))));
    inversion H; subst; simpl; intuition discriminate.
Qed.

Lemma validate_column_found
      (df : DataFrame) (col : string) (spec : ColSpec) vs r vs' :
  has_column df col = true ->
  validate_column df col spec vs = (inr r, vs') ->
  not_found_free r.
Proof.
  intros Hc. unfold validate_column, getitem_dtype.
  destruct (dtype spec) as [expected|]; [|discriminate].
  unfold bind, ret.
  assert (not_found_free (merge new_result (validate_dtype df col expected)))
    as H0.
  { apply merge_not_found_free; [intros k [] | now apply validate_dtype_found]. }
  set (r0 := merge new_result (validate_dtype df col expected)) in *.
  clearbody r0. intros H.
  destruct (str_in expected ["int"; "float"]);
    [destruct (validate_numeric_range df col spec vs) as [[?|rr] v1] eqn:E1;
     [discriminate|] |];
    (destruct (allowed spec);
     [match type of H with
      | context [validate_categorical ?a ?b ?c ?d] =>
          destruct (validate_categorical a b c d) as [[?|a0] v2] eqn:E2
      end; [discriminate|] |]);
    inversion H; subst;
    repeat apply merge_not_found_free; trivial;
    eauto using validate_numeric_range_found, validate_categorical_found.
Qed.

Lemma validate_columns_found (df : DataFrame) (items : Contract) :
  forall cols vs r vs',
    (forall col cr, In (col, cr) cols -> not_found_free cr) ->
    validate_columns df items cols vs = (inr r, vs') ->
    forall col cr, In (col, cr) r -> not_found_free cr.
Proof.
  induction items as [|[c sp] rest IH]; intros cols vs r vs' Hcols Hrun.
  - simpl in Hrun. now inversion Hrun; subst.
  - simpl in Hrun. destruct (has_column df c) eqn:Hc; simpl in Hrun.
    + unfold bind in Hrun at 1.
      destruct (validate_column df c sp vs) as [[e|cr0] vs1] eqn:E;
        [discriminate|].
      apply (IH (dict_set cols c cr0) vs1 r vs'); [|exact Hrun].
      intros col cr I. apply In_dict_set in I. destruct I as [I|I]; [|eauto].
      inversion I; subst.
      now apply (validate_column_found df c sp vs cr0 vs1).
    + apply (IH (dict_set cols c {| passed := false;
                                    issues := [Missing c] |}) vs r vs');
        [|exact Hrun].
      intros col cr I. apply In_dict_set in I. destruct I as [I|I]; [|eauto].
      inversion I; subst. intros k [H|[]]. discriminate H.
Qed.

(** X12.  The three checks of a column each begin by testing that the
    column is in the dataset, but [validate_all] has tested that before it
    calls them: in the results of a run no column result holds the issue
    that the column was not found (a column the dataset lacks gets the
    other message, that it is missing). *)
Theorem not_found_never_reported
        (c : Contract) (df : DataFrame) (vs vs' : list violation)
        (r : AllResults) :
  validate_all c df vs = (inr r, vs') ->
  forall col cr,
    In (col, cr) (columns_results r) ->
    forall k, ~ In (NotFound k) (issues cr).
Proof.
  intros H col cr I.
  destruct (validate_all_columns _ _ _ _ _ H) as [v1 Hcols].
  assert (not_found_free cr) as G; [|exact G].
  apply (validate_columns_found df c [] v1 (columns_results r) vs')
    with (col := col); trivial.
  intros ? ? [].
Qed.

Lemma not_found_never_reported_witness :
  ~ In (NotFound "Age")
       (issues {| passed := false;
                  issues := [DtypeMismatch "Age" "string" "int64"] |}).
Proof.
  apply (not_found_never_reported [("Age", Examples.of_dtype "string")]
           Examples.clean_df [] [] Examples.age_as_string_results)
    with (col := "Age").
  - vm_compute. reflexivity.
  - simpl. auto.
Defined.

(** ** The null policy and the column results *)

(** The specification with another value for [allow_null]. *)
Definition with_allow_null (b : option bool) (spec : ColSpec) : ColSpec :=
  {| dtype := dtype spec; allow_null := b; range := range spec;
     ge := ge spec; gt := gt spec; allowed := allowed spec |}.

(** The contract with [allow_null] chosen anew for every column. *)
Definition set_null_policy (f : string -> option bool) (c : Contract)
  : Contract :=
  map (fun kv => (fst kv, with_allow_null (f (fst kv)) (snd kv))) c.

Lemma framed_validate_finite_numbers (df : DataFrame) :
  framed (validate_finite_numbers df).
Proof.
  unfold validate_finite_numbers.
  pose proof (framed_validate_finite_loop df (numeric_columns df)).
  framed_auto.
Qed.

Lemma validate_columns_null_policy
      (df : DataFrame) (f : string -> option bool) (items : Contract) :
  forall cols vs,
    validate_columns df (set_null_policy f items) cols vs
    = validate_columns df items cols vs.
Proof.
  induction items as [|[k sp] rest IH]; intros cols vs; simpl; trivial.
  destruct (negb (has_column df k)); [apply IH|].
  change (validate_column df k (with_allow_null (f k) sp))
    with (validate_column df k sp).
  apply bind_ext. intros a vs1. apply IH.
Qed.

(** X13.  The column results do not look at the null policy: a run on
    the contract with [allow_null] changed in any way returns whenever the
    run on the contract returns, with the same column results and the
    same primary-key and finite-number results.  A column whose nulls are
    refused is failed in the null result only. *)
Theorem column_results_ignore_null_policy
        (c : Contract) (df : DataFrame) (f : string -> option bool)
        (vs vs1 : list violation) (r : AllResults) :
  validate_all c df vs = (inr r, vs1) ->
  exists r' vs2,
    validate_all (set_null_policy f c) df vs = (inr r', vs2) /\
    columns_results r' = columns_results r /\
    primary_keys r' = primary_keys r /\
    finite_numbers r' = finite_numbers r.
Proof.
  unfold validate_all, bind. intros H.
  destruct (validate_primary_keys df vs) as [[e|pk] v1]; [discriminate|].
  destruct (validate_nulls_returns c df v1) as [nl [v2 E2]].
  destruct (validate_nulls_returns (set_null_policy f c) df v1)
    as [nl' [v2' E2']].
  rewrite E2 in H. rewrite E2'.
  rewrite (framed_validate_finite_numbers df v2) in H.
  rewrite (framed_validate_finite_numbers df v2').
  destruct (validate_finite_numbers df []) as [[e|fin] d3]; simpl in *;
    [discriminate|].
  rewrite validate_columns_null_policy.
  rewrite (framed_validate_columns df c [] (v2 ++ d3)) in H.
  rewrite (framed_validate_columns df c [] (v2' ++ d3)).
  destruct (validate_columns df c [] []) as [[e|cols] d4]; simpl in *;
    [discriminate|].
  unfold ret in *. inversion H; subst. simpl.
  do 2 eexists. split; [reflexivity|]. simpl. auto.
Qed.

Lemma column_results_ignore_null_policy_witness :
  exists r' vs2,
    validate_all (set_null_policy (fun _ => Some true)
                                  [("Age", Examples.of_dtype "string")])
                 Examples.clean_df []
    = (inr r', vs2) /\
    columns_results r' = columns_results Examples.age_as_string_results.
Proof.
  destruct (column_results_ignore_null_policy
              [("Age", Examples.of_dtype "string")] Examples.clean_df
              (fun _ => Some true) [] [] Examples.age_as_string_results)
    as [r' [vs2 [E [C _]]]].
  - vm_compute. reflexivity.
  - exists r', vs2. auto.
Defined.

(** ** Growing the allow-list *)

Lemma validate_categorical_passed
      (df : DataFrame) (col : string) (spec : ColSpec) (s : Series)
      (l : scalars) (vs : list violation) :
  df_get df col = Some s ->
  allowed spec = Some l ->
  exists r new,
    validate_categorical df col spec vs = (inr r, vs ++ new) /\
    (passed r = true <-> unexpected_values s l = []) /\
    (unexpected_values s l = [] -> new = []).
Proof.
  intros Hs Hl. unfold validate_categorical. rewrite Hs, Hl. cbv zeta.
  fold (unexpected_values s l). unfold bind, ret, append_violation.
  destruct (unexpected_values s l) as [|u rest];
    destruct (set_diff (set_of (values_of l)) (set_of (unique (dropna s))));
    [ eexists; exists []; rewrite app_nil_r
    | eexists; exists []; rewrite app_nil_r
    | do 2 eexists | do 2 eexists ];
    (split; [reflexivity|]);
    simpl; (split; [split|]); intros; first [reflexivity | congruence].
Qed.

(** X14.  Allowing more values never turns a pass into a failure: when
    [validate_categorical] passes under an allow-list, it passes, and
    appends nothing, under every allow-list that has all the values of the
    first. *)
Theorem allow_list_monotone
        (df : DataFrame) (col : string) (spec spec' : ColSpec) (s : Series)
        (l l' : scalars) (vs vs1 : list violation) (r : Result) :
  df_get df col = Some s ->
  allowed spec = Some l ->
  allowed spec' = Some l' ->
  (forall v, mem v (values_of l) = true -> mem v (values_of l') = true) ->
  validate_categorical df col spec vs = (inr r, vs1) ->
  passed r = true ->
  exists r',
    validate_categorical df col spec' vs = (inr r', vs) /\ passed r' = true.
Proof.
  intros Hs Hl Hl' Hsub Hrun Hp.
  destruct (validate_categorical_passed df col spec s l vs Hs Hl)
    as [r0 [new [E [P _]]]].
  rewrite E in Hrun. inversion Hrun; subst r0 vs1.
  apply P in Hp.
  assert (unexpected_values s l' = []) as U.
  { destruct (unexpected_values s l') as [|u rest] eqn:U'; trivial.
    exfalso.
    assert (unexpected_values s l' <> []) as N by (rewrite U'; discriminate).
    apply unexpected_nonempty, count_if_pos in N.
    destruct N as [[v|] [I C]]; [|discriminate C].
    assert (unexpected_values s l <> []) as N'; [|congruence].
    apply unexpected_nonempty, count_if_pos. exists (Some v).
    split; [exact I|]. unfold contributes in *.
    apply andb_true_iff in C. destruct C as [C1 C2].
    rewrite C1. simpl. apply negb_true_iff in C2. apply negb_true_iff.
    destruct (mem v (values_of l)) eqn:M; trivial.
    rewrite (Hsub v M) in C2. discriminate. }
  destruct (validate_categorical_passed df col spec' s l' vs Hs Hl')
    as [r' [new' [E' [P' Q']]]].
  exists r'. rewrite E', (Q' U), app_nil_r. split; [reflexivity|].
  now apply P'.
Qed.

Lemma allow_list_monotone_witness :
  exists r',
    validate_categorical Examples.device_df "device"
      {| dtype := Some "category"; allow_null := None; range := None;
         ge := None; gt := None;
         allowed := Some (StrList ["Mobile"; "Phone"; "Tablet"]) |} []
    = (inr r', []) /\ passed r' = true.
Proof.
  apply (allow_list_monotone Examples.device_df "device"
           {| dtype := Some "category"; allow_null := None; range := None;
              ge := None; gt := None;
              allowed := Some (StrList ["Mobile"; "Phone"]) |}
           {| dtype := Some "category"; allow_null := None; range := None;
              ge := None; gt := None;
              allowed := Some (StrList ["Mobile"; "Phone"; "Tablet"]) |}
           (Examples.strings [Some "Mobile"; Some "Phone"])
           (StrList ["Mobile"; "Phone"]) (StrList ["Mobile"; "Phone"; "Tablet"])
           [] []
           {| passed := true;
              issues := [OnlyAllowed "device" [VStr "Mobile"; VStr "Phone"]] |}).
  - reflexivity.
  - reflexivity.
  - reflexivity.
  - intros v. unfold mem. simpl. rewrite !orb_false_r.
    intros H. apply orb_true_iff in H. destruct H as [H|H]; rewrite H;
      now rewrite ?orb_true_r.
  - reflexivity.
  - reflexivity.
Defined.

(** ** Every record counts something *)

Definition positive (v : violation) : Prop := 0 < violations v.

(** A computation that only appends records with a positive count,
    whether it returns or raises. *)
Definition appends_positive {A : Type} (m : M A) : Prop :=
  forall vs, exists new, snd (m vs) = vs ++ new /\ Forall positive new.

Lemma appends_positive_ret {A : Type} (a : A) : appends_positive (ret a).
Proof. intros vs. exists []. simpl. now rewrite app_nil_r. Qed.

Lemma appends_positive_raise {A : Type} (e : exn) :
  appends_positive (@raise A e).
Proof. intros vs. exists []. simpl. now rewrite app_nil_r. Qed.

Lemma appends_positive_append (v : violation) :
  positive v -> appends_positive (append_violation v).
Proof. intros H vs. exists [v]. simpl. auto. Qed.

Lemma appends_positive_bind {A B : Type} (m : M A) (k : A -> M B) :
  appends_positive m -> (forall a, appends_positive (k a)) ->
  appends_positive (bind m k).
Proof.
  intros Hm Hk vs. unfold bind. destruct (Hm vs) as [n1 [E1 F1]].
  destruct (m vs) as [[e|a] v1]; simpl in E1; subst v1.
  - exists n1. auto.
  - destruct (Hk a (vs ++ n1)) as [n2 [E2 F2]]. exists (n1 ++ n2).
    rewrite E2, app_assoc. split; [reflexivity|]. apply Forall_app. auto.
Qed.

Lemma appends_positive_getitem (df : DataFrame) (col : string) :
  appends_positive (getitem df col).
Proof.
  unfold getitem. destruct (df_get df col);
    auto using appends_positive_ret, appends_positive_raise.
Qed.

Create HintDb positive.

#[local] Hint Resolve appends_positive_ret appends_positive_raise
  appends_positive_getitem : positive.

Ltac positive_step :=
  match goal with
  | |- appends_positive (bind _ _) => apply appends_positive_bind; [|intro]
  | |- appends_positive (if ?b then _ else _) => destruct b eqn:?
  | |- appends_positive (match ?x with _ => _ end) => destruct x eqn:?
  | |- appends_positive (append_violation _) =>
      apply appends_positive_append; unfold positive; simpl;
      apply Nat.ltb_lt; assumption
  | |- appends_positive _ => solve [auto with positive]
  end.

Ltac positive_auto := cbv zeta; repeat (positive_step; cbv zeta).

Lemma positive_validate_primary_keys (df : DataFrame) :
  appends_positive (validate_primary_keys df).
Proof. unfold validate_primary_keys. positive_auto. Qed.

Lemma positive_ordered_values (s : Series) :
  appends_positive (ordered_values s).
Proof. unfold ordered_values. positive_auto. Qed.

#[local] Hint Resolve positive_ordered_values : positive.

Lemma positive_validate_numeric_range (df : DataFrame) (column : string)
      (spec : ColSpec) :
  appends_positive (validate_numeric_range df column spec).
Proof.
  unfold validate_numeric_range, check_range, check_ge, check_gt.
  positive_auto.
Qed.

Lemma positive_validate_categorical (df : DataFrame) (column : string)
      (spec : ColSpec) :
  appends_positive (validate_categorical df column spec).
Proof.
  unfold validate_categorical.
  destruct (df_get df column) as [s|]; [|auto with positive].
  destruct (allowed spec) as [l|]; [|auto with positive].
  cbv zeta. fold (unexpected_values s l).
  destruct (unexpected_values s l) as [|u rest] eqn:U.
  - positive_auto.
  - apply appends_positive_bind; [|intro; positive_auto].
    apply appends_positive_bind; [|intro; auto with positive].
    apply appends_positive_append. unfold positive. simpl.
    rewrite <- U, isin_sum_unexpected. apply unexpected_nonempty.
    rewrite U. discriminate.
Qed.

Lemma positive_validate_nulls_loop (df : DataFrame) (items : Contract) :
  forall results, appends_positive (validate_nulls_loop df items results).
Proof.
  induction items as [|[col_name col_spec] rest IH]; intros results; simpl.
  - auto with positive.
  - destruct (df_get df col_name); [|apply IH].
    apply appends_positive_bind; [|intro; apply IH].
    destruct (negb (get_allow_null col_spec)); simpl; positive_auto.
Qed.

Lemma positive_validate_finite_loop (df : DataFrame) (cols : list string) :
  forall results, appends_positive (validate_finite_loop df cols results).
Proof.
  induction cols as [|col rest IH]; intros results; simpl.
  - auto with positive.
  - apply appends_positive_bind; [auto with positive | intro].
    apply appends_positive_bind; [positive_auto | intro; apply IH].
Qed.

Lemma positive_validate_column (df : DataFrame) (col_name : string)
      (col_spec : ColSpec) :
  appends_positive (validate_column df col_name col_spec).
Proof.
  unfold validate_column, getitem_dtype.
  pose proof (positive_validate_numeric_range df col_name col_spec).
  pose proof (positive_validate_categorical df col_name col_spec).
  positive_auto.
Qed.

Lemma positive_validate_columns (df : DataFrame) (items : Contract) :
  forall cols, appends_positive (validate_columns df items cols).
Proof.
  induction items as [|[col_name col_spec] rest IH]; intros cols; simpl.
  - auto with positive.
  - destruct (negb (has_column df col_name)); [apply IH|].
    apply appends_positive_bind;
      [apply positive_validate_column | intro; apply IH].
Qed.

(** X15.  Every record a run appends to [self.violations] has a positive
    count in its [violations] field, also when the run ends by raising:
    no check records a violation that concerns no row. *)
Theorem violation_counts_positive
        (c : Contract) (df : DataFrame) (vs : list violation) :
  exists new,
    snd (validate_all c df vs) = vs ++ new /\
    Forall (fun v => 0 < violations v) new.
Proof.
  assert (appends_positive (validate_all c df)) as H; [|exact (H vs)].
  unfold validate_all, validate_nulls, validate_finite_numbers.
  pose proof (positive_validate_primary_keys df).
  pose proof (positive_validate_nulls_loop df c).
  pose proof (positive_validate_finite_loop df (numeric_columns df)).
  pose proof (positive_validate_columns df c).
  positive_auto.
Qed.

(** ** print_summary *)

(** The lines [print_summary] writes.  As for the issues, a constructor
    stands for one [print] of the source and carries what the line
    interpolates; [Blank] is the empty line a leading or trailing
    newline gives. *)
Inductive line : Type :=
| Blank
| Rule                                   (* "=" * 80 *)
| Title                                  (* SCHEMA VALIDATION SUMMARY *)
| PrimaryKeysHeading
| ColumnsHeading
| NullsHeading
| FiniteHeading
| IssueLine (indent : nat) (i : issue)
| ColumnPassedLine (col : string)
| ColumnFailedLine (col : string)
| NullLine (col : string) (n : nat) (pct : num) (allow : bool)
| AllChecksPassed
| ValidationFailed (total : nat).

(** [sorted(items, key=percentage, reverse=True)]: by decreasing
    percentage, entries of equal percentage in their first order. *)
Fixpoint insert_by_percentage (x : string * NullStat)
         (xs : list (string * NullStat)) : list (string * NullStat) :=
  match xs with
  | [] => [x]
  | y :: rest =>
      if num_ltb (percentage (snd x)) (percentage (snd y))
      then y :: insert_by_percentage x rest
      else x :: y :: rest
  end.

Definition sorted_by_percentage (xs : list (string * NullStat))
  : list (string * NullStat) :=
  fold_right insert_by_percentage [] xs.

(** The entries with [percentage > 1.0]. *)
Definition high_null_cols (null_stats : list (string * NullStat))
  : list (string * NullStat) :=
  filter (fun kv => num_gtb (percentage (snd kv)) (Fin 1)) null_stats.

Definition column_lines (entry : string * Result) : list line :=
  if passed (snd entry) then [ColumnPassedLine (fst entry)]
  else ColumnFailedLine (fst entry) :: map (IssueLine 4) (issues (snd entry)).

Definition null_line (entry : string * NullStat) : line :=
  NullLine (fst entry) (count (snd entry)) (percentage (snd entry))
           (stat_allow_null (snd entry)).

Definition print_summary (self : Validator) (results : AllResults)
  : list line :=
  [Blank; Rule; Title; Rule]
    ++ [Blank; PrimaryKeysHeading]
    ++ map (IssueLine 2) (issues (primary_keys results))
    ++ [Blank; ColumnsHeading]
    ++ flat_map column_lines (columns_results results)
    ++ [Blank; NullsHeading]
    ++ map null_line
           (sorted_by_percentage (high_null_cols (null_stats (nulls results))))
    ++ [Blank; FiniteHeading]
    ++ map (IssueLine 2) (issues (finite_numbers results))
    ++ [Blank; Rule]
    ++ [let total_violations := List.length (self_violations self) in
        if total_violations =? 0 then AllChecksPassed
        else ValidationFailed total_violations]
    ++ [Rule; Blank].

(** Where the two kinds of lines of interest can stand. *)
Lemma print_summary_status (self : Validator) (results : AllResults) :
  In AllChecksPassed (print_summary self results)
  <-> self_violations self = [].
Proof.
  unfold print_summary. cbv zeta.
  repeat (rewrite in_app_iff || rewrite in_map_iff || rewrite in_flat_map).
  simpl. split.
  - intros H.
    repeat match goal with
           | H : _ \/ _ |- _ => destruct H as [H|H]
           | H : exists _, _ |- _ => destruct H as [? H]
           | H : _ /\ _ |- _ => destruct H as [? H]
           | H : False |- _ => destruct H
           end; try discriminate.
    + unfold column_lines in H. destruct (passed (snd x)); simpl in H.
      * destruct H as [H|[]]. discriminate H.
      * destruct H as [H|H]; [discriminate H|].
        apply in_map_iff in H. destruct H as [? [H _]]. discriminate H.
    + destruct (self_violations self); [reflexivity | discriminate H].
  - intros ->. simpl. tauto.
Qed.

Lemma In_insert_by_percentage (x y : string * NullStat)
      (xs : list (string * NullStat)) :
  In y (insert_by_percentage x xs) <-> y = x \/ In y xs.
Proof.
  induction xs as [|z xs IH]; simpl.
  - split; intros [H|H]; auto.
  - destruct (num_ltb _ _); simpl; [rewrite IH|]; intuition auto.
Qed.

Lemma In_sorted_by_percentage (y : string * NullStat)
      (xs : list (string * NullStat)) :
  In y (sorted_by_percentage xs) <-> In y xs.
Proof.
  unfold sorted_by_percentage. induction xs as [|x xs IH]; simpl; [tauto|].
  rewrite In_insert_by_percentage, IH. intuition auto.
Qed.

(** X16.  The null summary lists a column exactly when the column has
    null statistics with a percentage above 1: every such entry gets its
    line, with its count, percentage and policy, and sorting neither drops
    nor invents a line; an entry whose percentage is [nan] (as on a
    dataset without rows) or at most 1 is never listed. *)
Theorem null_summary_lines
        (self : Validator) (results : AllResults)
        (col : string) (n : nat) (pct : num) (allow : bool) :
  In (NullLine col n pct allow) (print_summary self results)
  <-> In (col, {| count := n; percentage := pct; stat_allow_null := allow |})
         (null_stats (nulls results)) /\
      num_gtb pct (Fin 1) = true.
Proof.
  split.
  - unfold print_summary. cbv zeta.
    repeat (rewrite in_app_iff || rewrite in_map_iff || rewrite in_flat_map).
    simpl. intros H.
    repeat match goal with
           | H : _ \/ _ |- _ => destruct H as [H|H]
           | H : exists _, _ |- _ => destruct H as [? H]
           | H : _ /\ _ |- _ => destruct H as [? H]
           | H : False |- _ => destruct H
           end; try discriminate.
    + unfold column_lines in H. destruct (passed (snd x)); simpl in H.
      * destruct H as [H|[]]. discriminate H.
      * destruct H as [H|H]; [discriminate H|].
        apply in_map_iff in H. destruct H as [? [H _]]. discriminate H.
    + apply (proj1 (In_sorted_by_percentage _ _)) in H.
      unfold high_null_cols in H.
      apply filter_In in H. destruct H as [I G].
      destruct x as [k [n' p' a']]. unfold null_line in *. simpl in *.
      match goal with E : NullLine _ _ _ _ = _ |- _ => inversion E; subst end.
      auto.
    + destruct (Datatypes.length (self_violations self) =? 0);
        discriminate H.
  - intros [I G].
    assert (In (NullLine col n pct allow)
               (map null_line
                    (sorted_by_percentage
                       (high_null_cols (null_stats (nulls results))))))
      as K.
    { apply in_map_iff.
      exists (col, {| count := n; percentage := pct;
                      stat_allow_null := allow |}).
      split; [reflexivity|]. apply In_sorted_by_percentage.
      unfold high_null_cols. apply filter_In. auto. }
    unfold print_summary. rewrite !in_app_iff. tauto.
Qed.

(** ** What "all checks passed" means *)

(** A computation that returns from the empty list and leaves it empty
    has every part do the same. *)
Lemma bind_quiet {A B : Type} (m : M A) (k : A -> M B) (b : B) :
  (forall a, framed (k a)) ->
  bind m k [] = (inr b, []) ->
  exists a, m [] = (inr a, []) /\ k a [] = (inr b, []).
Proof.
  intros Hk. unfold bind. destruct (m []) as [[e|a] d]; [discriminate|].
  rewrite (Hk a d). intros H. injection H as H1 H2.
  apply app_eq_nil in H2. destruct H2 as [Hd H2]. subst d.
  exists a. split; [reflexivity|].
  destruct (k a []) as [x d']. simpl in *. now subst.
Qed.

Lemma validate_primary_keys_quiet (df : DataFrame) (pk : Result) :
  validate_primary_keys df [] = (inr pk, []) -> passed pk = true.
Proof.
  unfold validate_primary_keys, getitem, has_column, bind.
  destruct (df_get df "Session_ID") as [session|]; [|discriminate].
  unfold ret at 1. cbv beta iota zeta.
  destruct (0 <? duplicated_sum (cells session));
    unfold ret, append_violation; cbv beta iota;
    destruct (df_get df "Day") as [day|]; try discriminate;
    destruct (0 <? sum_counts _); cbv beta iota;
    destruct (df_get df "id") as [id|];
    try destruct (0 <? duplicated_sum (cells id));
    simpl; intros H; inversion H; reflexivity.
Qed.

Lemma validate_nulls_quiet (c : Contract) (df : DataFrame) (nl : NullsResult) :
  validate_nulls c df [] = (inr nl, []) -> nulls_passed nl = true.
Proof.
  unfold validate_nulls. rewrite validate_nulls_loop_eq. simpl.
  intros H. inversion H as [[H1 H2]]. simpl. clear H H1.
  induction c as [|[col spec] rest IH]; simpl in *; trivial.
  apply app_eq_nil in H2. destruct H2 as [H2 H3].
  rewrite (IH H3), andb_true_r.
  unfold null_violations_of in H2. unfold null_ok. simpl in *.
  destruct (df_get df col); trivial.
  destruct (nulls_refused spec s); [discriminate | reflexivity].
Qed.

Lemma validate_finite_numbers_quiet (df : DataFrame) (fin : Result) :
  validate_finite_numbers df [] = (inr fin, []) -> passed fin = true.
Proof.
  unfold validate_finite_numbers, bind.
  rewrite validate_finite_loop_eq by apply numeric_columns_in.
  cbv beta iota. rewrite andb_true_l.
  destruct (forallb (inf_free df) (numeric_columns df)) eqn:F; unfold ret;
    intros H; inversion H as [[H1 H2]]; simpl; trivial.
  exfalso. clear H H1. revert F H2.
  induction (numeric_columns df) as [|col rest IH]; simpl; [discriminate|].
  intros F H2. apply app_eq_nil in H2. destruct H2 as [H2 H3].
  unfold inf_free in F at 1. unfold inf_violations_of in H2.
  destruct (df_get df col) as [s|]; simpl in F; [|auto].
  destruct (0 <? isinf_sum s); [discriminate H2 | auto].
Qed.

Lemma validate_numeric_range_quiet
      (df : DataFrame) (col : string) (spec : ColSpec) (r : Result) :
  has_column df col = true ->
  validate_numeric_range df col spec [] = (inr r, []) ->
  passed r = true.
Proof.
  unfold has_column. destruct (df_get df col) as [s|] eqn:Hs; [|discriminate].
  intros _ H.
  destruct (dropna s) as [|v0 rest] eqn:D.
  - unfold validate_numeric_range in H. rewrite Hs, D in H.
    now inversion H.
  - destruct (orderable s) eqn:Ho.
    + pose proof (validate_numeric_range_eq df col spec s [] Hs Ho) as E.
      rewrite D in E. specialize (E ltac:(discriminate)). cbv zeta in E.
      pose proof (range_part_spec col (nums_of (v0 :: rest)) (range spec))
        as P1.
      pose proof (ge_part_spec col (nums_of (v0 :: rest)) (ge spec)) as P2.
      pose proof (gt_part_spec col (nums_of (v0 :: rest)) (gt spec)) as P3.
      destruct (range_part _ _ _) as [[ok1 is1] vio1].
      destruct (ge_part _ _ _) as [[ok2 is2] vio2].
      destruct (gt_part _ _ _) as [[ok3 is3] vio3].
      rewrite E in H. inversion H as [[H1 H2]]. simpl.
      apply app_eq_nil in H2. destruct H2 as [-> H2].
      apply app_eq_nil in H2. destruct H2 as [-> ->].
      destruct P1 as [A1 _], P2 as [A2 _], P3 as [A3 _].
      rewrite (proj2 A1), (proj2 A2), (proj2 A3); reflexivity.
    + rewrite (validate_numeric_range_unorderable df col spec s [] Hs) in H
        by (trivial; rewrite D; discriminate).
      destruct (has_bound spec); now inversion H.
Qed.

Lemma validate_categorical_quiet
      (df : DataFrame) (col : string) (spec : ColSpec) (r : Result) :
  has_column df col = true ->
  validate_categorical df col spec [] = (inr r, []) ->
  passed r = true.
Proof.
  unfold has_column, validate_categorical.
  destruct (df_get df col) as [s|]; [|discriminate].
  intros _ H. destruct (allowed spec) as [l|]; [|now inversion H].
  cbv zeta in H. unfold bind, ret, append_violation in H.
  destruct (set_diff (set_of (unique (dropna s))) (set_of (values_of l)));
    destruct (set_diff (set_of (values_of l)) (set_of (unique (dropna s))));
    inversion H; reflexivity.
Qed.

(** Why a column result can be failing when nothing was recorded. *)
Definition fails_unrecorded (col : string) (cr : Result) : Prop :=
  passed cr = false ->
  In (Missing col) (issues cr) \/
  exists expected actual, In (DtypeMismatch col expected actual) (issues cr).

Lemma validate_dtype_fails (df : DataFrame) (col expected : string) :
  has_column df col = true ->
  passed (validate_dtype df col expected) = false ->
  exists actual,
    In (DtypeMismatch col expected actual)
       (issues (validate_dtype df col expected)).
Proof.
  unfold has_column, validate_dtype.
  destruct (df_get df col) as [s|]; [|discriminate]. intros _.
  destruct (assoc expected dtype_mapping); [|discriminate].
  destruct (negb _); [|discriminate]. simpl. eauto.
Qed.

Lemma validate_column_quiet
      (df : DataFrame) (col : string) (spec : ColSpec) (cr : Result) :
  has_column df col = true ->
  validate_column df col spec [] = (inr cr, []) ->
  fails_unrecorded col cr.
Proof.
  intros Hc. unfold validate_column, getitem_dtype.
  destruct (dtype spec) as [expected|]; [|discriminate].
  unfold bind at 1 2. unfold ret at 1 2. cbv beta iota.
  pose proof (validate_dtype_fails df col expected Hc) as Hd.
  set (d := validate_dtype df col expected) in *. clearbody d.
  intros H. apply bind_quiet in H.
  - destruct H as [r1 [H1 H2]].
    assert (passed r1 = passed d /\ forall i, In i (issues d) -> In i (issues r1))
      as [P1 I1].
    { destruct (str_in expected ["int"; "float"]).
      - apply bind_quiet in H1; [|intro; apply framed_ret].
        destruct H1 as [rr [R1 R2]]. unfold ret in R2. inversion R2; subst.
        rewrite !merge_passed.
        rewrite (validate_numeric_range_quiet df col spec rr Hc R1).
        simpl. rewrite andb_true_r. split; [reflexivity|].
        intros i Hi. rewrite !merge_issues, !in_app_iff. auto.
      - unfold ret in H1. inversion H1; subst. rewrite merge_passed. simpl.
        split; [reflexivity|]. intros i Hi. rewrite merge_issues, in_app_iff.
        auto. }
    assert (passed cr = passed r1 /\
            forall i, In i (issues r1) -> In i (issues cr)) as [P2 I2].
    { destruct (allowed spec).
      - apply bind_quiet in H2; [|intro; apply framed_ret].
        destruct H2 as [a [R1 R2]]. unfold ret in R2. inversion R2; subst.
        rewrite merge_passed.
        rewrite (validate_categorical_quiet df col spec a Hc R1).
        rewrite andb_true_r. split; [reflexivity|].
        intros i Hi. rewrite merge_issues, in_app_iff. auto.
      - unfold ret in H2. inversion H2; subst. auto. }
    intros F. right. rewrite P2, P1 in F.
    destruct (Hd F) as [actual Ia]. exists expected, actual. auto.
  - intros a. destruct (allowed spec); [|apply framed_ret].
    apply framed_bind; [apply framed_validate_categorical|].
    intro. apply framed_ret.
Qed.

Lemma validate_columns_quiet (df : DataFrame) (items : Contract) :
  forall cols r,
    (forall col cr, In (col, cr) cols -> fails_unrecorded col cr) ->
    validate_columns df items cols [] = (inr r, []) ->
    forall col cr, In (col, cr) r -> fails_unrecorded col cr.
Proof.
  induction items as [|[c sp] rest IH]; intros cols r Hcols Hrun.
  - simpl in Hrun. now inversion Hrun; subst.
  - simpl in Hrun. destruct (has_column df c) eqn:Hc; simpl in Hrun.
    + apply bind_quiet in Hrun; [|intro; apply framed_validate_columns].
      destruct Hrun as [cr0 [E Hrun]].
      apply (IH (dict_set cols c cr0) r); [|exact Hrun].
      intros col cr I. apply In_dict_set in I. destruct I as [I|I]; [|eauto].
      inversion I; subst. now apply (validate_column_quiet df c sp).
    + apply (IH (dict_set cols c {| passed := false;
                                    issues := [Missing c] |}) r);
        [|exact Hrun].
      intros col cr I. apply In_dict_set in I. destruct I as [I|I]; [|eauto].
      inversion I; subst. intros _. left. simpl. auto.
Qed.

(** X17.  After a run of a new validator that returned,
    [print_summary] says that all checks passed exactly when the run
    recorded no violation; then the primary-key, null and finite-number
    results all pass, but a column result may still be failing, and when
    it is, the reason is one of the two that leave no record: the column
    is missing from the dataset, or its dtype does not match. *)
Theorem all_checks_passed_meaning
        (c : Contract) (df : DataFrame) (r : AllResults) (self : Validator) :
  run (init c) df = (inr r, self) ->
  In AllChecksPassed (print_summary self r) ->
  self_violations self = [] /\
  passed (primary_keys r) = true /\
  nulls_passed (nulls r) = true /\
  passed (finite_numbers r) = true /\
  forall col cr,
    In (col, cr) (columns_results r) ->
    passed cr = false ->
    In (Missing col) (issues cr) \/
    exists expected actual, In (DtypeMismatch col expected actual) (issues cr).
Proof.
  unfold run, init. simpl. intros Hrun Hline.
  apply print_summary_status in Hline.
  destruct (validate_all c df []) as [out vs'] eqn:E.
  inversion Hrun; subst out self. simpl in Hline. subst vs'.
  split; [reflexivity|].
  unfold validate_all in E.
  apply bind_quiet in E.
  2:{ intro. pose proof (framed_validate_nulls_loop df c).
      pose proof (framed_validate_finite_numbers df).
      pose proof (framed_validate_columns df c).
      unfold validate_nulls. framed_auto. }
  destruct E as [pk [E1 E]].
  apply bind_quiet in E.
  2:{ intro. pose proof (framed_validate_finite_numbers df).
      pose proof (framed_validate_columns df c). framed_auto. }
  destruct E as [nl [E2 E]].
  apply bind_quiet in E.
  2:{ intro. pose proof (framed_validate_columns df c). framed_auto. }
  destruct E as [fin [E3 E]].
  apply bind_quiet in E; [|intro; apply framed_ret].
  destruct E as [cols [E4 E]]. unfold ret in E. inversion E; subst r. simpl.
  split; [now apply (validate_primary_keys_quiet df)|].
  split; [now apply (validate_nulls_quiet c df)|].
  split; [now apply (validate_finite_numbers_quiet df)|].
  intros col cr I.
  apply (validate_columns_quiet df c [] cols (fun _ _ (F : False) => match F with end)
                                E4 col cr I).
Qed.

(** The run on [clean_df] under the contract that declares [Age] a
    string: the summary says that all checks passed, and [Age] fails by
    its dtype. *)
Lemma all_checks_passed_meaning_witness :
  passed (primary_keys Examples.age_as_string_results) = true /\
  exists expected actual,
    In (DtypeMismatch "Age" expected actual)
       (issues {| passed := false;
                  issues := [DtypeMismatch "Age" "string" "int64"] |}).
Proof.
  destruct (all_checks_passed_meaning
              [("Age", Examples.of_dtype "string")] Examples.clean_df
              Examples.age_as_string_results
              {| contract := [("Age", Examples.of_dtype "string")];
                 self_violations := [] |})
    as [_ [P [_ [_ C]]]].
  - vm_compute. reflexivity.
  - apply print_summary_status. reflexivity.
  - split; [exact P|].
    destruct (C "Age" {| passed := false;
                         issues := [DtypeMismatch "Age" "string" "int64"] |})
      as [M|D].
    + simpl. auto.
    + reflexivity.
    + simpl in M. destruct M as [M|[]]. discriminate M.
    + exact D.
Defined.

(** ** A string column declared numeric *)

(** The loop stops at an entry whose checks raise, if it gets there. *)
Lemma validate_columns_raising
      (df : DataFrame) (c : string) (spec : ColSpec) (post : Contract)
      (e0 : exn) :
  has_column df c = true ->
  (forall vs, validate_column df c spec vs = (inl e0, vs)) ->
  forall pre cols vs,
    match validate_columns df pre cols vs with
    | (inl e, vs') =>
        validate_columns df (pre ++ (c, spec) :: post) cols vs = (inl e, vs')
    | (inr _, vs') =>
        validate_columns df (pre ++ (c, spec) :: post) cols vs = (inl e0, vs')
    end.
Proof.
  intros Hc Hraise. induction pre as [|[k sp] pre IH]; intros cols vs; simpl.
  - rewrite Hc. simpl. unfold bind. now rewrite Hraise.
  - destruct (negb (has_column df k)); [apply IH|].
    unfold bind. destruct (validate_column df k sp vs) as [[e|cr] vs1];
      [reflexivity | apply IH].
Qed.

Lemma validate_column_type_error
      (df : DataFrame) (c : string) (spec : ColSpec) (s : Series)
      (tag : string) (vs : list violation) :
  df_get df c = Some s ->
  dtype spec = Some tag ->
  str_in tag ["int"; "float"] = true ->
  dropna s <> [] ->
  orderable s = false ->
  has_bound spec = true ->
  validate_column df c spec vs = (inl TypeError, vs).
Proof.
  intros Hs Hd Ht Hv Ho Hb. unfold validate_column, getitem_dtype.
  rewrite Hd. unfold bind, ret. rewrite Ht.
  rewrite (validate_numeric_range_unorderable df c spec s vs Hs Hv Ho).
  now rewrite Hb.
Qed.

(** X18.  A column that stores strings and has a value, declared [int]
    or [float] in the contract together with a bound, does not give a
    dtype issue: the run raises and returns no results.  What it raises
    is [TypeError] whenever the run on the entries before it returns. *)
Theorem declared_numeric_strings_raise
        (df : DataFrame) (pre post : Contract) (c : string) (spec : ColSpec)
        (s : Series) (tag : string) (vs : list violation) :
  df_get df c = Some s ->
  dtype spec = Some tag ->
  str_in tag ["int"; "float"] = true ->
  dropna s <> [] ->
  holds_strings s = true ->
  has_bound spec = true ->
  (exists e vs',
      validate_all (pre ++ (c, spec) :: post) df vs = (inl e, vs')) /\
  (forall r vs1,
      validate_all pre df vs = (inr r, vs1) ->
      exists vs',
        validate_all (pre ++ (c, spec) :: post) df vs
        = (inl TypeError, vs')).
Proof.
  intros Hs Hd Ht Hv Hstr Hb.
  pose proof (holds_strings_unorderable s Hstr) as Ho.
  assert (has_column df c = true) as Hc by (unfold has_column; now rewrite Hs).
  pose proof (fun v3 =>
                validate_columns_raising df c spec post TypeError Hc
                  (fun vs0 => validate_column_type_error df c spec s tag vs0
                                Hs Hd Ht Hv Ho Hb) pre [] v3) as Hloop.
  split.
  - unfold validate_all, bind.
    destruct (validate_primary_keys df vs) as [[e|pk] v1]; [eauto|].
    destruct (validate_nulls _ df v1) as [[e|nl] v2]; [eauto|].
    destruct (validate_finite_numbers df v2) as [[e|fin] v3]; [eauto|].
    specialize (Hloop v3).
    destruct (validate_columns df pre [] v3) as [[e|cols] v4];
      rewrite Hloop; eauto.
  - intros r vs1 Hpre.
    destruct (validate_all_columns _ _ _ _ _ Hpre) as [v0 Hcols].
    destruct (validate_all_primary_keys _ _ _ _ _ Hpre) as [v1 Hpk].
    unfold validate_all, bind. rewrite Hpk.
    destruct (validate_nulls_returns (pre ++ (c, spec) :: post) df v1)
      as [nl [v2 ->]].
    destruct (validate_finite_numbers_returns df v2) as [fin [v3 ->]].
    specialize (Hloop v3).
    rewrite (framed_validate_columns df pre [] v0) in Hcols.
    rewrite (framed_validate_columns df pre [] v3) in Hloop.
    destruct (validate_columns df pre [] []) as [[e|cols] d];
      simpl in Hcols; [discriminate|].
    simpl in Hloop. rewrite Hloop. eauto.
Qed.

(** Sessions, days, and a column of words. *)
Definition labelled_df : DataFrame :=
  {| index_len := 3;
     columns := [ ("Session_ID", Examples.ints [1; 2; 3]%Z);
                  ("Day", Examples.ints [1; 1; 2]%Z);
                  ("Age", Examples.strings [Some "young"; Some "old"; None]) ] |}.

Lemma declared_numeric_strings_raise_witness :
  exists vs',
    validate_all ([] ++ ("Age", ge_zero) :: []) labelled_df []
    = (inl TypeError, vs').
Proof.
  destruct (declared_numeric_strings_raise labelled_df [] [] "Age" ge_zero
              (Examples.strings [Some "young"; Some "old"; None]) "int" [])
    as [_ K]; try reflexivity.
  - discriminate.
  - eapply K. vm_compute. reflexivity.
Defined.

(** ** When every result passes *)

Lemma bind_returns {A B : Type} (m : M A) (k : A -> M B) (b : B)
      (d : list violation) :
  (forall a, framed (k a)) ->
  bind m k [] = (inr b, d) ->
  exists a d1 d2,
    m [] = (inr a, d1) /\ k a [] = (inr b, d2) /\ d = d1 ++ d2.
Proof.
  intros Hk. unfold bind. destruct (m []) as [[e|a] d1]; [discriminate|].
  rewrite (Hk a d1). intros H. injection H as H1 H2.
  exists a, d1, (snd (k a [])). split; [reflexivity|].
  split; [|now symmetry]. destruct (k a []) as [x d']. simpl in *. now subst.
Qed.

Lemma assoc_Some_In {A : Type} (d : list (string * A)) (k : string) (v : A) :
  assoc k d = Some v -> In (k, v) d.
Proof.
  induction d as [|[k' v'] d IH]; simpl; [discriminate|].
  destruct (String.eqb_spec k k') as [->|N].
  - intros H. inversion H. now left.
  - auto.
Qed.

Lemma validate_primary_keys_passed (df : DataFrame) (pk : Result)
      (d : list violation) :
  validate_primary_keys df [] = (inr pk, d) -> passed pk = true -> d = [].
Proof.
  unfold validate_primary_keys, getitem, has_column, bind.
  destruct (df_get df "Session_ID") as [session|]; [|discriminate].
  unfold ret at 1. cbv beta iota zeta.
  destruct (0 <? duplicated_sum (cells session));
    unfold ret, append_violation; cbv beta iota;
    destruct (df_get df "Day") as [day|]; try discriminate;
    destruct (0 <? sum_counts _); cbv beta iota;
    destruct (df_get df "id") as [id|];
    try destruct (0 <? duplicated_sum (cells id));
    simpl; intros H; inversion H; subst; simpl; intros P;
    first [reflexivity | discriminate P].
Qed.

Lemma validate_nulls_passed (c : Contract) (df : DataFrame) (nl : NullsResult)
      (d : list violation) :
  validate_nulls c df [] = (inr nl, d) -> nulls_passed nl = true -> d = [].
Proof.
  unfold validate_nulls. rewrite validate_nulls_loop_eq. simpl.
  intros H. inversion H; subst. simpl. clear H.
  induction c as [|[col spec] rest IH]; simpl; trivial.
  intros P. apply andb_true_iff in P. destruct P as [P1 P2].
  rewrite (IH P2), app_nil_r.
  unfold null_ok in P1. unfold null_violations_of. simpl in *.
  destruct (df_get df col); trivial.
  apply negb_true_iff in P1. now rewrite P1.
Qed.

Lemma validate_finite_numbers_passed (df : DataFrame) (fin : Result)
      (d : list violation) :
  validate_finite_numbers df [] = (inr fin, d) -> passed fin = true -> d = [].
Proof.
  unfold validate_finite_numbers, bind.
  rewrite validate_finite_loop_eq by apply numeric_columns_in.
  cbv beta iota. rewrite andb_true_l.
  destruct (forallb (inf_free df) (numeric_columns df)) eqn:F; unfold ret;
    intros H; inversion H; subst; simpl; [intros _ | discriminate].
  clear H. revert F.
  induction (numeric_columns df) as [|col rest IH]; simpl; trivial.
  intros F. apply andb_true_iff in F. destruct F as [F1 F2].
  rewrite (IH F2), app_nil_r. unfold inf_free in F1.
  unfold inf_violations_of. destruct (df_get df col); trivial.
  apply negb_true_iff in F1. now rewrite F1.
Qed.

Lemma validate_numeric_range_passed
      (df : DataFrame) (col : string) (spec : ColSpec) (r : Result)
      (d : list violation) :
  has_column df col = true ->
  validate_numeric_range df col spec [] = (inr r, d) ->
  passed r = true -> d = [].
Proof.
  unfold has_column. destruct (df_get df col) as [s|] eqn:Hs; [|discriminate].
  intros _ H.
  destruct (dropna s) as [|v0 rest] eqn:D.
  - unfold validate_numeric_range in H. rewrite Hs, D in H.
    now inversion H.
  - destruct (orderable s) eqn:Ho.
    + pose proof (validate_numeric_range_eq df col spec s [] Hs Ho) as E.
      rewrite D in E. specialize (E ltac:(discriminate)). cbv zeta in E.
      pose proof (range_part_spec col (nums_of (v0 :: rest)) (range spec))
        as P1.
      pose proof (ge_part_spec col (nums_of (v0 :: rest)) (ge spec)) as P2.
      pose proof (gt_part_spec col (nums_of (v0 :: rest)) (gt spec)) as P3.
      destruct (range_part _ _ _) as [[ok1 is1] vio1].
      destruct (ge_part _ _ _) as [[ok2 is2] vio2].
      destruct (gt_part _ _ _) as [[ok3 is3] vio3].
      rewrite E in H. inversion H; subst. simpl. intros P.
      apply andb_true_iff in P. destruct P as [P P3'].
      apply andb_true_iff in P. destruct P as [P1' P2'].
      destruct P1 as [A1 _], P2 as [A2 _], P3 as [A3 _].
      now rewrite (proj1 A1 P1'), (proj1 A2 P2'), (proj1 A3 P3').
    + rewrite (validate_numeric_range_unorderable df col spec s [] Hs) in H
        by (trivial; rewrite D; discriminate).
      destruct (has_bound spec); now inversion H.
Qed.

Lemma validate_categorical_passed_quiet
      (df : DataFrame) (col : string) (spec : ColSpec) (r : Result)
      (d : list violation) :
  has_column df col = true ->
  validate_categorical df col spec [] = (inr r, d) ->
  passed r = true -> d = [].
Proof.
  unfold has_column, validate_categorical.
  destruct (df_get df col) as [s|]; [|discriminate].
  intros _ H. destruct (allowed spec) as [l|]; [|now inversion H].
  cbv zeta in H. unfold bind, ret, append_violation in H.
  destruct (set_diff (set_of (unique (dropna s))) (set_of (values_of l)));
    destruct (set_diff (set_of (values_of l)) (set_of (unique (dropna s))));
    inversion H; subst; simpl; intros P;
    first [reflexivity | discriminate P].
Qed.

Lemma validate_column_passed
      (df : DataFrame) (col : string) (spec : ColSpec) (cr : Result)
      (d : list violation) :
  has_column df col = true ->
  validate_column df col spec [] = (inr cr, d) ->
  passed cr = true -> d = [].
Proof.
  intros Hc. unfold validate_column, getitem_dtype.
  destruct (dtype spec) as [expected|]; [|discriminate].
  unfold bind at 1 2. unfold ret at 1 2. cbv beta iota.
  set (r0 := merge new_result (validate_dtype df col expected)).
  clearbody r0. intros H. apply bind_returns in H.
  - destruct H as [r1 [d1 [d2 [H1 [H2 ->]]]]]. intros P.
    assert (passed r1 = true /\ d2 = []) as [P1 ->].
    { destruct (allowed spec).
      - apply bind_returns in H2; [|intro; apply framed_ret].
        destruct H2 as [a [e1 [e2 [R1 [R2 ->]]]]].
        unfold ret in R2. inversion R2; subst.
        rewrite merge_passed in P. apply andb_true_iff in P.
        destruct P as [P1 P2]. split; [exact P1|].
        now rewrite (validate_categorical_passed_quiet df col spec a e1 Hc R1 P2).
      - unfold ret in H2. inversion H2; subst. auto. }
    rewrite app_nil_r.
    destruct (str_in expected ["int"; "float"]).
    + apply bind_returns in H1; [|intro; apply framed_ret].
      destruct H1 as [rr [e1 [e2 [R1 [R2 ->]]]]].
      unfold ret in R2. inversion R2; subst.
      rewrite merge_passed in P1. apply andb_true_iff in P1.
      destruct P1 as [_ P2].
      now rewrite (validate_numeric_range_passed df col spec rr e1 Hc R1 P2).
    + unfold ret in H1. now inversion H1.
  - intros a. destruct (allowed spec); [|apply framed_ret].
    apply framed_bind; [apply framed_validate_categorical|].
    intro. apply framed_ret.
Qed.

Lemma validate_columns_passed (df : DataFrame) (items : Contract) :
  forall cols r d,
    NoDup (map fst items) ->
    validate_columns df items cols [] = (inr r, d) ->
    (forall col cr, In (col, cr) r -> passed cr = true) ->
    d = [].
Proof.
  induction items as [|[c sp] rest IH]; intros cols r d ND Hrun Hall.
  - simpl in Hrun. now inversion Hrun.
  - simpl in ND. inversion ND as [|? ? Hnotin ND']; subst.
    simpl in Hrun. destruct (has_column df c) eqn:Hc; simpl in Hrun.
    + apply bind_returns in Hrun; [|intro; apply framed_validate_columns].
      destruct Hrun as [cr0 [d1 [d2 [E [Hrest ->]]]]].
      rewrite (IH _ _ _ ND' Hrest Hall), app_nil_r.
      apply (validate_column_passed df c sp cr0 d1 Hc E).
      apply (Hall c). apply assoc_Some_In.
      rewrite (validate_columns_other df rest _ _ _ _ c Hrest Hnotin).
      apply assoc_dict_set_same.
    + apply (IH _ _ _ ND' Hrun Hall).
Qed.

(** X19.  After a run of a new validator that returned, if the
    primary-key, null and finite-number results pass and every column
    result passes, then no violation was recorded and [print_summary] says
    that all checks passed: a record is never appended without some
    result failing. *)
Theorem passing_results_record_nothing
        (c : Contract) (df : DataFrame) (r : AllResults) (self : Validator) :
  NoDup (map fst c) ->
  run (init c) df = (inr r, self) ->
  passed (primary_keys r) = true ->
  nulls_passed (nulls r) = true ->
  passed (finite_numbers r) = true ->
  (forall col cr, In (col, cr) (columns_results r) -> passed cr = true) ->
  self_violations self = [] /\
  In AllChecksPassed (print_summary self r).
Proof.
  unfold run, init. simpl. intros ND Hrun P1 P2 P3 P4.
  assert (self_violations self = []) as Hv;
    [|split; [exact Hv | now apply print_summary_status]].
  destruct (validate_all c df []) as [out vs'] eqn:E.
  inversion Hrun; subst out self. simpl.
  unfold validate_all in E.
  apply bind_returns in E.
  2:{ intro. pose proof (framed_validate_nulls_loop df c).
      pose proof (framed_validate_finite_numbers df).
      pose proof (framed_validate_columns df c).
      unfold validate_nulls. framed_auto. }
  destruct E as [pk [d1 [d1' [E1 [E ->]]]]].
  apply bind_returns in E.
  2:{ intro. pose proof (framed_validate_finite_numbers df).
      pose proof (framed_validate_columns df c). framed_auto. }
  destruct E as [nl [d2 [d2' [E2 [E ->]]]]].
  apply bind_returns in E.
  2:{ intro. pose proof (framed_validate_columns df c). framed_auto. }
  destruct E as [fin [d3 [d3' [E3 [E ->]]]]].
  apply bind_returns in E; [|intro; apply framed_ret].
  destruct E as [cols [d4 [d4' [E4 [E ->]]]]].
  unfold ret in E. inversion E; subst r d4'. simpl in *.
  rewrite (validate_primary_keys_passed df pk d1 E1 P1).
  rewrite (validate_nulls_passed c df nl d2 E2 P2).
  rewrite (validate_finite_numbers_passed df fin d3 E3 P3).
  rewrite (validate_columns_passed df c [] cols d4 ND E4 P4).
  reflexivity.
Qed.

Lemma passing_results_record_nothing_witness :
  In AllChecksPassed
     (print_summary {| contract := [("Age", Examples.of_dtype "int")];
                       self_violations := [] |}
                    {| primary_keys :=
                         {| passed := true;
                            issues := [SessionUnique; SessionUniqueWithinDay] |};
                       columns_results :=
                         [("Age", {| passed := true; issues := [] |})];
                       nulls :=
                         {| nulls_passed := true;
                            nulls_issues := [];
                            null_stats :=
                              [("Age", {| count := 0;
                                          percentage := Fin (0 # 3);
                                          stat_allow_null := false |})] |};
                       finite_numbers :=
                         {| passed := true; issues := [AllFinite] |} |}).
Proof.
  apply (passing_results_record_nothing
           [("Age", Examples.of_dtype "int")] Examples.clean_df).
  - repeat constructor. simpl. tauto.
  - vm_compute. reflexivity.
  - reflexivity.
  - reflexivity.
  - reflexivity.
  - intros col cr [H|[]]. now inversion H.
Defined.
